(** * qpAdm runner (gui.py): embedding of the analysis pipeline

    The script gui.py is a Streamlit page.  Every user interaction re-runs
    the script top to bottom against a per-session [session_state]; the
    "Start qpAdm Analysis" button runs one analysis: guards, five calls into
    the embedded R interpreter, z-score derivation on the weights table,
    pie-chart input and statistics text, and the CSV export.  The files
    the script reads (config.txt, the two list files, the index file shown
    in the side bar) and the widgets of the two columns are embedded as
    well.

    Python values are modelled as follows.
    - [str]: a sequence of Unicode code points.
    - [float]: IEEE 754 binary64, as [spec_float] with precision 53 and
      maximal exponent 1024.
    - a pandas DataFrame: named columns over a positional index; objects the
      script mutates live in a heap and are referred to by location.
    - exceptions: an error monad over the mutable world. *)

From Stdlib Require Import ZArith NArith List String Ascii Bool Lia.
From Stdlib Require Import Floats.SpecFloat.
From stdpp Require Import base option list gmap.

Local Open Scope Z_scope.

(** ** Python strings *)

Abbreviation char := N.
Abbreviation str := (list N).

(** An ASCII literal of the script as a Python string. *)
Definition lit (s : string) : str :=
  List.map N_of_ascii (list_ascii_of_string s).

(** [str.isspace] on one code point (CPython's [_PyUnicode_IsWhitespace]). *)
Definition isspace (c : char) : bool :=
  ((9 <=? c) && (c <=? 13) || (28 <=? c) && (c <=? 32)
   || (c =? 133) || (c =? 160) || (c =? 5760)
   || (8192 <=? c) && (c <=? 8202)
   || (c =? 8232) || (c =? 8233) || (c =? 8239) || (c =? 8287)
   || (c =? 12288))%N.

Fixpoint lstrip (s : str) : str :=
  match s with
  | c :: s' => if isspace c then lstrip s' else s
  | [] => []
  end.

Definition rstrip (s : str) : str := rev (lstrip (rev s)).

(** [s.strip()] *)
Definition strip (s : str) : str := rstrip (lstrip s).

(** [s.split(sep)] for a one-character separator: never returns []. *)
Fixpoint split (sep : char) (s : str) : list str :=
  match s with
  | [] => [[]]
  | c :: s' =>
      if (c =? sep)%N then [] :: split sep s'
      else match split sep s' with
           | w :: ws => (c :: w) :: ws
           | [] => [[c]]
           end
  end.

(** [s.split(sep, 1)] on a string known to contain [sep]: the part before
    the first separator and the rest.  Without a separator the whole string
    is the first part and there is no second part. *)
Fixpoint split1 (sep : char) (s : str) : str * option str :=
  match s with
  | [] => ([], None)
  | c :: s' =>
      if (c =? sep)%N then ([], Some s')
      else let '(a, b) := split1 sep s' in (c :: a, b)
  end.

(** [sep in s] *)
Definition contains (sep : char) (s : str) : bool :=
  existsb (fun c => (c =? sep)%N) s.

(** [sep.join(parts)] *)
Fixpoint join (sep : str) (parts : list str) : str :=
  match parts with
  | [] => []
  | [p] => p
  | p :: ps => p ++ sep ++ join sep ps
  end.

(** [s.replace(old, new)] for a one-character [old]. *)
Definition replace (old : char) (new : str) (s : str) : str :=
  List.flat_map (fun c => if (c =? old)%N then new else [c]) s.

(** [format(s, '<w')] and [format(s, '>w')]: pad with spaces to width [w]. *)
Definition ljust (w : nat) (s : str) : str :=
  s ++ repeat 32%N (w - length s)%nat.
Definition rjust (w : nat) (s : str) : str :=
  repeat 32%N (w - length s)%nat ++ s.

(** ** Python floats *)

Definition float := spec_float.

Definition fdiv : float -> float -> float := SFdiv 53 1024.
Definition fmul : float -> float -> float := SFmul 53 1024.
Definition fadd : float -> float -> float := SFadd 53 1024.
Definition fsub : float -> float -> float := SFsub 53 1024.
Definition feqb : float -> float -> bool := SFeqb.
Definition fltb : float -> float -> bool := SFltb.

(** The float nearest to [m * 2^e]. *)
Definition mkfloat (m e : Z) : float := binary_normalize 53 1024 m e false.

Definition fzero : float := S754_zero false.
Definition f100 : float := Eval vm_compute in mkfloat 100 0.

Definition isnan (x : float) : bool :=
  match x with S754_nan => true | _ => false end.

Definition isfinite (x : float) : bool :=
  match x with S754_zero _ | S754_finite _ _ _ => true | _ => false end.

(** *** Fixed-point presentation: [format(x, '.pf')]

    CPython prints the decimal expansion of the exact binary value, rounded
    to [p] places with ties to even; a negative sign is kept when the
    rounded value is zero; [nan] and [inf] are printed as words. *)

Definition round_half_even (num den : Z) : Z :=
  let q := num / den in
  match (2 * (num mod den)) ?= den with
  | Lt => q
  | Gt => q + 1
  | Eq => if Z.even q then q else q + 1
  end.

(** [|x| * 10^p] rounded to an integer, for [|x| = m * 2^e]. *)
Definition scaled (p : nat) (m : positive) (e : Z) : Z :=
  if 0 <=? e then Zpos m * 2 ^ e * 10 ^ Z.of_nat p
  else round_half_even (Zpos m * 10 ^ Z.of_nat p) (2 ^ (- e)).

Definition digit (d : Z) : char := Z.to_N (48 + d mod 10).

(** The [k] low decimal digits of [n], most significant first. *)
Fixpoint digitsN (k : nat) (n : Z) : str :=
  match k with
  | O => []
  | S k' => digitsN k' (n / 10) ++ [digit n]
  end.

Fixpoint digits_fuel (fuel : nat) (n : Z) (acc : str) : str :=
  match fuel with
  | O => acc
  | S fuel' =>
      if n <? 10 then digit n :: acc
      else digits_fuel fuel' (n / 10) (digit n :: acc)
  end.

(** Decimal digits of [n >= 0] without leading zeros ("0" for zero). *)
Definition digits (n : Z) : str :=
  digits_fuel (S (Z.to_nat (Z.log2 n))) n [].

Definition sign_str (s : bool) : str := if s then lit "-" else [].

Definition fixed_point (p : nat) (s : bool) (q : Z) : str :=
  let ip := digits (q / 10 ^ Z.of_nat p) in
  match p with
  | O => sign_str s ++ ip
  | _ => sign_str s ++ ip ++ lit "." ++ digitsN p (q mod 10 ^ Z.of_nat p)
  end.

Definition format_f (p : nat) (x : float) : str :=
  match x with
  | S754_nan => lit "nan"
  | S754_infinity s => sign_str s ++ lit "inf"
  | S754_zero s => fixed_point p s 0
  | S754_finite s m e => fixed_point p s (scaled p m e)
  end.

(** ** Exceptions and results *)

Inductive exn :=
  | KeyError (k : str)
  | IndexError
  | TypeError
  | ValueError
  | UnicodeEncodeError
  | RRuntimeError
  | RuntimeError
  | FileNotFoundError
  | FileExistsError
  | PermissionError.

Inductive result (A : Type) :=
  | Ok (a : A)
  | Raise (e : exn).
Arguments Ok {A} a.
Arguments Raise {A} e.

Definition rbind {A B} (r : result A) (k : A -> result B) : result B :=
  match r with
  | Ok a => k a
  | Raise e => Raise e
  end.

Notation "x <- r ;; k" := (rbind r (fun x => k))
  (at level 100, r at next level, right associativity).

Fixpoint rmapM {A B} (f : A -> result B) (l : list A) : result (list B) :=
  match l with
  | [] => Ok []
  | a :: l' => b <- f a;; bs <- rmapM f l';; Ok (b :: bs)
  end.

(** ** DataFrames *)

(** A cell holds a Python [str] or a float. *)
Inductive cell :=
  | CStr (s : str)
  | CNum (x : float).

Abbreviation Series := (list cell).

(** A frame with a positional index [0 .. nrows-1] and named columns, in
    column order. *)
Record DataFrame := mkDF {
  nrows : nat;
  columns : list (str * Series)
}.

#[global] Instance float_eq_dec : EqDecision float.
Proof. unfold float. solve_decision. Defined.

#[global] Instance cell_eq_dec : EqDecision cell.
Proof. solve_decision. Defined.

Fixpoint assoc {V} (k : str) (l : list (str * V)) : option V :=
  match l with
  | [] => None
  | (k', v) :: l' => if decide (k' = k) then Some v else assoc k l'
  end.

(** [df[name]] *)
Definition getcol (df : DataFrame) (name : str) : result Series :=
  match assoc name (columns df) with
  | Some c => Ok c
  | None => Raise (KeyError name)
  end.

Fixpoint assoc_set {V} (k : str) (v : V) (l : list (str * V)) : list (str * V) :=
  match l with
  | [] => [(k, v)]
  | (k', v') :: l' =>
      if decide (k' = k) then (k, v) :: l' else (k', v') :: assoc_set k v l'
  end.

(** [df[name] = col]: replaces the column of that name, or appends it. *)
Definition setcol (df : DataFrame) (name : str) (col : Series) : DataFrame :=
  mkDF (nrows df) (assoc_set name col (columns df)).

(** A row as seen by [apply(axis=1)] and [iterrows]: [row[name]]. *)
Definition row := str -> result cell.

Definition getrow (df : DataFrame) (i : nat) : row :=
  fun name =>
    match assoc name (columns df) with
    | Some c => match c !! i with
                | Some v => Ok v
                | None => Raise IndexError
                end
    | None => Raise (KeyError name)
    end.

(** [df.iterrows()] *)
Definition iterrows (df : DataFrame) : list row :=
  List.map (getrow df) (seq 0 (nrows df)).

(** [x != 0] *)
Definition cell_ne_zero (c : cell) : bool :=
  match c with
  | CNum x => negb (feqb x fzero)
  | CStr _ => true
  end.

(** [a / b] *)
Definition cell_truediv (a b : cell) : result cell :=
  match a, b with
  | CNum x, CNum y => Ok (CNum (fdiv x y))
  | _, _ => Raise TypeError
  end.

(** [a * 100] *)
Definition cell_times_100 (a : cell) : result cell :=
  match a with
  | CNum x => Ok (CNum (fmul x f100))
  | CStr s => Ok (CStr (List.concat (repeat s 100)))
  end.

(** [a > 0] inside a column comparison. *)
Definition cell_gt_zero (a : cell) : result bool :=
  match a with
  | CNum x => Ok (fltb fzero x)
  | CStr _ => Raise TypeError
  end.

(** ** Z-score derivation (gui.py line 155) *)

(** [lambda row: row['weight'] / row['se'] if row['se'] != 0 else 0].  The
    integer [0] of the else branch ends up in a numeric column next to
    floats; it is the float zero here. *)
Definition zscore_lambda (r : row) : result cell :=
  se <- r (lit "se");;
  if cell_ne_zero se then
    w <- r (lit "weight");;
    se' <- r (lit "se");;
    cell_truediv w se'
  else Ok (CNum fzero).

(** What [df.apply(f, axis=1)] returns: a Series with one value per row, or,
    for a frame without rows, a copy of the frame. *)
Inductive applied :=
  | ASeries (s : Series)
  | AFrame (df : DataFrame).

Definition apply_axis1 (f : row -> result cell) (df : DataFrame) : result applied :=
  match nrows df with
  | O => Ok (AFrame df)
  | _ => s <- rmapM f (iterrows df);; Ok (ASeries s)
  end.

(** [df[name] = value]: a frame on the right-hand side must have exactly one
    column. *)
Definition setitem (df : DataFrame) (name : str) (v : applied) : result DataFrame :=
  match v with
  | ASeries s => Ok (setcol df name s)
  | AFrame d =>
      match columns d with
      | [(_, c)] => Ok (setcol df name c)
      | _ => Raise ValueError
      end
  end.

(** [weights['zscore'] = weights.apply(..., axis=1)], as a function from the
    frame before the statement to the frame after it. *)
Definition derive_zscore (weights : DataFrame) : result DataFrame :=
  z <- apply_axis1 zscore_lambda weights;;
  setitem weights (lit "zscore") z.

(** ** Chart input (gui.py lines 159-164) *)

Fixpoint mask_filter {A} (mask : list bool) (l : list A) : list A :=
  match mask, l with
  | b :: mask', a :: l' => if b then a :: mask_filter mask' l' else mask_filter mask' l'
  | _, _ => []
  end.

(** [df[mask]]: a new frame with the rows whose mask entry is true. *)
Definition getitem_mask (df : DataFrame) (mask : list bool) : DataFrame :=
  mkDF (length (mask_filter mask (seq 0 (nrows df))))
       (List.map (fun '(n, c) => (n, mask_filter mask c)) (columns df)).

(** [weights[weights['weight'] > 0]] *)
Definition plot_data (weights : DataFrame) : result DataFrame :=
  w <- getcol weights (lit "weight");;
  mask <- rmapM cell_gt_zero w;;
  Ok (getitem_mask weights mask).

(** The data handed to [ax.pie]: wedge sizes and their labels. *)
Record Pie := mkPie {
  pie_x : Series;
  pie_labels : Series
}.

(** [ax.pie(plot_data['weight'], labels=plot_data['left'], ...)]: only the
    data of the chart is modelled, not its drawing. *)
Definition pie_of (weights : DataFrame) : result Pie :=
  pd <- plot_data weights;;
  x <- getcol pd (lit "weight");;
  l <- getcol pd (lit "left");;
  Ok (mkPie x l).

(** ** Export table (gui.py lines 190-198) *)

(** Python's order on [str]: lexicographic on code points. *)
Fixpoint str_compare (a b : str) : comparison :=
  match a, b with
  | [], [] => Eq
  | [], _ :: _ => Lt
  | _ :: _, [] => Gt
  | x :: a', y :: b' =>
      match (x ?= y)%N with
      | Eq => str_compare a' b'
      | c => c
      end
  end.

Fixpoint insert_uniq (x : str) (l : list str) : list str :=
  match l with
  | [] => [x]
  | y :: l' =>
      match str_compare x y with
      | Lt => x :: l
      | Eq => l
      | Gt => y :: insert_uniq x l'
      end
  end.

(** The distinct labels of a key column in increasing order, as [groupby]
    with [sort=True] lays them out. *)
Definition sort_uniq (l : list str) : list str := foldr insert_uniq [] l.

(** The float of a row count. *)
Definition float_of_nat (n : nat) : float := mkfloat (Z.of_nat n) 0.

(** One step of pandas' [group_mean] accumulation (Kahan summation): a NaN
    observation is skipped; a NaN compensation (after an infinity) is reset
    to zero. *)
Definition mean_step (acc : float * float * nat) (val : float) : float * float * nat :=
  let '(sumx, comp, nobs) := acc in
  if isnan val then acc
  else
    let y := fsub val comp in
    let t := fadd sumx y in
    let c := fsub (fsub t sumx) y in
    (t, (if isnan c then fzero else c), S nobs).

(** The [mean] aggregate of one group: NaN when the group has no
    observation that is not NaN. *)
Definition group_mean (vals : list float) : float :=
  let '(sumx, _, nobs) := fold_left mean_step vals (fzero, fzero, O) in
  match nobs with
  | O => S754_nan
  | _ => fdiv sumx (float_of_nat nobs)
  end.

Definition as_str (c : cell) : result str :=
  match c with
  | CStr s => Ok s
  | CNum _ => Raise TypeError
  end.

Definition as_num (c : cell) : result float :=
  match c with
  | CNum x => Ok x
  | CStr _ => Raise TypeError
  end.

(** The rows of a frame restricted to an index key, a column key and a
    value column.  The keys are population labels, which R hands over as
    strings, and [mean] needs numeric values: a frame with other cells in
    these columns is outside the model and is treated as an error. *)
Definition key_rows (df : DataFrame) (index cols values : str)
  : result (list (str * str * float)) :=
  v <- getcol df values;;
  i <- getcol df index;;
  c <- getcol df cols;;
  i' <- rmapM as_str i;;
  c' <- rmapM as_str c;;
  v' <- rmapM as_num v;;
  Ok (zip (zip i' c') v').

(** The values of the rows with index key [t] and column key [s], in row
    order. *)
Definition group_values (rows : list (str * str * float)) (t s : str) : list float :=
  List.map snd
    (List.filter (fun r => bool_decide (r.1.1 = t) && bool_decide (r.1.2 = s)) rows).

Definition pivot_cell (rows : list (str * str * float)) (t s : str) : float :=
  group_mean (group_values rows t s).

(** A frame indexed by labels: the result of [pivot_table] and of
    [concat]. *)
Record Table := mkTable {
  t_index : list str;
  t_columns : list (str * list float)
}.

(** The groups that survive [dropna]: the rows whose group mean is not
    NaN. *)
Definition kept_rows (rows : list (str * str * float)) : list (str * str * float) :=
  List.filter (fun r => negb (isnan (pivot_cell rows r.1.1 r.1.2))) rows.

Definition pivot_index (rows : list (str * str * float)) : list str :=
  sort_uniq (List.map (fun r => r.1.1) (kept_rows rows)).

Definition pivot_labels (rows : list (str * str * float)) : list str :=
  sort_uniq (List.map (fun r => r.1.2) (kept_rows rows)).

(** [df.pivot_table(index=i, columns=c, values=v)] with the defaults
    [aggfunc='mean'], [dropna=True], [sort=True].

    pandas groups the rows by the two keys, takes the mean of each group,
    drops the groups whose mean is NaN, and unstacks the column key: one row
    per remaining index label and one column per remaining column label,
    both in increasing order; a cell without a group is NaN. *)
Definition pivot_of_rows (rows : list (str * str * float)) : Table :=
  let idx := pivot_index rows in
  mkTable idx
    (List.map (fun s => (s, List.map (fun t => pivot_cell rows t s) idx))
       (pivot_labels rows)).

Definition pivot_table (df : DataFrame) (index cols values : str) : result Table :=
  rows <- key_rows df index cols values;;
  Ok (pivot_of_rows rows).

(** [t.add_suffix(sfx)] *)
Definition add_suffix (sfx : str) (t : Table) : Table :=
  mkTable (t_index t) (List.map (fun '(n, c) => (n ++ sfx, c)) (t_columns t)).

(** Union of index labels in order of first appearance. *)
Definition union_index (idxs : list (list str)) : list str :=
  fold_left (fun acc i =>
               acc ++ List.filter (fun x => negb (bool_decide (x ∈ acc))) (remove_dups i))
            idxs [].

(** The position of the first occurrence of a label. *)
Fixpoint index_of {A} `{EqDecision A} (x : A) (l : list A) : option nat :=
  match l with
  | [] => None
  | y :: l' => if decide (y = x) then Some O else S <$> index_of x l'
  end.

(** A column re-laid on a new index; labels the table lacks give NaN. *)
Definition reindex (new : list str) (old : list str) (c : list float) : list float :=
  List.map (fun x => match index_of x old with
                     | Some i => default S754_nan (c !! i)
                     | None => S754_nan
                     end) new.

(** [pd.concat(ts, axis=1)]: outer join on the index, columns side by
    side in the order of [ts]. *)
Definition concat_axis1 (ts : list Table) : Table :=
  let idx := match ts with
             | [] => []
             | t0 :: rest =>
                 if forallb (fun t => bool_decide (t_index t = t_index t0)) rest
                 then t_index t0
                 else union_index (List.map t_index ts)
             end in
  mkTable idx
    (List.flat_map
       (fun t => List.map (fun '(n, c) => (n, reindex idx (t_index t) c)) (t_columns t))
       ts).

(** [t.reset_index()] for a table whose index is named [name]: the index
    becomes the first column, unless a column already has that name. *)
Definition reset_index (name : str) (t : Table) : result DataFrame :=
  if bool_decide (name ∈ List.map fst (t_columns t)) then Raise ValueError
  else Ok (mkDF (length (t_index t))
             ((name, List.map CStr (t_index t))
              :: List.map (fun '(n, c) => (n, List.map CNum c)) (t_columns t))).

(** [s.iloc[0]] *)
Definition iloc0 (s : Series) : result cell :=
  match s with
  | v :: _ => Ok v
  | [] => Raise IndexError
  end.

(** [df[name] = scalar] *)
Definition setcol_scalar (df : DataFrame) (name : str) (v : cell) : DataFrame :=
  setcol df name (repeat v (nrows df)).

(** The frame built by [convert_df_to_csv] before it is written out. *)
Definition export_frame (df_weights df_rankdrop : DataFrame) : result DataFrame :=
  w <- pivot_table df_weights (lit "target") (lit "left") (lit "weight");;
  let df_w := add_suffix (lit "_weight") w in
  s <- pivot_table df_weights (lit "target") (lit "left") (lit "se");;
  let df_s := add_suffix (lit "_se") s in
  z <- pivot_table df_weights (lit "target") (lit "left") (lit "zscore");;
  let df_z := add_suffix (lit "_zscore") z in
  df <- reset_index (lit "target") (concat_axis1 [df_w; df_s; df_z]);;
  pc <- getcol df_rankdrop (lit "p");;
  p <- iloc0 pc;;
  let df := setcol_scalar df (lit "p-value") p in
  xc <- getcol df_rankdrop (lit "chisq");;
  x <- iloc0 xc;;
  Ok (setcol_scalar df (lit "x2") x).

(** ** UTF-8 *)

Definition byte_of_N (n : N) : Byte.byte := default Byte.x00 (Byte.of_N n).

(** UTF-8 of one code point; surrogates cannot be encoded. *)
Definition utf8_char (c : char) : result (list Byte.byte) :=
  (if c <? 128 then Ok [byte_of_N c]
   else if c <? 2048 then
     Ok [byte_of_N (192 + c / 64); byte_of_N (128 + c mod 64)]
   else if c <? 65536 then
     if (55296 <=? c) && (c <=? 57343) then Raise UnicodeEncodeError
     else Ok [byte_of_N (224 + c / 4096);
              byte_of_N (128 + (c / 64) mod 64);
              byte_of_N (128 + c mod 64)]
   else if c <? 1114112 then
     Ok [byte_of_N (240 + c / 262144);
         byte_of_N (128 + (c / 4096) mod 64);
         byte_of_N (128 + (c / 64) mod 64);
         byte_of_N (128 + c mod 64)]
   else Raise UnicodeEncodeError)%N.

(** [s.encode('utf-8')] *)
Definition encode_utf8 (s : str) : result (list Byte.byte) :=
  bs <- rmapM utf8_char s;; Ok (List.concat bs).

(** The payload of a continuation byte. *)
Definition continuation (b : Byte.byte) : option N :=
  let n := Byte.to_N b in
  if ((128 <=? n) && (n <? 192))%N then Some (n - 128)%N else None.

(** [bs.decode('utf-8')], [None] standing for UnicodeDecodeError.  A
    sequence is refused when it is cut short, when a continuation byte is
    missing, and when it is not the shortest form of its code point, stands
    for a surrogate or lies above U+10FFFF. *)
Fixpoint decode_utf8 (bs : list Byte.byte) : option str :=
  match bs with
  | [] => Some []
  | b0 :: rest =>
      let n := Byte.to_N b0 in
      if (n <? 128)%N then
        match decode_utf8 rest with Some s => Some (n :: s) | None => None end
      else if (n <? 192)%N then None
      else if (n <? 224)%N then
        match rest with
        | b1 :: rest' =>
            match continuation b1, decode_utf8 rest' with
            | Some c1, Some s =>
                let c := ((n - 192) * 64 + c1)%N in
                if (128 <=? c)%N then Some (c :: s) else None
            | _, _ => None
            end
        | _ => None
        end
      else if (n <? 240)%N then
        match rest with
        | b1 :: b2 :: rest' =>
            match continuation b1, continuation b2, decode_utf8 rest' with
            | Some c1, Some c2, Some s =>
                let c := ((n - 224) * 4096 + c1 * 64 + c2)%N in
                if (2048 <=? c)%N && negb ((55296 <=? c) && (c <=? 57343))%N
                then Some (c :: s) else None
            | _, _, _ => None
            end
        | _ => None
        end
      else if (n <? 248)%N then
        match rest with
        | b1 :: b2 :: b3 :: rest' =>
            match continuation b1, continuation b2, continuation b3,
                  decode_utf8 rest' with
            | Some c1, Some c2, Some c3, Some s =>
                let c := ((n - 240) * 262144 + c1 * 4096 + c2 * 64 + c3)%N in
                if (65536 <=? c)%N && (c <? 1114112)%N
                then Some (c :: s) else None
            | _, _, _, _ => None
            end
        | _ => None
        end
      else None
  end.

(** What reading a file in text mode does to line ends (universal
    newlines): a carriage return, with the line feed that follows it if
    there is one, is read as one line feed. *)
Fixpoint universal_newlines (s : str) : str :=
  match s with
  | [] => []
  | c :: s' =>
      if (c =? 13)%N then
        10%N :: match s' with
                | d :: s'' =>
                    if (d =? 10)%N then universal_newlines s''
                    else universal_newlines s'
                | [] => []
                end
      else c :: universal_newlines s'
  end.

(** ** The embedded R interpreter, the page and the world *)

Inductive rcall :=
  | RAssign (name value : str)      (* r.assign(name, value) *)
  | REval (code : str)              (* r(code) *)
  | RGetItem (name : str).          (* r[name] *)

(** What a call hands back to Python: nothing of interest, a named list
    whose entries are [None] or a data frame, or an exception. *)
Inductive rreply :=
  | RDone
  | RList (items : list (str * option DataFrame))
  | RFails.

(** The figure handed to [st.pyplot]: the pie, the statistics text placed
    under it and the title. *)
Record Figure := mkFigure {
  fig_pie : Pie;
  fig_text : str;
  fig_suptitle : str
}.

(** The elements the script writes to the page, named after the Streamlit
    calls.  The two [st.info] lines that print a list keep the list as it
    is; the side bar and the input widgets are not part of the page
    modelled here. *)
Inductive element :=
  | st_error (msg : str)
  | st_error_exn (msg : str) (e : exn)
  | st_info (msg : str)
  | st_info_list (caption : str) (pops : list str)
  | st_success (msg : str)
  | st_header (msg : str)
  | st_pyplot (fig : Figure)
  | st_download_button (label : str) (data : list Byte.byte) (file_name mime : str)
  | st_balloons
  | st_exception (e : exn).

Definition loc := nat.

(** The mutable world: the calls made to R, the frames allocated so far,
    and the elements written to the page. *)
Record world := mkWorld {
  rlog : list rcall;
  heap : list DataFrame;
  page : list element
}.

Definition M (A : Type) := world -> result A * world.

Definition ret {A} (a : A) : M A := fun w => (Ok a, w).
Definition raise {A} (e : exn) : M A := fun w => (Raise e, w).
Definition bind {A B} (m : M A) (k : A -> M B) : M B :=
  fun w => match m w with
           | (Ok a, w') => k a w'
           | (Raise e, w') => (Raise e, w')
           end.
Definition lift {A} (r : result A) : M A := fun w => (r, w).

(** [try: body except Exception as e: handler(e)] *)
Definition try_except {A} (body : M A) (handler : exn -> M A) : M A :=
  fun w => match body w with
           | (Ok a, w') => (Ok a, w')
           | (Raise e, w') => handler e w'
           end.

Notation "'let*' x := m 'in' k" := (bind m (fun x => k))
  (at level 10, x name, m at level 100, k at level 200).
Notation "m ;;; k" := (bind m (fun _ => k))
  (at level 100, right associativity).

Definition emit (e : element) : M unit :=
  fun w => (Ok tt, mkWorld (rlog w) (heap w) (page w ++ [e])).

Definition alloc (df : DataFrame) : M loc :=
  fun w => (Ok (length (heap w)), mkWorld (rlog w) (heap w ++ [df]) (page w)).

Definition load (l : loc) : M DataFrame :=
  fun w => match heap w !! l with
           | Some df => (Ok df, w)
           | None => (Raise ValueError, w)
           end.

Definition store (l : loc) (df : DataFrame) : M unit :=
  fun w => (Ok tt, mkWorld (rlog w) (<[l := df]> (heap w)) (page w)).

(** Conversion of a named R list: every data frame becomes a fresh pandas
    object. *)
Fixpoint convert_items (items : list (str * option DataFrame))
  : M (list (str * option loc)) :=
  match items with
  | [] => ret []
  | (n, None) :: rest =>
      let* rest' := convert_items rest in ret ((n, None) :: rest')
  | (n, Some df) :: rest =>
      let* l := alloc df in
      let* rest' := convert_items rest in ret ((n, Some l) :: rest')
  end.

(** ** The script, over its environment *)

Section Script.

(** [repr] of a float, as used when a float is formatted without a
    presentation type and when pandas writes a float cell: the shortest
    decimal string that reads back as the same float.  The pipeline never
    inspects its digits; it is a parameter of the model. *)
Variable float_repr : float -> str.

(** The host's line terminator ([os.linesep]). *)
Variable linesep : str.

(** The interpreter, as a function of the calls made so far (the last one
    being the current call). *)
Variable R : list rcall -> rreply.

(** [f"{v:.4f}"] *)
Definition format_4f (v : cell) : result str :=
  match v with
  | CNum x => Ok (format_f 4 x)
  | CStr _ => Raise ValueError
  end.

(** [f"{v:>w.2f}"] *)
Definition format_2f (w : nat) (v : cell) : result str :=
  match v with
  | CNum x => Ok (rjust w (format_f 2 x))
  | CStr _ => Raise ValueError
  end.

(** [f"{v:<40}"] *)
Definition format_left40 (v : cell) : str :=
  match v with
  | CStr s => ljust 40 s
  | CNum x => ljust 40 (float_repr x)
  end.

Definition nl : str := [10%N].
Definition dashes : str := repeat 45%N 60 ++ nl.
Definition chi_squared : str := [967%N; 178%N].

(** The heading built at lines 168-173. *)
Definition stats_head (pValue x2 : cell) : result str :=
  p <- format_4f pValue;;
  x <- format_4f x2;;
  Ok (lit "P-Value: " ++ p ++ nl
      ++ chi_squared ++ lit ": " ++ x ++ nl
      ++ dashes
      ++ ljust 40 (lit "Source") ++ lit " | " ++ rjust 7 (lit "SE (%)")
         ++ lit " | " ++ rjust 7 (lit "Z-score") ++ nl
      ++ dashes).

(** One pass of the loop at lines 175-177. *)
Definition stats_line (r : row) : result str :=
  se <- r (lit "se");;
  se_percent <- cell_times_100 se;;
  name <- r (lit "left");;
  sp <- format_2f 6 se_percent;;
  z <- r (lit "zscore");;
  zs <- format_2f 7 z;;
  Ok (format_left40 name ++ lit " | " ++ sp ++ lit "% | " ++ zs ++ nl).

Definition stats_text (weights : DataFrame) (pValue x2 : cell) : result str :=
  h <- stats_head pValue x2;;
  ls <- rmapM stats_line (iterrows weights);;
  Ok (h ++ List.concat ls).


(** *** Writing the export frame: [df.to_csv(index=False).encode('utf-8')] *)

Definition comma : char := 44%N.
Definition dquote : char := 34%N.
Definition backslash : char := 92%N.

(** The csv writer quotes a field that holds the delimiter, the quote
    character or a character of the line terminator, doubling quotes. *)
Definition csv_special (c : char) : bool :=
  (c =? comma)%N || (c =? dquote)%N || existsb (N.eqb c) linesep.

Definition csv_field (s : str) : str :=
  if existsb csv_special s
  then [dquote] ++ replace dquote [dquote; dquote] s ++ [dquote]
  else s.

Definition csv_line (fields : list str) : str :=
  join [comma] (List.map csv_field fields) ++ linesep.

(** A missing value (NaN) is written as the empty field. *)
Definition cell_text (c : cell) : str :=
  match c with
  | CStr s => s
  | CNum x => if isnan x then [] else float_repr x
  end.

Definition csv_row (df : DataFrame) (i : nat) : list str :=
  List.map (fun '(_, c) => cell_text (default (CStr []) (c !! i))) (columns df).

Definition to_csv (df : DataFrame) : str :=
  csv_line (List.map fst (columns df))
  ++ List.concat (List.map (fun i => csv_line (csv_row df i)) (seq 0 (nrows df))).

(** [convert_df_to_csv(df_weights, df_rankdrop)].  The [st.cache_data]
    decorator only memoises this function of its arguments. *)
Definition convert_df_to_csv (df_weights df_rankdrop : DataFrame)
  : result (list Byte.byte) :=
  df <- export_frame df_weights df_rankdrop;;
  encode_utf8 (to_csv df).

(** *** The embedded R interpreter *)

Definition r_call (c : rcall) : M rreply :=
  fun w =>
    let log := rlog w ++ [c] in
    let w' := mkWorld log (heap w) (page w) in
    match R log with
    | RFails => (Raise RRuntimeError, w')
    | rep => (Ok rep, w')
    end.

(** [r[name]] *)
Definition r_getitem (name : str) : M (list (str * option loc)) :=
  let* rep := r_call (RGetItem name) in
  match rep with
  | RList items => convert_items items
  | _ => raise TypeError
  end.

(** [result[key]] *)
Definition item (result : list (str * option loc)) (key : str) : M (option loc) :=
  match assoc key result with
  | Some v => ret v
  | None => raise (KeyError key)
  end.

(** [obj[name]] where [obj] may be [None]. *)
Definition column_of (obj : option loc) (name : str) : M Series :=
  match obj with
  | Some l => let* df := load l in lift (getcol df name)
  | None => raise TypeError
  end.

(** *** The analysis (gui.py lines 120-211) *)

(** Truth value of a Python string and of a list. *)
Definition truthy {A} (l : list A) : bool :=
  match l with [] => false | _ => true end.

(** [f'"{pop.replace('"', '\\"')}"'] *)
Definition r_quote (pop : str) : str :=
  [dquote] ++ replace dquote [backslash; dquote] pop ++ [dquote].

(** [", ".join([... for pop in pops])] *)
Definition r_vector (pops : list str) : str :=
  join (lit ", ") (List.map r_quote pops).

Definition qpadm_code : str :=
  lit "results=qpadm(data=prefix, left=left, right=right, target=target, allsnps=TRUE)".

(** [obj] used as a frame. *)
Definition frame_of (obj : option loc) : M DataFrame :=
  match obj with
  | Some l => load l
  | None => raise TypeError
  end.

(** Line 155 on the object [weights] refers to: the column is computed from
    the frame and then assigned into that same frame. *)
Definition derive_step (weights : loc) : M unit :=
  let* w0 := load weights in
  let* w1 := lift (derive_zscore w0) in
  store weights w1.

(** Lines 150-207: the branch taken when [weights] is not [None]. *)
Definition report (target_name : str) (weights : loc) (rankdrop : option loc) : M unit :=
  emit (st_success (lit "Analysis complete!"));;;
  emit (st_header (lit "3. Analysis Result"));;;
  let* pc := column_of rankdrop (lit "p") in
  let* pValue := lift (iloc0 pc) in
  let* xc := column_of rankdrop (lit "chisq") in
  let* x2 := lift (iloc0 xc) in
  derive_step weights;;;
  let* w := load weights in
  let* pie := lift (pie_of w) in
  let* text := lift (stats_text w pValue x2) in
  emit (st_pyplot (mkFigure pie text (lit "Target: " ++ target_name)));;;
  let* w := load weights in
  let* rd := frame_of rankdrop in
  let* csv := lift (convert_df_to_csv w rd) in
  emit (st_download_button (lit "Download full result as CSV") csv
          (lit "results_" ++ target_name ++ lit ".csv") (lit "text/csv"));;;
  emit st_balloons.

(** Lines 133-207: the body of the [try]. *)
Definition analysis (prefix_path target_name : str) (left_pops right_pops : list str)
  : M unit :=
  r_call (RAssign (lit "prefix") prefix_path);;;
  r_call (RAssign (lit "target") target_name);;;
  let r_vector_left := r_vector left_pops in
  r_call (REval (lit "left = c(" ++ r_vector_left ++ lit ")"));;;
  let r_vector_right := r_vector right_pops in
  r_call (REval (lit "right = c(" ++ r_vector_right ++ lit ")"));;;
  r_call (REval qpadm_code);;;
  let* result := r_getitem (lit "results") in
  let* weights := item result (lit "weights") in
  let* rankdrop := item result (lit "rankdrop") in
  match weights with
  | None => emit (st_error (lit "Analysis failed. No feasible model was found."))
  | Some w => report target_name w rankdrop
  end.

(** The session state of the page: the one key the script uses, absent
    until the start-up block has run. *)
Record session_state := mkSession {
  r_env_setup_minimal : option bool
}.

(** [st.session_state.get('r_env_setup_minimal')] as a truth value. *)
Definition env_ready (ss : session_state) : bool :=
  match r_env_setup_minimal ss with
  | Some true => true
  | _ => false
  end.

Definition prefix_defined (prefix_path : option str) : bool :=
  match prefix_path with
  | Some p => truthy p
  | None => false
  end.

(** What the "Start qpAdm Analysis" button does (lines 121-211). *)
Definition start_analysis (ss : session_state) (prefix_path : option str)
    (target_name : str) (left_pops right_pops : list str) : M unit :=
  if negb (env_ready ss) then
    emit (st_error (lit "R environment could not be initialized. Please restart the application."))
  else if negb (prefix_defined prefix_path) then
    emit (st_error (lit "Prefix path not defined in `config.txt`."))
  else if negb (truthy target_name) || negb (truthy left_pops) || negb (truthy right_pops) then
    emit (st_error (lit "ERROR: Please define the Target, Left list, and Right list."))
  else
    emit (st_info (lit "Target: " ++ target_name));;;
    emit (st_info_list (lit "Sources (Left): ") left_pops);;;
    emit (st_info_list (lit "Outgroups (Right): ") right_pops);;;
    try_except
      (analysis (default [] prefix_path) target_name left_pops right_pops)
      (fun e =>
         emit (st_error (lit "A critical error occurred during execution."));;;
         emit (st_exception e)).

(** *** Files and widgets (gui.py lines 21-117) *)

Definition colon : char := 58%N.

(** The body of the loop of [load_predefined_lists]. *)
Definition predefined_line (lists : gmap str (list str)) (line : str)
  : gmap str (list str) :=
  let line := strip line in
  if truthy line && contains colon line then
    match split1 colon line with
    | (name, Some pops_str) =>
        let pops := List.map strip (split comma (strip pops_str)) in
        <[strip name := pops]> lists
    | (_, None) => lists
    end
  else lists.

(** [load_predefined_lists(filename)]; the file is given by its lines, or
    is absent. *)
Definition load_predefined_lists (file : option (list str)) : gmap str (list str) :=
  match file with
  | Some lines => fold_left predefined_line lines ∅
  | None => ∅
  end.

Definition config_line (config : gmap str str) (line : str) : gmap str str :=
  let line := strip line in
  if truthy line && contains colon line then
    match split1 colon line with
    | (key, Some value) => <[strip key := strip value]> config
    | (_, None) => config
    end
  else config.

(** [load_config(filename)] *)
Definition load_config (file : option (list str)) : gmap str str :=
  match file with
  | Some lines => fold_left config_line lines ∅
  | None => ∅
  end.

(** What the script finds on the host at one run: the lines of the three
    text files ([None] when the file does not exist), and what lines 10-11
    do there: [Path.home() / "streamlit_r_temp"] followed by
    [mkdir(exist_ok=True)] gives the path of the directory, or raises
    ([RuntimeError] when the home directory cannot be determined, an
    [OSError] subclass when the directory cannot be made).  Line 12 stores
    the path in the environment of the process, which the script never
    reads again. *)
Record files := mkFiles {
  config_txt : option (list str);
  left_list_txt : option (list str);
  right_list_txt : option (list str);
  temp_dir : result str
}.

Inductive choice := UsePredefined | EnterManually.

(** The widgets of one column: the radio, the select box (one of the
    predefined names, when shown) and the text area. *)
Record side := mkSide {
  radio : choice;
  selectbox : option str;
  text_area : str
}.

Record widgets := mkWidgets {
  target_input : str;
  left_side : side;
  right_side : side;
  start_button : bool
}.

(** Lines 94-102 and 109-117. *)
Definition pops_of (predefined : gmap str (list str)) (s : side) : list str :=
  match radio s with
  | UsePredefined =>
      match selectbox s with
      | Some name => if truthy name then default [] (predefined !! name) else []
      | None => []
      end
  | EnterManually =>
      if truthy (text_area s)
      then List.filter truthy (List.map strip (split 10%N (text_area s)))
      else []
  end.

(** Lines 9-19: runs once per session, when the key is not yet set.
    Lines 10-12 stand before the [try]: an exception of [Path.home()] or of
    [mkdir] is not caught there, it ends the run with the key still unset.
    Only the two library loads are guarded; their failure is written with
    the text of the exception (line 18) and recorded as [False]. *)
Definition startup (fs : files) (ss : session_state) : M session_state :=
  match r_env_setup_minimal ss with
  | Some _ => ret ss
  | None =>
      let* tmpdir := lift (temp_dir fs) in
      try_except
        (r_call (REval (lit "library(admixtools)"));;;
         r_call (REval (lit "library(tidyverse)"));;;
         ret (mkSession (Some true)))
        (fun e =>
           emit (st_error_exn (lit "Failed to load R libraries on startup: ") e);;;
           ret (mkSession (Some false)))
  end.

(** One execution of the script. *)
Definition script (fs : files) (ws : widgets) (ss : session_state) : M session_state :=
  let* ss := startup fs ss in
  let config := load_config (config_txt fs) in
  let prefix_path := config !! lit "prefix" in
  let predefined_left := load_predefined_lists (left_list_txt fs) in
  let predefined_right := load_predefined_lists (right_list_txt fs) in
  let target_name := target_input ws in
  let left_pops := pops_of predefined_left (left_side ws) in
  let right_pops := pops_of predefined_right (right_side ws) in
  (if start_button ws
   then start_analysis ss prefix_path target_name left_pops right_pops
   else ret tt);;;
  ret ss.

(** A session: the script is run again at every interaction, each time
    drawing a fresh page; the session state, the interpreter and the heap
    persist.  A run that ends with an exception (lines 10-11) has changed
    nothing in the session state.  Returns, for every run, what the script
    wrote on the page. *)
Fixpoint session (runs : list (files * widgets)) (ss : session_state) (w : world)
  : list (list element) * session_state * world :=
  match runs with
  | [] => ([], ss, w)
  | (fs, ws) :: runs' =>
      let '(r, w') := script fs ws ss (mkWorld (rlog w) (heap w) []) in
      let ss' := match r with Ok s => s | Raise _ => ss end in
      let '(pages, ss'', w'') := session runs' ss' w' in
      (page w' :: pages, ss'', w'')
  end.


End Script.

(** ** The widgets of one column, with the lists in file order

    [pops_of] above takes what the radio and the select box hand back as
    given.  Here the two widgets are modelled with their options (lines
    90-99 and 105-113): the dict of predefined lists keeps its keys in the
    order of their first insertion, and that is the order of the select
    box. *)

(** The body of the loop of [load_predefined_lists] on a dict that keeps
    the insertion order of its keys. *)
Definition predefined_entry (lists : list (str * list str)) (line : str)
  : list (str * list str) :=
  let line := strip line in
  if truthy line && contains colon line then
    match split1 colon line with
    | (name, Some pops_str) =>
        let pops := List.map strip (split comma (strip pops_str)) in
        assoc_set (strip name) pops lists
    | (_, None) => lists
    end
  else lists.

Definition predefined_dict (file : option (list str)) : list (str * list str) :=
  match file with
  | Some lines => fold_left predefined_entry lines []
  | None => []
  end.

(** What the user does in a column: the position picked in the radio, the
    position picked in the select box, and the text typed. *)
Record gesture := mkGesture {
  radio_pick : nat;
  select_pick : nat;
  typed : str
}.

(** Lines 90-92. *)
Definition left_options (predefined_left : list (str * list str)) : list str :=
  if truthy predefined_left
  then [lit "Use predefined list"; lit "Enter manually"]
  else [lit "Enter manually"].

(** Lines 93-102.  A widget hands back the option at the picked position
    ([None] for a select box without options); the look-up at line 98
    raises KeyError for a name the dict lacks. *)
Definition column_pops (predefined_left : list (str * list str)) (g : gesture)
  : result (list str) :=
  let left_choice := left_options predefined_left !! radio_pick g in
  if bool_decide (left_choice = Some (lit "Use predefined list")) then
    let selected_list_name := List.map fst predefined_left !! select_pick g in
    match selected_list_name with
    | Some name =>
        if truthy name then
          match assoc name predefined_left with
          | Some pops => Ok pops
          | None => Raise (KeyError name)
          end
        else Ok []
    | None => Ok []
    end
  else
    let left_input := typed g in
    if truthy left_input
    then Ok (List.filter truthy (List.map strip (split 10%N left_input)))
    else Ok [].

(** ** The side bar (gui.py lines 52-83) *)

(** What the file system holds under a path: nothing, something that cannot
    be opened for reading (a directory, a file without read permission), or
    a file with its bytes. *)
Inductive node :=
  | Absent
  | Unreadable
  | File (content : list Byte.byte).

(** What the [try] block of the index file inspector can raise. *)
Inductive read_exn :=
  | OSError
  | UnicodeDecodeError
  | Raised (e : exn).

Inductive attempt (A : Type) :=
  | Done (a : A)
  | Failed (e : read_exn).
Arguments Done {A} a.
Arguments Failed {A} e.

(** The elements written to the side bar.  [sidebar_read_error] is the
    error line that names the file and shows the exception. *)
Inductive sidebar_element :=
  | sidebar_title (s : str)
  | sidebar_info (s : str)
  | sidebar_markdown (s : str)
  | sidebar_subheader (s : str)
  | sidebar_download_button (label : str) (data : list Byte.byte)
      (file_name mime help : str)
  | sidebar_error (msg : str)
  | sidebar_read_error (file_name : str) (e : read_exn)
  | sidebar_warning (msg : str).

Section Sidebar.

(** The file system at the time of the run, and [os.path.basename], which
    depends on the host. *)
Variable disk : str -> node.
Variable basename : str -> str.

(** [os.path.exists(path)] *)
Definition path_exists (path : str) : bool :=
  match disk path with
  | Absent => false
  | _ => true
  end.

(** [open(path, 'r', encoding='utf-8')] followed by [f.read()]. *)
Definition read_text (path : str) : attempt str :=
  match disk path with
  | File content =>
      match decode_utf8 content with
      | Some text => Done (universal_newlines text)
      | None => Failed UnicodeDecodeError
      end
  | _ => Failed OSError
  end.

(** Lines 67-79: the [try] block and its handler. *)
Definition index_file_inspector (actual_file_path : str) : sidebar_element :=
  match read_text actual_file_path with
  | Done file_content =>
      match encode_utf8 file_content with
      | Ok data =>
          sidebar_download_button (lit "Download Index File (.fam/.ind)") data
            (basename actual_file_path) (lit "text/plain")
            (lit "Click to download the index file to view all population names.")
      | Raise e => sidebar_read_error (basename actual_file_path) (Raised e)
      end
  | Failed e => sidebar_read_error (basename actual_file_path) e
  end.

(** Lines 52-83. *)
Definition sidebar (prefix_path : option str) : list sidebar_element :=
  sidebar_title (lit "Configuration")
  :: if prefix_defined prefix_path then
       let prefix_path := default [] prefix_path in
       let fam_path := prefix_path ++ lit ".fam" in
       let ind_path := prefix_path ++ lit ".ind" in
       let actual_file_path :=
         if path_exists fam_path then Some fam_path
         else if path_exists ind_path then Some ind_path
         else None in
       [ sidebar_info (lit "**Dataset Prefix:**" ++ [10%N] ++ lit "`"
                       ++ prefix_path ++ lit "`");
         sidebar_markdown (lit "---");
         sidebar_subheader (lit "Index File Inspector");
         match actual_file_path with
         | Some path =>
             if truthy path then index_file_inspector path
             else sidebar_warning (lit "No index file (.fam or .ind) found.")
         | None => sidebar_warning (lit "No index file (.fam or .ind) found.")
         end ]
     else [ sidebar_error (lit "`config.txt` with a `prefix:` entry not found.") ].

(** The side bar of one execution of the script: the prefix comes from
    [config.txt] (lines 47-48). *)
Definition script_sidebar (fs : files) : list sidebar_element :=
  sidebar (load_config (config_txt fs) !! lit "prefix").

End Sidebar.

(** ** How R reads the vectors it is sent

    The script sends the population names to R as source text,
    [left = c("A", "B")].  R's lexer reads a double-quoted literal up to the
    next unescaped double quote; a backslash starts an escape sequence. *)

(** The character a one-letter escape stands for; [Some None] for the
    numeric escapes (octal, hexadecimal, Unicode), which are not modelled;
    [None] for a character that is no escape, which R rejects. *)
Definition r_escape (c : char) : option (option char) :=
  (if c =? 92 then Some (Some 92)            (* \\ *)
   else if c =? 34 then Some (Some 34)       (* \dquote *)
   else if c =? 39 then Some (Some 39)       (* \' *)
   else if c =? 96 then Some (Some 96)       (* \` *)
   else if c =? 32 then Some (Some 32)       (* \space *)
   else if c =? 110 then Some (Some 10)      (* \n *)
   else if c =? 114 then Some (Some 13)      (* \r *)
   else if c =? 116 then Some (Some 9)       (* \t *)
   else if c =? 97 then Some (Some 7)        (* \a *)
   else if c =? 98 then Some (Some 8)        (* \b *)
   else if c =? 102 then Some (Some 12)      (* \f *)
   else if c =? 118 then Some (Some 11)      (* \v *)
   else if (48 <=? c) && (c <=? 55) then Some None
   else if (c =? 120) || (c =? 117) || (c =? 85) then Some None
   else None)%N.

Inductive lexed :=
  | LString (value rest : str)
  | LBroken
  | LUnmodelled.

Definition lexed_cons (c : char) (l : lexed) : lexed :=
  match l with
  | LString v rest => LString (c :: v) rest
  | other => other
  end.

(** The literal whose opening quote has been read: its value and the text
    after its closing quote. *)
Fixpoint r_string_body (s : str) : lexed :=
  match s with
  | [] => LBroken
  | c :: s' =>
      if (c =? 34)%N then LString [] s'
      else if (c =? 92)%N then
        match s' with
        | [] => LBroken
        | e :: s'' =>
            match r_escape e with
            | Some (Some ch) => lexed_cons ch (r_string_body s'')
            | Some None => LUnmodelled
            | None => LBroken
            end
        end
      else lexed_cons c (r_string_body s')
  end.

(** Blanks between tokens. *)
Fixpoint r_skip (s : str) : str :=
  match s with
  | c :: s' => if ((c =? 32) || (c =? 9) || (c =? 10) || (c =? 12))%N then r_skip s' else s
  | [] => []
  end.

(** What R makes of the text sent for one vector. *)
Inductive reading :=
  | Parsed (names : list str)   (* a call of c on these strings *)
  | Broken                      (* a syntax error *)
  | Other.                      (* some other R code, or not modelled *)

Definition reading_cons (n : str) (r : reading) : reading :=
  match r with
  | Parsed ns => Parsed (n :: ns)
  | other => other
  end.

(** The arguments of [c(] from the first one on, up to the closing
    parenthesis, which must end the text. *)
Fixpoint r_args (fuel : nat) (s : str) : reading :=
  match fuel with
  | O => Other
  | S fuel' =>
      match r_skip s with
      | [] => Broken
      | c :: s' =>
          if (c =? 34)%N then
            match r_string_body s' with
            | LString v rest =>
                match r_skip rest with
                | [] => Broken
                | d :: rest' =>
                    if (d =? 44)%N then reading_cons v (r_args fuel' rest')
                    else if (d =? 41)%N then
                      match r_skip rest' with [] => Parsed [v] | _ => Other end
                    else if (d =? 34)%N then Broken
                    else Other
                end
            | LBroken => Broken
            | LUnmodelled => Other
            end
          else Other
      end
  end.

Fixpoint strip_prefix (pre s : str) : option str :=
  match pre, s with
  | [], _ => Some s
  | a :: pre', b :: s' => if (a =? b)%N then strip_prefix pre' s' else None
  | _ :: _, [] => None
  end.

(** The reading of [var = c(...)]. *)
Definition r_read_vector (var code : str) : reading :=
  match strip_prefix (var ++ lit " = c(") code with
  | None => Other
  | Some args =>
      match r_skip args with
      | [41%N] => Parsed []
      | _ => r_args (S (length args)) args
      end
  end.

(** ** Test doubles *)

(** A stand-in for [repr] on floats: twelve decimals. *)
Definition repr_fixed12 (x : float) : str := format_f 12 x.

(** An interpreter that accepts every call and answers [r[...]] with a
    fixed named list. *)
Definition R_fixed (items : list (str * option DataFrame)) (log : list rcall) : rreply :=
  match last log with
  | Some (RGetItem _) => RList items
  | _ => RDone
  end.


(** An interpreter on which every call fails. *)
Definition R_down (log : list rcall) : rreply := RFails.

(** A weights table for target T with sources A, B, C: weights 0.75, 0.25
    and -0.125, standard errors 0.125, 0.0625 and 0. *)
Definition sample_ws : list float :=
  [mkfloat 3 (-2); mkfloat 1 (-2); mkfloat (-1) (-3)].
Definition sample_ses : list float :=
  [mkfloat 1 (-3); mkfloat 1 (-4); fzero].
Definition sample_weights : DataFrame :=
  mkDF 3 [ (lit "target", List.map CStr [lit "T"; lit "T"; lit "T"]);
           (lit "left", List.map CStr [lit "A"; lit "B"; lit "C"]);
           (lit "weight", List.map CNum sample_ws);
           (lit "se", List.map CNum sample_ses) ].

(** A fit table with p = 0.03125 and chisq = 3.25. *)
Definition sample_rankdrop : DataFrame :=
  mkDF 1 [ (lit "p", [CNum (mkfloat 1 (-5))]);
           (lit "chisq", [CNum (mkfloat 13 (-2))]) ].

(** The sample weights table after the derivation step. *)
Definition sample_zs : list float :=
  [mkfloat 6 0; mkfloat 4 0; fzero].
Definition sample_derived : DataFrame :=
  setcol sample_weights (lit "zscore") (List.map CNum sample_zs).

(** A derived table in which the pair (T, A) occurs twice, with weights 0.5
    and 0.25, standard errors 0.25 and 0.125 and z-scores 2 and 2, next to
    one row for (T, B). *)
Definition dup_ts : list str := [lit "T"; lit "T"; lit "T"].
Definition dup_ss : list str := [lit "A"; lit "B"; lit "A"].
Definition dup_ws : list float := [mkfloat 1 (-1); mkfloat 1 (-2); mkfloat 1 (-2)].
Definition dup_ses : list float := [mkfloat 1 (-2); mkfloat 1 (-3); mkfloat 1 (-3)].
Definition dup_zs : list float := [mkfloat 2 0; mkfloat 2 0; mkfloat 2 0].
Definition dup_derived : DataFrame :=
  mkDF 3 [ (lit "target", List.map CStr dup_ts);
           (lit "left", List.map CStr dup_ss);
           (lit "weight", List.map CNum dup_ws);
           (lit "se", List.map CNum dup_ses);
           (lit "zscore", List.map CNum dup_zs) ].


(** A derived table for target T with sources A and B in which the
    standard error of A is missing (NaN), and with it the z-score of A. *)
Definition nan_derived : DataFrame :=
  mkDF 2 [ (lit "target", List.map CStr [lit "T"; lit "T"]);
           (lit "left", List.map CStr [lit "A"; lit "B"]);
           (lit "weight", List.map CNum [mkfloat 3 (-2); mkfloat 1 (-2)]);
           (lit "se", List.map CNum [S754_nan; mkfloat 1 (-4)]);
           (lit "zscore", List.map CNum [S754_nan; mkfloat 4 0]) ].

(** What the estimator hands back when no model is feasible, and for the
    sample tables. *)
Definition infeasible_items : list (str * option DataFrame) :=
  [ (lit "weights", None); (lit "rankdrop", Some sample_rankdrop) ].
Definition sample_items : list (str * option DataFrame) :=
  [ (lit "weights", Some sample_weights); (lit "rankdrop", Some sample_rankdrop) ].

(** A configuration file naming a dataset, no list files; the widgets of a
    manual request for target T, sources A and B, outgroup X, with the
    button pressed or not. *)
Definition sample_files : files :=
  mkFiles (Some [lit "prefix: data/v54"]) None None
    (Ok (lit "/home/user/streamlit_r_temp")).
Definition sample_widgets (pressed : bool) : widgets :=
  mkWidgets (lit "T")
    (mkSide EnterManually None [65; 10; 66]%N)
    (mkSide EnterManually None (lit "X"))
    pressed.

Definition empty_world : world := mkWorld [] [] [].

(** An interpreter on which the call of the estimator fails and every
    other call goes through. *)
Definition R_without_model (items : list (str * option DataFrame)) (log : list rcall)
  : rreply :=
  match last log with
  | Some (REval code) => if bool_decide (code = qpadm_code) then RFails else RDone
  | _ => R_fixed items log
  end.

(** What an estimator without a feasible model hands back when it leaves
    the fit table out. *)
Definition bare_items : list (str * option DataFrame) :=
  [ (lit "weights", None) ].

(** A result whose fit table has the two columns and no row. *)
Definition empty_rankdrop : DataFrame :=
  mkDF 0 [ (lit "p", []); (lit "chisq", []) ].
Definition unfit_items : list (str * option DataFrame) :=
  [ (lit "weights", Some sample_weights); (lit "rankdrop", Some empty_rankdrop) ].

(** [posixpath.basename]: what follows the last slash. *)
Definition posix_basename (path : str) : str :=
  default [] (last (split 47%N path)).

(** A disk that holds the index file [data/v54.fam], two lines of plain
    text, next to a [data/v54.ind]; and a disk with the same [.fam] file and
    no [.ind] file. *)
Definition sample_fam_text : str :=
  lit "T 1 0 0 0 1" ++ [10%N] ++ lit "A 2 0 0 0 1" ++ [10%N].
Definition sample_fam : list Byte.byte :=
  Eval vm_compute in
    match encode_utf8 sample_fam_text with Ok bs => bs | Raise _ => [] end.
Definition sample_disk (path : str) : node :=
  if bool_decide (path = lit "data/v54.fam") then File sample_fam
  else if bool_decide (path = lit "data/v54.ind") then File []
  else Absent.
Definition fam_only_disk (path : str) : node :=
  if bool_decide (path = lit "data/v54.fam") then File sample_fam
  else Absent.

(** The sample derived table with its rows in another order: C, A, B. *)
Definition sample_reordered : DataFrame :=
  mkDF 3 [ (lit "target", List.map CStr [lit "T"; lit "T"; lit "T"]);
           (lit "left", List.map CStr [lit "C"; lit "A"; lit "B"]);
           (lit "weight", List.map CNum [mkfloat (-1) (-3); mkfloat 3 (-2); mkfloat 1 (-2)]);
           (lit "se", List.map CNum [fzero; mkfloat 1 (-3); mkfloat 1 (-4)]);
           (lit "zscore", List.map CNum [fzero; mkfloat 6 0; mkfloat 4 0]) ].

(** A configuration file without any entry: a comment and a blank line. *)
(** The same files on a host where the temporary directory cannot be made. *)
Definition readonly_home_files : files :=
  mkFiles (Some [lit "prefix: data/v54"]) None None (Raise PermissionError).


(** ** Vocabulary of the properties *)

(** The calls one analysis makes, in order (lines 135-143). *)
Definition analysis_calls (prefix_path target_name : str) (left_pops right_pops : list str)
  : list rcall :=
  [ RAssign (lit "prefix") prefix_path;
    RAssign (lit "target") target_name;
    REval (lit "left = c(" ++ r_vector left_pops ++ lit ")");
    REval (lit "right = c(" ++ r_vector right_pops ++ lit ")");
    REval qpadm_code;
    RGetItem (lit "results") ].

(** The interpreter answers the [calls], made one after the other after
    [log], without an error, and answers the last of them with [final]. *)
Fixpoint answers (R : list rcall -> rreply) (log calls : list rcall) (final : rreply)
  : Prop :=
  match calls with
  | [] => True
  | [c] => R (log ++ [c]) = final
  | c :: cs => R (log ++ [c]) <> RFails /\ answers R (log ++ [c]) cs final
  end.

(** The estimator runs the analysis without an error and hands back the
    named list [items]. *)
Definition estimator_returns (R : list rcall -> rreply) (log : list rcall)
    (prefix_path target_name : str) (left_pops right_pops : list str)
    (items : list (str * option DataFrame)) : Prop :=
  answers R log (analysis_calls prefix_path target_name left_pops right_pops)
    (RList items).

(** One of the four parts of a request is missing: the dataset prefix, the
    target, the left list or the right list. *)
Definition incomplete (prefix_path : option str) (target_name : str)
    (left_pops right_pops : list str) : Prop :=
  prefix_defined prefix_path = false \/ target_name = []
  \/ left_pops = [] \/ right_pops = [].

(** The index of the export frame: the common index of the three pivots, or
    the union of their indexes. *)
Definition export_index (rw rs rz : list (str * str * float)) : list str :=
  if forallb (fun i => bool_decide (i = pivot_index rw)) [pivot_index rs; pivot_index rz]
  then pivot_index rw
  else union_index [pivot_index rw; pivot_index rs; pivot_index rz].

(** The columns one pivot contributes to the export frame. *)
Definition export_columns (sfx : str) (rows : list (str * str * float))
    (index : list str) : list (str * Series) :=
  List.map (fun s => (s ++ sfx,
                      List.map (fun t => CNum (pivot_cell rows t s)) index))
    (pivot_labels rows).

(** The cell of a frame in the row whose [target] is [t], under the column
    named [name]. *)
Definition cell_at (df : DataFrame) (t name : str) : option cell :=
  match assoc (lit "target") (columns df), assoc name (columns df) with
  | Some tc, Some c =>
      match index_of (CStr t) tc with
      | Some i => c !! i
      | None => None
      end
  | _, _ => None
  end.

(** Strictly increasing lists of labels. *)
Fixpoint increasing (l : list str) : Prop :=
  match l with
  | [] => True
  | x :: l' => Forall (fun y => str_compare x y = Lt) l' /\ increasing l'
  end.

(** The line of the statistics block for a source [name] with standard
    error [se] and z-score [z]. *)
Definition stats_line_of (name : str) (se z : float) : str :=
  ljust 40 name ++ lit " | " ++ rjust 6 (format_f 2 (fmul se f100))
  ++ lit "% | " ++ rjust 7 (format_f 2 z) ++ nl.

(** The R log only grows. *)
Definition extends_log {A} (m : M A) : Prop :=
  forall w, exists rest, rlog (m w).2 = rlog w ++ rest.

(** The columns one pivot contributes to the concatenated table. *)
Definition table_columns (sfx : str) (rows : list (str * str * float))
    (index : list str) : list (str * list float) :=
  List.map (fun s => (s ++ sfx, List.map (fun t => pivot_cell rows t s) index))
    (pivot_labels rows).

Definition sfx_weight : str := lit "_weight".
Definition sfx_se : str := lit "_se".
Definition sfx_zscore : str := lit "_zscore".

(** The names of the value columns: weights, then standard errors, then
    z-scores. *)
Definition value_names (lw ls lz : list str) : list str :=
  List.map (fun s => s ++ sfx_weight) lw
  ++ List.map (fun s => s ++ sfx_se) ls
  ++ List.map (fun s => s ++ sfx_zscore) lz.

(** The header of the export frame. *)
Definition export_header (lw ls lz : list str) : list str :=
  lit "target" :: value_names lw ls lz ++ [lit "p-value"; lit "x2"].

(** A derived weights table: string columns [target] and [left], numeric
    columns [weight], [se] and [zscore], one cell per row each. *)
Record derived_table (df : DataFrame) (ts ss : list str) (ws ses zs : list float)
  : Prop := {
  dt_target : assoc (lit "target") (columns df) = Some (List.map CStr ts);
  dt_left : assoc (lit "left") (columns df) = Some (List.map CStr ss);
  dt_weight : assoc (lit "weight") (columns df) = Some (List.map CNum ws);
  dt_se : assoc (lit "se") (columns df) = Some (List.map CNum ses);
  dt_zscore : assoc (lit "zscore") (columns df) = Some (List.map CNum zs);
  dt_targets : length ts = nrows df;
  dt_lefts : length ss = nrows df;
  dt_weights : length ws = nrows df;
  dt_ses : length ses = nrows df;
  dt_zscores : length zs = nrows df
}.

(** The rows of a table as (target, source, value) triples. *)
Definition triples (ts ss : list str) (vs : list float) : list (str * str * float) :=
  zip (zip ts ss) vs.

(** The rows of a table on which the target is [t] and the source is [s],
    in increasing order. *)
Definition rows_with (ts ss : list str) (t s : str) : list nat :=
  List.filter (fun i => bool_decide (ts !! i = Some t /\ ss !! i = Some s))
    (seq 0 (length ts)).

(** The values of a column on the given rows. *)
Definition values_at (vs : list float) (rows : list nat) : list float :=
  omap (fun i => vs !! i) rows.


(** The arithmetic mean in binary64: the values added from left to right,
    the sum divided by their number. *)
Definition arithmetic_mean (vals : list float) : float :=
  fdiv (fold_left fadd vals fzero) (float_of_nat (length vals)).

(** A fit table whose first row holds [pv] and [xv]. *)
Definition fit_table (df : DataFrame) (pv xv : cell) : Prop :=
  (exists rest, assoc (lit "p") (columns df) = Some (pv :: rest))
  /\ (exists rest, assoc (lit "chisq") (columns df) = Some (xv :: rest)).

(** The header the export would have if the three columns of each source
    stood side by side. *)
Definition interleaved_header (sources : list str) : list str :=
  lit "target"
  :: List.flat_map (fun s => [s ++ sfx_weight; s ++ sfx_se; s ++ sfx_zscore]) sources
  ++ [lit "p-value"; lit "x2"].

(** The locations the entries of a named list get when it is converted
    on a heap of [base] frames. *)
Fixpoint converted (items : list (str * option DataFrame)) (base : nat)
  : list (str * option loc) :=
  match items with
  | [] => []
  | (n, None) :: rest => (n, None) :: converted rest base
  | (n, Some _) :: rest => (n, Some base) :: converted rest (S base)
  end.

Definition isdigit (c : char) : bool := ((48 <=? c) && (c <=? 57))%N.

(** The number of digits after the decimal point of a decimal numeral with
    an optional minus sign; [None] when the text is not such a numeral. *)
Definition decimal_places (s : str) : option nat :=
  let body := match s with
              | c :: s' => if (c =? 45)%N then s' else s
              | [] => []
              end in
  match split1 46%N body with
  | (ip, Some frac) =>
      if truthy ip && forallb isdigit ip && forallb isdigit frac
      then Some (length frac) else None
  | (_, None) => None
  end.

(** The integer written by a string of decimal digits. *)
Definition digits_value (s : str) : Z :=
  fold_left (fun a c => 10 * a + (Z.of_N c - 48)) s 0.

(** Digits without a superfluous leading zero. *)
Definition canonical (ip : str) : bool :=
  match ip with
  | [] => false
  | [_] => true
  | c :: _ => negb (c =? 48)%N
  end.

(** Reading a decimal numeral back: an optional minus sign, an integer part
    without superfluous zeros and, after a point, at least one more digit.
    [Some (neg, n, k)] says that the numeral has [k] digits after the point
    and denotes [n / 10^k], negated when [neg]; [None] says that the text
    is not such a numeral.  No two numerals are read as the same triple. *)
Definition decimal_value (s : str) : option (bool * Z * nat) :=
  let '(neg, body) := match s with
                      | c :: s' => if (c =? 45)%N then (true, s') else (false, s)
                      | [] => (false, [])
                      end in
  match split1 46%N body with
  | (ip, Some frac) =>
      if canonical ip && forallb isdigit ip && truthy frac && forallb isdigit frac
      then Some (neg, digits_value (ip ++ frac), length frac) else None
  | (ip, None) =>
      if canonical ip && forallb isdigit ip
      then Some (neg, digits_value ip, 0%nat) else None
  end.

(** [q] is the integer nearest to [m * 2^e * 10^p], and the even one of the
    two nearest when that number lies halfway between two integers. *)
Definition nearest_even (q : Z) (p : nat) (m : positive) (e : Z) : Prop :=
  let num := Z.pos m * 2 ^ Z.max e 0 * 10 ^ Z.of_nat p in
  let den := 2 ^ Z.max (- e) 0 in
  2 * Z.abs (q * den - num) <= den
  /\ (2 * Z.abs (q * den - num) = den -> Z.even q = true).

Definition msg_no_prefix : str := lit "Prefix path not defined in `config.txt`.".
Definition msg_incomplete : str :=
  lit "ERROR: Please define the Target, Left list, and Right list.".
Definition msg_infeasible : str :=
  lit "Analysis failed. No feasible model was found.".

(** The interpreter answers the first [n] of the [calls], made one after
    the other after [log], and fails on the next one. *)
Fixpoint fails_at (R : list rcall -> rreply) (log calls : list rcall) (n : nat)
  : Prop :=
  match calls with
  | [] => False
  | c :: cs =>
      match n with
      | O => R (log ++ [c]) = RFails
      | S n' => R (log ++ [c]) <> RFails /\ fails_at R (log ++ [c]) cs n'
      end
  end.

(** [obj[name].iloc[0]] for an entry [obj] of the result list, as lines
    153-154 read the fit table. *)
Definition fit_reading (obj : option DataFrame) (name : str) : result cell :=
  match obj with
  | Some df => c <- getcol df name;; iloc0 c
  | None => Raise TypeError
  end.

(** Lines 153-154 together. *)
Definition fit_values (obj : option DataFrame) : result (cell * cell) :=
  pValue <- fit_reading obj (lit "p");;
  x2 <- fit_reading obj (lit "chisq");;
  Ok (pValue, x2).

(** A step that makes no call to R. *)
Definition keeps_log {A} (m : M A) : Prop :=
  forall w, rlog (m w).2 = rlog w.

(** The two calls of the start-up block. *)
Definition load_admixtools : rcall := REval (lit "library(admixtools)").
Definition load_tidyverse : rcall := REval (lit "library(tidyverse)").

Definition library_call (c : rcall) : Prop :=
  c = load_admixtools \/ c = load_tidyverse.

(** A run on a host where lines 10-11 succeed. *)
Definition makes_temp_dir (run : files * widgets) : Prop :=
  exists d, temp_dir run.1 = Ok d.

(** The message of the handler at lines 209-211. *)
Definition msg_critical : str := lit "A critical error occurred during execution.".

(** The three information lines of a run (lines 128-130). *)
Definition info_lines (target_name : str) (left_pops right_pops : list str)
  : list element :=
  [ st_info (lit "Target: " ++ target_name);
    st_info_list (lit "Sources (Left): ") left_pops;
    st_info_list (lit "Outgroups (Right): ") right_pops ].

(** A string that does not start with white space. *)
Definition starts_clean (s : str) : Prop :=
  match s with
  | [] => True
  | c :: _ => isspace c = false
  end.

(** * Properties *)

(** ** Association lists and results *)

Arguments lit : simpl never.

Lemma assoc_set_eq {V} (k : str) (v : V) l : assoc k (assoc_set k v l) = Some v.
Proof.
  induction l as [|[k' v'] l IH]; simpl.
  - by rewrite decide_True.
  - destruct (decide (k' = k)) as [->|Hne]; simpl.
    + by rewrite decide_True.
    + by rewrite decide_False.
Qed.

Lemma assoc_set_ne {V} (k k' : str) (v : V) l :
  k' ≠ k -> assoc k' (assoc_set k v l) = assoc k' l.
Proof.
  intros Hne. induction l as [|[k0 v0] l IH]; simpl.
  - by rewrite decide_False.
  - destruct (decide (k0 = k)) as [->|Hk]; simpl.
    + rewrite !decide_False; auto.
    + destruct (decide (k0 = k')); auto.
Qed.

Lemma rmapM_map_ok {A B C} (f : B -> result C) (h : A -> B) (g : A -> C) l :
  (forall x, x ∈ l -> f (h x) = Ok (g x)) ->
  rmapM f (List.map h l) = Ok (List.map g l).
Proof.
  induction l as [|a l IH]; intros H; simpl; [done|].
  rewrite H by left. simpl. rewrite IH; [done|].
  intros x Hx. apply H. by right.
Qed.

Lemma lookup_map_seq {A} (f : nat -> A) n i :
  (i < n)%nat -> List.map f (seq 0 n) !! i = Some (f i).
Proof.
  intros Hi. change (List.map f (seq 0 n)) with (f <$> seq 0 n).
  rewrite list_lookup_fmap, lookup_seq_lt by done. done.
Qed.

Lemma lookup_map {A B} (f : A -> B) l i :
  List.map f l !! i = f <$> (l !! i).
Proof. change (List.map f l) with (f <$> l). apply list_lookup_fmap. Qed.

(** ** Z-score derivation *)

Lemma getrow_num (df : DataFrame) name (xs : list float) i x :
  assoc name (columns df) = Some (List.map CNum xs) ->
  xs !! i = Some x ->
  getrow df i name = Ok (CNum x).
Proof.
  intros Hc Hx. unfold getrow. rewrite Hc, lookup_map, Hx. done.
Qed.

Lemma zscore_lambda_num (r : row) w se :
  r (lit "weight") = Ok (CNum w) ->
  r (lit "se") = Ok (CNum se) ->
  zscore_lambda r = Ok (CNum (if feqb se fzero then fzero else fdiv w se)).
Proof.
  intros Hw Hse. unfold zscore_lambda. rewrite Hse. simpl.
  destruct (feqb se fzero); simpl; [done|]. by rewrite Hw.
Qed.

Lemma apply_axis1_rows f (df : DataFrame) :
  (0 < nrows df)%nat ->
  apply_axis1 f df = (s <- rmapM f (iterrows df);; Ok (ASeries s)).
Proof. unfold apply_axis1. destruct (nrows df); [lia|done]. Qed.

(** The frame left by the derivation, column by column. *)
Lemma derive_zscore_columns (weights : DataFrame) (ws ses : list float) :
  (0 < nrows weights)%nat ->
  assoc (lit "weight") (columns weights) = Some (List.map CNum ws) ->
  assoc (lit "se") (columns weights) = Some (List.map CNum ses) ->
  length ws = nrows weights ->
  length ses = nrows weights ->
  exists weights',
    derive_zscore weights = Ok weights'
    /\ nrows weights' = nrows weights
    /\ (forall i w se, ws !! i = Some w -> ses !! i = Some se ->
          exists z, getrow weights' i (lit "zscore") = Ok (CNum z)
            /\ (feqb se fzero = true -> z = fzero)
            /\ (feqb se fzero = false -> z = fdiv w se))
    /\ (forall name, name <> lit "zscore" ->
          assoc name (columns weights') = assoc name (columns weights)).
Proof.
  intros Hn Hw Hse Hlw Hls.
  set (z := fun i => let se := default fzero (ses !! i) in
                     if feqb se fzero then fzero
                     else fdiv (default fzero (ws !! i)) se).
  assert (Hz : rmapM zscore_lambda (iterrows weights)
               = Ok (List.map (fun r => CNum (z r)) (seq 0 (nrows weights)))).
  { unfold iterrows. apply rmapM_map_ok.
    intros i Hi. apply list_elem_of_In, List.in_seq in Hi.
      destruct (lookup_lt_is_Some_2 ws i) as [w Hwi]; [lia|].
      destruct (lookup_lt_is_Some_2 ses i) as [se Hsi]; [lia|].
      rewrite (zscore_lambda_num _ w se) by eauto using getrow_num.
      unfold z. rewrite Hwi, Hsi. reflexivity. }
  unfold derive_zscore. rewrite apply_axis1_rows, Hz by done.
  cbn [rbind setitem]. eexists. split; [reflexivity|].
  split; [done|]. split.
  - intros i w se Hwi Hsi. exists (z i). split.
    + unfold getrow, setcol. cbn [columns]. rewrite assoc_set_eq.
      assert (i < nrows weights)%nat by (apply lookup_lt_Some in Hwi; lia).
      rewrite (lookup_map_seq (fun r => CNum (z r))) by done. done.
    + unfold z. rewrite Hwi, Hsi. simpl. split; intros ->; done.
  - intros name Hne. by apply assoc_set_ne.
Qed.


(** C1.  On a weights table with at least one row whose [weight] and [se]
    columns are numeric, the derivation step succeeds; in the frame it
    leaves, the z-score of every row is 0 when the row's [se] compares equal
    to 0 and [weight / se] (one float division) otherwise; the frame has the
    same rows, and every column other than [zscore] is as it was. *)
Theorem zscore_derivation (weights : DataFrame) (ws ses : list float) :
  (0 < nrows weights)%nat ->
  assoc (lit "weight") (columns weights) = Some (List.map CNum ws) ->
  assoc (lit "se") (columns weights) = Some (List.map CNum ses) ->
  length ws = nrows weights ->
  length ses = nrows weights ->
  exists weights',
    derive_zscore weights = Ok weights'
    /\ nrows weights' = nrows weights
    /\ (forall i w se, ws !! i = Some w -> ses !! i = Some se ->
          exists z, getrow weights' i (lit "zscore") = Ok (CNum z)
            /\ (feqb se fzero = true -> z = fzero)
            /\ (feqb se fzero = false -> z = fdiv w se))
    /\ (forall name, name <> lit "zscore" ->
          assoc name (columns weights') = assoc name (columns weights)).
Proof. apply derive_zscore_columns. Qed.

Lemma zscore_derivation_witness :
  exists weights',
    derive_zscore sample_weights = Ok weights'
    /\ nrows weights' = nrows sample_weights
    /\ (forall i w se, sample_ws !! i = Some w -> sample_ses !! i = Some se ->
          exists z, getrow weights' i (lit "zscore") = Ok (CNum z)
            /\ (feqb se fzero = true -> z = fzero)
            /\ (feqb se fzero = false -> z = fdiv w se))
    /\ (forall name, name <> lit "zscore" ->
          assoc name (columns weights') = assoc name (columns sample_weights)).
Proof.
  apply (zscore_derivation sample_weights sample_ws sample_ses);
    [simpl; lia | reflexivity | reflexivity | reflexivity | reflexivity].
Defined.

(** ** The derivation step on the heap *)

(** C8, as the code has it.  The derivation assigns the [zscore] column into
    the very frame it read: after the step the location of the weights table
    holds the derived frame, no frame has been allocated, every other
    location, the R log and the page are untouched, and in the weights table
    the rows are the same and every column other than [zscore] is
    unchanged. *)
Theorem derive_step_in_place (w : world) (l : loc) (df : DataFrame) (ws ses : list float) :
  heap w !! l = Some df ->
  (0 < nrows df)%nat ->
  assoc (lit "weight") (columns df) = Some (List.map CNum ws) ->
  assoc (lit "se") (columns df) = Some (List.map CNum ses) ->
  length ws = nrows df ->
  length ses = nrows df ->
  exists df',
    derive_step l w = (Ok tt, mkWorld (rlog w) (<[l := df']> (heap w)) (page w))
    /\ derive_zscore df = Ok df'
    /\ <[l := df']> (heap w) !! l = Some df'
    /\ length (<[l := df']> (heap w)) = length (heap w)
    /\ (forall l', l' <> l -> <[l := df']> (heap w) !! l' = heap w !! l')
    /\ nrows df' = nrows df
    /\ is_Some (assoc (lit "zscore") (columns df'))
    /\ (forall name, name <> lit "zscore" ->
          assoc name (columns df') = assoc name (columns df)).
Proof.
  intros Hl Hn Hw Hse Hlw Hls.
  destruct (derive_zscore_columns df ws ses Hn Hw Hse Hlw Hls)
    as (df' & Hd & Hrows & Hz & Hother).
  exists df'. split.
  { unfold derive_step, bind, load, lift, store. by rewrite Hl, Hd. }
  split; [done|]. split.
  { apply list_lookup_insert_eq. by eapply lookup_lt_Some. }
  split; [apply length_insert|].
  split; [intros l' Hne; by apply list_lookup_insert_ne|].
  split; [done|]. split; [|done].
  unfold derive_zscore in Hd. rewrite apply_axis1_rows in Hd by done.
  destruct (rmapM zscore_lambda (iterrows df)) as [s|]; [|done].
  injection Hd as <-. unfold setcol. cbn [columns]. rewrite assoc_set_eq. eauto.
Qed.

Lemma derive_step_in_place_witness :
  exists df',
    derive_step 0%nat (mkWorld [] [sample_weights] [])
      = (Ok tt, mkWorld [] (<[0%nat := df']> [sample_weights]) [])
    /\ derive_zscore sample_weights = Ok df'
    /\ <[0%nat := df']> [sample_weights] !! 0%nat = Some df'
    /\ length (<[0%nat := df']> [sample_weights]) = 1%nat
    /\ (forall l', l' <> 0%nat ->
          <[0%nat := df']> [sample_weights] !! l' = [sample_weights] !! l')
    /\ nrows df' = nrows sample_weights
    /\ is_Some (assoc (lit "zscore") (columns df'))
    /\ (forall name, name <> lit "zscore" ->
          assoc name (columns df') = assoc name (columns sample_weights)).
Proof.
  apply (derive_step_in_place (mkWorld [] [sample_weights] []) 0%nat
           sample_weights sample_ws sample_ses);
    [reflexivity | simpl; lia | reflexivity | reflexivity | reflexivity | reflexivity].
Defined.

(** C8, as the claim has it, fails: on a heap holding only the sample
    weights table, the frame at the table's location is no longer the frame
    that was received, and the derived rows are not a new collection, since
    the heap holds as many frames as before. *)
Lemma derive_step_mutates_input :
  let w := mkWorld [] [sample_weights] [] in
  exists w',
    derive_step 0%nat w = (Ok tt, w')
    /\ heap w' !! 0%nat <> Some sample_weights
    /\ length (heap w') = length (heap w).
Proof.
  eexists. split; [vm_compute; reflexivity|]. split; [|reflexivity].
  vm_compute. intros [=].
Qed.

(** ** Guards and outcomes of a run *)

Section Runs.

Variable float_repr : float -> str.
Variable linesep : str.
Variable R : list rcall -> rreply.

Implicit Types (ss : session_state) (w : world).

Lemma r_call_ok (c : rcall) (w : world) :
  R (rlog w ++ [c]) <> RFails ->
  r_call R c w = (Ok (R (rlog w ++ [c])), mkWorld (rlog w ++ [c]) (heap w) (page w)).
Proof. intros H. unfold r_call. destruct (R (rlog w ++ [c])); congruence. Qed.

Lemma r_call_log (c : rcall) (w : world) :
  rlog (r_call R c w).2 = rlog w ++ [c]
  /\ heap (r_call R c w).2 = heap w /\ page (r_call R c w).2 = page w.
Proof. unfold r_call. destruct (R (rlog w ++ [c])); done. Qed.

(** Conversion allocates the frames of the list, as they are, after the
    existing ones and changes nothing else. *)
Lemma convert_items_spec items (w : world) :
  convert_items items w
  = (Ok (converted items (length (heap w))),
     mkWorld (rlog w) (heap w ++ omap snd items) (page w)).
Proof.
  revert w. induction items as [|[n [df|]] items IH]; intros w.
  - cbn. rewrite app_nil_r. by destruct w.
  - cbn [convert_items converted]. unfold bind, alloc, ret at 1.
    rewrite IH. cbn [rlog heap page]. unfold ret.
    rewrite length_app. cbn [length]. rewrite Nat.add_1_r.
    cbn. by rewrite <- app_assoc.
  - cbn [convert_items converted]. unfold bind. rewrite IH. done.
Qed.

Lemma converted_none items base k :
  assoc k items = Some None -> assoc k (converted items base) = Some None.
Proof.
  revert base. induction items as [|[n [df|]] items IH]; intros base; cbn; [done|..];
    destruct (decide (n = k)); try done; apply IH.
Qed.

Lemma converted_some items (pre : list DataFrame) k df :
  assoc k items = Some (Some df) ->
  exists l, assoc k (converted items (length pre)) = Some (Some l)
            /\ (length pre <= l)%nat
            /\ (pre ++ omap snd items) !! l = Some df.
Proof.
  revert pre. induction items as [|[n [df'|]] items IH]; intros pre; cbn; [done|..].
  - destruct (decide (n = k)).
    + intros [= ->]. exists (length pre). split; [done|]. split; [lia|].
      rewrite lookup_app_r by done. by rewrite Nat.sub_diag.
    + intros H. destruct (IH (pre ++ [df']) H) as (l & Hl & Hle & Hh).
      rewrite length_app in Hl, Hle. cbn [length] in Hl, Hle.
      rewrite Nat.add_1_r in Hl. exists l. split; [done|]. split; [lia|].
      by rewrite <- app_assoc in Hh.
  - destruct (decide (n = k)); [done|]. apply IH.
Qed.

Lemma converted_bound items base k l :
  assoc k (converted items base) = Some (Some l) -> (base <= l)%nat.
Proof.
  revert base. induction items as [|[n [df|]] items IH]; intros base; cbn; [done|..].
  - destruct (decide (n = k)); [intros [= <-]; lia|].
    intros H. apply IH in H. lia.
  - destruct (decide (n = k)); [done|]. apply IH.
Qed.

(** Entries under different names are converted to different objects. *)
Lemma converted_distinct items base k1 k2 l1 l2 :
  k1 <> k2 ->
  assoc k1 (converted items base) = Some (Some l1) ->
  assoc k2 (converted items base) = Some (Some l2) ->
  l1 <> l2.
Proof.
  intros Hne. revert base.
  induction items as [|[n [df|]] items IH]; intros base; cbn; [done|..].
  - destruct (decide (n = k1)), (decide (n = k2)); try congruence.
    + intros [= <-] H%converted_bound. lia.
    + intros H%converted_bound [= <-]. lia.
    + apply IH.
  - destruct (decide (n = k1)), (decide (n = k2)); try done. apply IH.
Qed.

(** The calls of one analysis up to the retrieval of the result. *)
Lemma analysis_calls_run prefix_path target_name left_pops right_pops items (w : world)
    {A} (k : list (str * option loc) -> M A) :
  estimator_returns R (rlog w) prefix_path target_name left_pops right_pops items ->
  (r_call R (RAssign (lit "prefix") prefix_path);;;
   r_call R (RAssign (lit "target") target_name);;;
   r_call R (REval (lit "left = c(" ++ r_vector left_pops ++ lit ")"));;;
   r_call R (REval (lit "right = c(" ++ r_vector right_pops ++ lit ")"));;;
   r_call R (REval qpadm_code);;;
   let* result := r_getitem R (lit "results") in k result) w
  = k (converted items (length (heap w)))
      (mkWorld (rlog w ++ analysis_calls prefix_path target_name left_pops right_pops)
         (heap w ++ omap snd items) (page w)).
Proof.
  unfold estimator_returns, analysis_calls. cbn [answers].
  intros (H1 & H2 & H3 & H4 & H5 & H6).
  unfold bind at 1. rewrite r_call_ok by done.
  unfold bind at 1. rewrite r_call_ok by done. cbn [rlog heap page].
  unfold bind at 1. rewrite r_call_ok by done. cbn [rlog heap page].
  unfold bind at 1. rewrite r_call_ok by done. cbn [rlog heap page].
  unfold bind at 1. rewrite r_call_ok by done. cbn [rlog heap page].
  unfold bind at 1, r_getitem, bind at 1, r_call. cbn [rlog heap page].
  rewrite H6, convert_items_spec. cbn [rlog heap page]. rewrite <- !app_assoc. done.
Qed.

(** C5, as the code has it.  When the guards pass and the estimator hands
    back a result whose [weights] entry is [None] next to a [rankdrop]
    entry (line 145 reads that entry before line 147 tests the weights),
    the run ends with the message that no feasible model was found: the page gains the
    three information lines and that message, hence no chart and no
    download; the heap gains the converted frames as they were received and
    no frame is changed, so neither the derivation nor the export ran. *)
Theorem null_weights_infeasible ss prefix_path target_name left_pops right_pops
    (w : world) items rd :
  env_ready ss = true ->
  truthy prefix_path = true ->
  truthy target_name = true ->
  truthy left_pops = true ->
  truthy right_pops = true ->
  estimator_returns R (rlog w) prefix_path target_name left_pops right_pops items ->
  assoc (lit "weights") items = Some None ->
  assoc (lit "rankdrop") items = Some rd ->
  start_analysis float_repr linesep R ss (Some prefix_path) target_name left_pops right_pops w
  = (Ok tt,
     mkWorld (rlog w ++ analysis_calls prefix_path target_name left_pops right_pops)
       (heap w ++ omap snd items)
       (page w ++ [ st_info (lit "Target: " ++ target_name);
                    st_info_list (lit "Sources (Left): ") left_pops;
                    st_info_list (lit "Outgroups (Right): ") right_pops;
                    st_error msg_infeasible ])).
Proof.
  intros He Hp Ht Hl Hr Hest Hw Hrd.
  unfold start_analysis. rewrite He. cbn [negb prefix_defined].
  rewrite Hp, Ht, Hl, Hr. cbn [negb orb default from_option]. unfold id.
  unfold bind at 1, emit at 1. unfold bind at 1, emit at 1.
  unfold bind at 1, emit at 1. cbn [rlog heap page].
  unfold try_except, analysis. cbv zeta.
  match goal with |- context [bind (r_getitem R _) ?k] =>
    match goal with |- context [bind (r_call R (RAssign (lit "prefix") _)) _ ?w3] =>
      rewrite (analysis_calls_run prefix_path target_name left_pops right_pops
                 items w3 k Hest)
    end
  end.
  cbn [rlog heap page].
  unfold bind at 1, item. rewrite (converted_none _ _ _ Hw). unfold ret at 1.
  assert (exists v, assoc (lit "rankdrop") (converted items (length (heap w))) = Some v)
    as [v Hv].
  { destruct rd as [df|].
    - destruct (converted_some items (heap w) _ df Hrd) as (l & Hl' & _). eauto.
    - apply (converted_none _ (length (heap w))) in Hrd. eauto. }
  unfold bind at 1. rewrite Hv. unfold ret at 1, emit. cbn [rlog heap page].
  rewrite <- !app_assoc. done.
Qed.

Lemma ext_bind {A B} (m : M A) (k : A -> M B) :
  extends_log m -> (forall a, extends_log (k a)) -> extends_log (bind m k).
Proof.
  intros Hm Hk w. unfold bind. destruct (Hm w) as [r1 H1].
  destruct (m w) as [[a|e] w1]; cbn in *.
  - destruct (Hk a w1) as [r2 H2]. exists (r1 ++ r2).
    by rewrite H2, H1, app_assoc.
  - eauto.
Qed.

Lemma ext_try {A} (m : M A) (h : exn -> M A) :
  extends_log m -> (forall e, extends_log (h e)) -> extends_log (try_except m h).
Proof.
  intros Hm Hh w. unfold try_except. destruct (Hm w) as [r1 H1].
  destruct (m w) as [[a|e] w1]; cbn in *.
  - eauto.
  - destruct (Hh e w1) as [r2 H2]. exists (r1 ++ r2).
    by rewrite H2, H1, app_assoc.
Qed.

Lemma ext_same {A} (m : M A) :
  (forall w, rlog (m w).2 = rlog w) -> extends_log m.
Proof. intros H w. exists []. by rewrite app_nil_r. Qed.

Lemma ext_r_call c : extends_log (r_call R c).
Proof. intros w. exists [c]. apply r_call_log. Qed.

Lemma ext_convert_items items : extends_log (convert_items items).
Proof.
  intros w. rewrite convert_items_spec. exists []. cbn. by rewrite app_nil_r.
Qed.

Ltac ext_log :=
  repeat first
    [ apply ext_r_call
    | apply ext_convert_items
    | apply ext_bind; [|intros ?]
    | apply ext_try; [|intros ?]
    | apply ext_same; intros ?; reflexivity
    | match goal with
      | |- extends_log (match ?x with _ => _ end) => destruct x
      | |- extends_log (load ?l) =>
          let w0 := fresh "w" in
          apply ext_same; intros w0; unfold load; destruct (heap w0 !! l); reflexivity
      | |- extends_log (lift ?r) => apply ext_same; intros ?; reflexivity
      end ].

(** A request with all four parts goes on to the estimator. *)
Lemma complete_request_proceeds ss p target_name left_pops right_pops w :
  env_ready ss = true ->
  truthy p = true ->
  truthy target_name = true ->
  truthy left_pops = true ->
  truthy right_pops = true ->
  exists rest,
    rlog (start_analysis float_repr linesep R ss (Some p) target_name
            left_pops right_pops w).2
    = rlog w ++ RAssign (lit "prefix") p :: rest.
Proof.
  intros He Hp Ht Hl Hr. unfold start_analysis.
  rewrite He. cbn [negb prefix_defined]. rewrite Hp, Ht, Hl, Hr.
  cbn [negb orb default from_option]. unfold id.
  unfold bind at 1, emit at 1. unfold bind at 1, emit at 1.
  unfold bind at 1, emit at 1. cbn [rlog heap page].
  unfold try_except.
  set (w3 := mkWorld _ _ _).
  assert (Ha : exists rest,
    rlog (analysis float_repr linesep R p target_name left_pops right_pops w3).2
    = rlog w ++ RAssign (lit "prefix") p :: rest).
  { unfold analysis. cbv zeta. unfold bind at 1.
    destruct (r_call_log (RAssign (lit "prefix") p) w3) as (Hl1 & _).
    destruct (r_call R (RAssign (lit "prefix") p) w3) as [[rep|e] w4]; cbn in Hl1.
    - match goal with |- context [rlog (?k w4).2] =>
        assert (Hk : extends_log k) end.
      { unfold r_getitem, item, report, column_of, frame_of, derive_step.
        ext_log. }
      destruct (Hk w4) as [rest Hrest]. exists rest.
      rewrite Hrest, Hl1. subst w3. cbn. by rewrite <- app_assoc.
    - exists []. cbn. by rewrite Hl1. }
  destruct Ha as [rest Ha].
  destruct (analysis float_repr linesep R p target_name left_pops right_pops w3)
    as [[[]|e] w4]; cbn in *.
  - eauto.
  - unfold bind, emit. cbn. eauto.
Qed.

Lemma incomplete_iff prefix_path target_name left_pops right_pops :
  incomplete prefix_path target_name left_pops right_pops
  <-> prefix_defined prefix_path = false \/ truthy target_name = false
      \/ truthy left_pops = false \/ truthy right_pops = false.
Proof.
  unfold incomplete.
  destruct target_name, left_pops, right_pops; cbn; intuition congruence.
Qed.

(** C4, as the code has it.  With the R environment initialised, a request
    is turned down, with one error message and without any call to R, exactly
    when the dataset prefix is undefined or the target, the left list or the
    right list is empty; a complete request, whatever the length of its
    lists, goes on to the estimator, starting with the assignment of the
    prefix. *)
Theorem guards_reject_iff_incomplete ss prefix_path target_name left_pops right_pops
    (w : world) :
  env_ready ss = true ->
  let w' := (start_analysis float_repr linesep R ss prefix_path target_name
               left_pops right_pops w).2 in
  (incomplete prefix_path target_name left_pops right_pops ->
     heap w' = heap w
     /\ exists msg, page w' = page w ++ [st_error msg]
                    /\ (msg = msg_no_prefix \/ msg = msg_incomplete))
  /\ (~ incomplete prefix_path target_name left_pops right_pops ->
       exists p rest, prefix_path = Some p
         /\ rlog w' = rlog w ++ RAssign (lit "prefix") p :: rest)
  /\ (rlog w' = rlog w <-> incomplete prefix_path target_name left_pops right_pops).
Proof.
  intros He.
  destruct (decide (prefix_defined prefix_path = true
                    /\ truthy target_name = true /\ truthy left_pops = true
                    /\ truthy right_pops = true)) as [(Hp & Ht & Hl & Hr)|Hmiss].
  - assert (Hc : ~ incomplete prefix_path target_name left_pops right_pops).
    { rewrite incomplete_iff. intros [?|[?|[?|?]]]; congruence. }
    destruct prefix_path as [p|]; [|done]. cbn in Hp.
    destruct (complete_request_proceeds ss p target_name left_pops right_pops w)
      as [rest Hlog]; try done.
    cbv zeta. split; [done|]. split; [eauto|].
    rewrite Hlog. split; [|done].
    intros H. exfalso. rewrite <- (app_nil_r (rlog w)) in H at 2.
    by apply app_inv_head in H.
  - assert (Hi : incomplete prefix_path target_name left_pops right_pops).
    { rewrite incomplete_iff.
      destruct (prefix_defined prefix_path), (truthy target_name),
        (truthy left_pops), (truthy right_pops); tauto. }
    cbv zeta. unfold start_analysis. rewrite He. cbn [negb].
    destruct (prefix_defined prefix_path) eqn:Hp; cbn [negb].
    + destruct (negb (truthy target_name) || negb (truthy left_pops)
                || negb (truthy right_pops)) eqn:Hg.
      * split; [|split; [done|done]].
        intros _. split; [done|]. exists msg_incomplete. split; [done|]. by right.
      * exfalso. apply Hmiss.
        destruct (truthy target_name), (truthy left_pops), (truthy right_pops); done.
    + split; [|split; [done|done]].
      intros _. split; [done|]. exists msg_no_prefix. split; [done|]. by left.
Qed.

(** Running the primitive steps. *)
Lemma bind_emit {B} e (k : unit -> M B) w :
  bind (emit e) k w = k tt (mkWorld (rlog w) (heap w) (page w ++ [e])).
Proof. reflexivity. Qed.

Lemma bind_lift {A B} (a : A) (k : A -> M B) w : bind (lift (Ok a)) k w = k a w.
Proof. reflexivity. Qed.

Lemma bind_load {B} l df (k : DataFrame -> M B) w :
  heap w !! l = Some df -> bind (load l) k w = k df w.
Proof. intros H. unfold bind, load. by rewrite H. Qed.

Lemma bind_store {B} l df (k : unit -> M B) w :
  bind (store l df) k w = k tt (mkWorld (rlog w) (<[l := df]> (heap w)) (page w)).
Proof. reflexivity. Qed.

Lemma bind_assoc {A B C} (m : M A) (f : A -> M B) (g : B -> M C) w :
  bind (bind m f) g w = bind m (fun a => bind (f a) g) w.
Proof. unfold bind. by destruct (m w) as [[a|e] w']. Qed.

(** A feasible run, end to end.  When the guards pass and the estimator
    hands back a weights table and a fit table on which the derivation, the
    chart input, the statistics text and the export succeed, the page shows
    the three information lines, the success message, the heading, the
    figure, the download button and the balloons; the figure and the export
    are computed from the derived table, which has replaced the received
    weights table at its location. *)
Lemma feasible_run ss prefix_path target_name left_pops right_pops w
    items wdf rdf wdf' pv xv pie text csv :
  env_ready ss = true ->
  truthy prefix_path = true ->
  truthy target_name = true ->
  truthy left_pops = true ->
  truthy right_pops = true ->
  estimator_returns R (rlog w) prefix_path target_name left_pops right_pops items ->
  assoc (lit "weights") items = Some (Some wdf) ->
  assoc (lit "rankdrop") items = Some (Some rdf) ->
  fit_table rdf pv xv ->
  derive_zscore wdf = Ok wdf' ->
  pie_of wdf' = Ok pie ->
  stats_text float_repr wdf' pv xv = Ok text ->
  convert_df_to_csv float_repr linesep wdf' rdf = Ok csv ->
  exists l,
    (heap w ++ omap snd items) !! l = Some wdf
    /\ start_analysis float_repr linesep R ss (Some prefix_path) target_name
         left_pops right_pops w
       = (Ok tt,
          mkWorld (rlog w ++ analysis_calls prefix_path target_name left_pops right_pops)
            (<[l := wdf']> (heap w ++ omap snd items))
            (page w ++ [ st_info (lit "Target: " ++ target_name);
                         st_info_list (lit "Sources (Left): ") left_pops;
                         st_info_list (lit "Outgroups (Right): ") right_pops;
                         st_success (lit "Analysis complete!");
                         st_header (lit "3. Analysis Result");
                         st_pyplot (mkFigure pie text (lit "Target: " ++ target_name));
                         st_download_button (lit "Download full result as CSV") csv
                           (lit "results_" ++ target_name ++ lit ".csv") (lit "text/csv");
                         st_balloons ])).
Proof.
  intros He Hp Ht Hl Hr Hest Hw Hrd [[prest Hpv] [xrest Hxv]] Hd Hpie Htext Hcsv.
  destruct (converted_some items (heap w) _ wdf Hw) as (wl & Hwl & _ & Hhw).
  destruct (converted_some items (heap w) _ rdf Hrd) as (rl & Hrl & _ & Hhr).
  assert (Hne : wl <> rl) by (eapply converted_distinct; [|exact Hwl|exact Hrl]; done).
  exists wl. split; [done|].
  unfold start_analysis. rewrite He. cbn [negb prefix_defined].
  rewrite Hp, Ht, Hl, Hr. cbn [negb orb default from_option]. unfold id.
  rewrite !bind_emit. cbn [rlog heap page].
  unfold try_except, analysis. cbv zeta.
  match goal with |- context [bind (r_getitem R _) ?k] =>
    match goal with |- context [bind (r_call R (RAssign (lit "prefix") _)) _ ?w3] =>
      rewrite (analysis_calls_run prefix_path target_name left_pops right_pops
                 items w3 k Hest)
    end
  end.
  cbn [rlog heap page].
  unfold bind at 1, item. rewrite Hwl. unfold ret at 1.
  unfold bind at 1. rewrite Hrl. unfold ret at 1.
  unfold report. rewrite !bind_emit. cbn [rlog heap page].
  unfold column_of. rewrite bind_assoc, (bind_load rl rdf) by done.
  unfold getcol. rewrite Hpv, bind_lift. cbn [iloc0]. rewrite bind_lift.
  rewrite bind_assoc, (bind_load rl rdf) by done.
  rewrite Hxv, bind_lift. cbn [iloc0]. rewrite bind_lift.
  unfold derive_step. rewrite !bind_assoc, (bind_load wl wdf) by done.
  rewrite Hd, bind_assoc, bind_lift, bind_store. cbn [rlog heap page].
  assert (Hwl' : <[wl := wdf']> (heap w ++ omap snd items) !! wl = Some wdf').
  { apply list_lookup_insert_eq. by eapply lookup_lt_Some. }
  assert (Hrl' : <[wl := wdf']> (heap w ++ omap snd items) !! rl = Some rdf).
  { by rewrite list_lookup_insert_ne. }
  rewrite (bind_load wl wdf') by done.
  rewrite Hpie, bind_lift, Htext, bind_lift, bind_emit. cbn [rlog heap page].
  rewrite (bind_load wl wdf') by done.
  unfold frame_of. rewrite (bind_load rl rdf) by done.
  rewrite Hcsv, bind_lift, bind_emit. cbn [rlog heap page].
  unfold emit. cbn [rlog heap page]. by rewrite <- !app_assoc.
Qed.

(** Start-up records a failed library load in the session state. *)
Lemma startup_records_failure fs d ss w :
  r_env_setup_minimal ss = None ->
  temp_dir fs = Ok d ->
  R (rlog w ++ [REval (lit "library(admixtools)")]) = RFails ->
  exists w', startup R fs ss w = (Ok (mkSession (Some false)), w')
             /\ rlog w' = rlog w ++ [REval (lit "library(admixtools)")].
Proof.
  intros Hk Hd Hf. unfold startup. rewrite Hk, Hd.
  unfold bind at 1, lift.
  unfold try_except, bind at 1, r_call. rewrite Hf.
  unfold bind, emit, ret. cbn. eauto.
Qed.


End Runs.

Lemma null_weights_infeasible_witness :
  start_analysis repr_fixed12 [10%N] (R_fixed infeasible_items)
    (mkSession (Some true)) (Some (lit "data/v54")) (lit "T")
    [lit "A"; lit "B"] [lit "X"] empty_world
  = (Ok tt,
     mkWorld (analysis_calls (lit "data/v54") (lit "T") [lit "A"; lit "B"] [lit "X"])
       [sample_rankdrop]
       [ st_info (lit "Target: " ++ lit "T");
         st_info_list (lit "Sources (Left): ") [lit "A"; lit "B"];
         st_info_list (lit "Outgroups (Right): ") [lit "X"];
         st_error msg_infeasible ]).
Proof.
  apply (null_weights_infeasible repr_fixed12 [10%N] (R_fixed infeasible_items)
           (mkSession (Some true)) (lit "data/v54") (lit "T")
           [lit "A"; lit "B"] [lit "X"] empty_world infeasible_items
           (Some sample_rankdrop));
    try reflexivity.
  vm_compute. repeat split; discriminate.
Defined.

(** C5, as the claim has it, fails: a result whose [weights] entry is [None]
    and which has no [rankdrop] entry does not give the message that no
    feasible model was found.  Line 145 reads [result['rankdrop']] before
    line 147 looks at the weights, so the run ends in the handler of lines
    209-211, with the critical-error message and the [KeyError]. *)
Lemma null_weights_without_rankdrop :
  assoc (lit "weights") bare_items = Some None
  /\ exists w',
       start_analysis repr_fixed12 [10%N] (R_fixed bare_items)
         (mkSession (Some true)) (Some (lit "data/v54")) (lit "T")
         [lit "A"; lit "B"] [lit "X"] empty_world
       = (Ok tt, w')
       /\ page w'
          = [ st_info (lit "Target: " ++ lit "T");
              st_info_list (lit "Sources (Left): ") [lit "A"; lit "B"];
              st_info_list (lit "Outgroups (Right): ") [lit "X"];
              st_error msg_critical;
              st_exception (KeyError (lit "rankdrop")) ]
       /\ (st_error msg_infeasible ∉ page w').
Proof.
  split; [reflexivity|]. eexists. split; [vm_compute; reflexivity|].
  split; [reflexivity|].
  cbn [page]. intros H.
  repeat (apply elem_of_cons in H as [H|H]; [vm_compute in H; discriminate H|]).
  by apply elem_of_nil in H.
Qed.

Lemma guards_reject_iff_incomplete_witness :
  let w' := (start_analysis repr_fixed12 [10%N] (R_fixed sample_items)
               (mkSession (Some true)) (Some (lit "data/v54")) (lit "T")
               [lit "A"; lit "B"] [] empty_world).2 in
  (incomplete (Some (lit "data/v54")) (lit "T") [lit "A"; lit "B"] [] ->
     heap w' = heap empty_world
     /\ exists msg, page w' = page empty_world ++ [st_error msg]
                    /\ (msg = msg_no_prefix \/ msg = msg_incomplete))
  /\ (~ incomplete (Some (lit "data/v54")) (lit "T") [lit "A"; lit "B"] [] ->
       exists p rest, Some (lit "data/v54") = Some p
         /\ rlog w' = rlog empty_world ++ RAssign (lit "prefix") p :: rest)
  /\ (rlog w' = rlog empty_world
       <-> incomplete (Some (lit "data/v54")) (lit "T") [lit "A"; lit "B"] []).
Proof.
  apply (guards_reject_iff_incomplete repr_fixed12 [10%N] (R_fixed sample_items)
           (mkSession (Some true)) (Some (lit "data/v54")) (lit "T")
           [lit "A"; lit "B"] [] empty_world).
  reflexivity.
Defined.

(** C4, as the claim has it, fails: with the R environment not initialised
    a request with all four parts present is turned down before any call to
    the estimator. *)
Lemma complete_request_rejected :
  let w' := (start_analysis repr_fixed12 [10%N] (R_fixed sample_items)
               (mkSession (Some false)) (Some (lit "data/v54")) (lit "T")
               [lit "A"; lit "B"] [lit "X"] empty_world).2 in
  ~ (rlog w' = rlog empty_world
     <-> incomplete (Some (lit "data/v54")) (lit "T") [lit "A"; lit "B"] [lit "X"]).
Proof.
  intros w' [H _].
  assert (Hi : incomplete (Some (lit "data/v54")) (lit "T") [lit "A"; lit "B"] [lit "X"])
    by (apply H; reflexivity).
  destruct Hi as [Hi|[Hi|[Hi|Hi]]]; vm_compute in Hi; discriminate.
Qed.



(** ** Predefined lists *)

Lemma lstrip_blank (s : str) :
  Forall (fun c => isspace c = true) s -> lstrip s = [].
Proof.
  induction 1 as [|c s Hc _ IH]; [done|]. cbn [lstrip]. by rewrite Hc.
Qed.

Lemma strip_blank (s : str) :
  Forall (fun c => isspace c = true) s -> strip s = [].
Proof. intros H. unfold strip, rstrip. by rewrite (lstrip_blank s H). Qed.

Lemma lstrip_subset (s : str) c : c ∈ lstrip s -> c ∈ s.
Proof.
  induction s as [|d s IH]; [done|]. cbn [lstrip].
  destruct (isspace d); [|done]. intros H. right. by apply IH.
Qed.

Lemma elem_of_rev {A} (l : list A) x : x ∈ rev l <-> x ∈ l.
Proof. rewrite !list_elem_of_In. symmetry. apply List.in_rev. Qed.

Lemma strip_subset (s : str) c : c ∈ strip s -> c ∈ s.
Proof.
  unfold strip, rstrip. rewrite elem_of_rev. intros H.
  apply lstrip_subset in H. rewrite elem_of_rev in H.
  by apply lstrip_subset.
Qed.

Lemma split_nonempty sep (s : str) : split sep s <> [].
Proof.
  induction s as [|c s IH]; cbn [split]; [done|].
  destruct (c =? sep)%N; [done|]. by destruct (split sep s).
Qed.

(** The pieces of a split are made of the characters of the string other
    than the separator. *)
Lemma split_pieces sep (s : str) piece c :
  piece ∈ split sep s -> c ∈ piece -> c ∈ s /\ c <> sep.
Proof.
  revert piece. induction s as [|d s IH]; intros piece; cbn [split].
  - intros ->%list_elem_of_singleton. by intros ?%elem_of_nil.
  - destruct (N.eqb_spec d sep) as [->|Hd].
    + intros [->|Hp]%elem_of_cons; [by intros ?%elem_of_nil|].
      intros Hc. destruct (IH _ Hp Hc). split; [by right|done].
    + destruct (split sep s) as [|w ws] eqn:Hs; [by destruct (split_nonempty sep s)|].
      intros [->|Hp]%elem_of_cons.
      * intros [->|Hc]%elem_of_cons; [split; [by left|done]|].
        destruct (IH w) as [? ?]; [by left|done|]. split; [by right|done].
      * intros Hc. destruct (IH _ (list_elem_of_further _ _ _ Hp) Hc).
        split; [by right|done].
Qed.

Lemma split1_first sep (a b : str) :
  sep ∉ a -> split1 sep (a ++ sep :: b) = (a, Some b).
Proof.
  induction a as [|c a IH]; intros Hn; cbn [split1 app].
  - by rewrite N.eqb_refl.
  - apply not_elem_of_cons in Hn as [Hc Ha].
    destruct (N.eqb_spec c sep); [congruence|]. by rewrite IH.
Qed.

Lemma contains_middle sep (a b : str) : contains sep (a ++ sep :: b) = true.
Proof.
  unfold contains. rewrite existsb_app. cbn. rewrite N.eqb_refl.
  by rewrite orb_true_r.
Qed.

(** A population section made of commas and white space parses to a
    non-empty list of empty names. *)
Lemma blank_section_pops (pops_str : str) :
  Forall (fun c => c = comma \/ isspace c = true) pops_str ->
  let pops := List.map strip (split comma (strip pops_str)) in
  pops <> [] /\ Forall (fun p => p = []) pops.
Proof.
  intros Hb. cbv zeta. split.
  - intros H. apply (split_nonempty comma (strip pops_str)).
    by destruct (split comma (strip pops_str)).
  - apply Forall_forall. intros p Hp.
    apply list_elem_of_In, List.in_map_iff in Hp as (piece & <- & Hpiece).
    apply list_elem_of_In in Hpiece.
    apply strip_blank, Forall_forall. intros c Hc.
    destruct (split_pieces _ _ _ _ Hpiece Hc) as [Hin Hne].
    apply strip_subset in Hin.
    rewrite Forall_forall in Hb. destruct (Hb c Hin); [done|done].
Qed.

(** The last line of a file is parsed on top of the lines before it. *)
Lemma load_predefined_lists_snoc (lines : list str) (line : str) :
  load_predefined_lists (Some (lines ++ [line]))
  = predefined_line (load_predefined_lists (Some lines)) line.
Proof. unfold load_predefined_lists. by rewrite fold_left_app. Qed.

(** C9.  For a line of a predefined-list file that reads, once stripped,
    [name:rest] with [rest] made only of commas and white space, the loop
    body maps the stripped name to a non-empty list whose elements are all
    the empty string; and a request that has this list as its left or as
    its right list, with the other parts present, is not turned down by the
    guards but goes on to the estimator. *)
Theorem blank_predefined_list (lists : gmap str (list str)) (line name pops_str : str) :
  strip line = name ++ colon :: pops_str ->
  colon ∉ name ->
  Forall (fun c => c = comma \/ isspace c = true) pops_str ->
  exists pops,
    predefined_line lists line !! strip name = Some pops
    /\ pops <> []
    /\ Forall (fun p => p = []) pops
    /\ (forall float_repr linesep R ss p target_name other w,
          env_ready ss = true -> truthy p = true ->
          truthy target_name = true -> truthy other = true ->
          ~ incomplete (Some p) target_name pops other
          /\ ~ incomplete (Some p) target_name other pops
          /\ (exists rest,
                rlog (start_analysis float_repr linesep R ss (Some p) target_name
                        pops other w).2
                = rlog w ++ RAssign (lit "prefix") p :: rest)
          /\ (exists rest,
                rlog (start_analysis float_repr linesep R ss (Some p) target_name
                        other pops w).2
                = rlog w ++ RAssign (lit "prefix") p :: rest)).
Proof.
  intros Hline Hname Hblank.
  destruct (blank_section_pops pops_str Hblank) as [Hne Hall].
  exists (List.map strip (split comma (strip pops_str))).
  split; [|split; [done|split; [done|]]].
  - unfold predefined_line. rewrite Hline, contains_middle, split1_first by done.
    assert (truthy (name ++ colon :: pops_str) = true) as -> by by destruct name.
    cbn [andb]. apply lookup_insert_eq.
  - intros float_repr linesep R ss p target_name other w He Hp Ht Ho.
    assert (Hpops : truthy (List.map strip (split comma (strip pops_str))) = true).
    { by destruct (List.map strip (split comma (strip pops_str))). }
    split; [|split; [|split]].
    + rewrite incomplete_iff. cbn [prefix_defined]. intros [?|[?|[?|?]]]; congruence.
    + rewrite incomplete_iff. cbn [prefix_defined]. intros [?|[?|[?|?]]]; congruence.
    + by apply complete_request_proceeds.
    + by apply complete_request_proceeds.
Qed.

Lemma blank_predefined_list_witness :
  exists pops,
    predefined_line ∅ (lit "  Steppe : , ,  ") !! strip (lit "Steppe ") = Some pops
    /\ pops <> []
    /\ Forall (fun p => p = []) pops
    /\ (forall float_repr linesep R ss p target_name other w,
          env_ready ss = true -> truthy p = true ->
          truthy target_name = true -> truthy other = true ->
          ~ incomplete (Some p) target_name pops other
          /\ ~ incomplete (Some p) target_name other pops
          /\ (exists rest,
                rlog (start_analysis float_repr linesep R ss (Some p) target_name
                        pops other w).2
                = rlog w ++ RAssign (lit "prefix") p :: rest)
          /\ (exists rest,
                rlog (start_analysis float_repr linesep R ss (Some p) target_name
                        other pops w).2
                = rlog w ++ RAssign (lit "prefix") p :: rest)).
Proof.
  apply (blank_predefined_list ∅ (lit "  Steppe : , ,  ") (lit "Steppe ")
           (lit " , ,")).
  - reflexivity.
  - vm_compute. intros H. repeat (apply elem_of_cons in H as [H|H]; [discriminate|]).
    by apply elem_of_nil in H.
  - repeat (apply Forall_cons; split;
              [first [left; reflexivity | right; reflexivity]|]).
    apply Forall_nil. done.
Defined.

(** The line [name:] of the claim: the name is mapped to the list holding
    one empty string. *)
Example predefined_line_name_colon :
  predefined_line ∅ (lit "name:") = {[ lit "name" := [[]] ]}.
Proof. reflexivity. Qed.

(** ** Population names in the text sent to R *)

Lemma strip_prefix_app (pre s : str) : strip_prefix pre (pre ++ s) = Some s.
Proof.
  induction pre as [|a pre IH]; cbn [strip_prefix app]; [by destruct s|].
  by rewrite N.eqb_refl.
Qed.

Lemma r_string_body_quoted (p rest : str) :
  backslash ∉ p ->
  r_string_body (replace dquote [backslash; dquote] p ++ dquote :: rest)
  = LString p rest.
Proof.
  unfold replace. induction p as [|c p IH]; intros Hp.
  - reflexivity.
  - apply not_elem_of_cons in Hp as [Hc Hp]. specialize (IH Hp).
    cbn [flat_map]. destruct (N.eqb_spec c dquote) as [->|Hq].
    + cbn [app r_string_body]. change (92 =? 34)%N with false.
      change (92 =? 92)%N with true. cbn iota.
      change (r_escape dquote) with (Some (Some dquote)). cbn iota.
      by rewrite IH.
    + cbn [app r_string_body].
      destruct (N.eqb_spec c 34); [done|].
      destruct (N.eqb_spec c 92); [done|]. by rewrite IH.
Qed.

Lemma r_vector_cons (p : str) (ps : list str) :
  r_vector (p :: ps)
  = r_quote p ++ match ps with [] => [] | _ => lit ", " ++ r_vector ps end.
Proof.
  unfold r_vector. destruct ps; cbn [List.map join]; [by rewrite app_nil_r|done].
Qed.

Lemma r_args_vector (fuel : nat) (pops : list str) (blank : bool) :
  pops <> [] ->
  (length pops <= fuel)%nat ->
  Forall (fun p => backslash ∉ p) pops ->
  r_args fuel ((if blank then [32%N] else []) ++ r_vector pops ++ [41%N])
  = Parsed pops.
Proof.
  revert fuel blank. induction pops as [|p ps IH]; intros fuel blank Hne Hlen Hall; [done|].
  apply Forall_cons in Hall as [Hp Hps].
  destruct fuel as [|fuel]; [cbn in Hlen; lia|].
  rewrite r_vector_cons. unfold r_quote.
  assert (Hskip : forall t, r_skip ((if blank then [32%N] else []) ++ dquote :: t) = dquote :: t)
    by (intros t; destruct blank; reflexivity).
  cbn [r_args]. rewrite <- !app_assoc. cbn [app]. rewrite Hskip.
  change (dquote =? 34)%N with true. cbn iota.
  rewrite r_string_body_quoted by done.
  destruct ps as [|q ps].
  - reflexivity.
  - change (r_skip ((lit ", " ++ r_vector (q :: ps)) ++ [41%N]))
      with (44%N :: [32%N] ++ r_vector (q :: ps) ++ [41%N]).
    change (44 =? 44)%N with true. cbn iota.
    rewrite (IH fuel true); [done|done| |done].
    cbn [length] in Hlen |- *. lia.
Qed.

Lemma r_vector_length (pops : list str) : (length pops <= length (r_vector pops))%nat.
Proof.
  induction pops as [|p ps IH]; [done|]. rewrite r_vector_cons.
  unfold r_quote. rewrite !length_app. cbn [length].
  destruct ps; [cbn; lia|]. rewrite length_app. cbn [length] in *. lia.
Qed.

(** X14.  Names without a backslash, with or without double quotes, reach R as
    they are. *)
Lemma r_vector_round_trip (var : str) (pops : list str) :
  Forall (fun p => backslash ∉ p) pops ->
  r_read_vector var (var ++ lit " = c(" ++ r_vector pops ++ lit ")") = Parsed pops.
Proof.
  intros Hall. unfold r_read_vector. rewrite app_assoc, strip_prefix_app.
  destruct pops as [|p ps]; [reflexivity|].
  assert (Hhead : exists t, r_vector (p :: ps) ++ lit ")" = dquote :: t /\ t <> [])
    by (rewrite r_vector_cons; unfold r_quote; cbn [app]; eexists; split;
        [reflexivity|by destruct (replace _ _ p)]).
  destruct Hhead as (t & Ht & Hne). rewrite Ht.
  change (r_skip (dquote :: t)) with (dquote :: t).
  destruct t as [|c t]; [done|]. rewrite <- Ht.
  apply (r_args_vector _ (p :: ps) false); [done| |done].
  rewrite length_app. pose proof (r_vector_length (p :: ps)). lia.
Qed.

(** C7 fails on the code.  For the name made of a backslash followed by a
    double quote, only the quote is escaped: the literal sent to R holds two
    backslashes, which R reads as one escaped backslash, then a quote, which
    ends the literal, and the closing quote after it makes the call a syntax
    error. *)
Theorem backslash_quote_breaks_call :
  let name := [backslash; dquote] in
  analysis_calls (lit "data/v54") (lit "T") [name] [lit "X"] !! 2%nat
  = Some (REval (lit "left = c(" ++ [34; 92; 92; 34; 34; 41]%N))
  /\ r_read_vector (lit "left") (lit "left = c(" ++ r_vector [name] ++ lit ")")
     = Broken.
Proof. split; reflexivity. Qed.

(** ** Fixed-point formatting *)

Lemma isdigit_digit (d : Z) : isdigit (digit d) = true.
Proof.
  unfold isdigit, digit. pose proof (Z.mod_pos_bound d 10 eq_refl).
  apply andb_true_iff. split; apply N.leb_le; lia.
Qed.

Lemma digitsN_length k n : length (digitsN k n) = k.
Proof.
  revert n. induction k as [|k IH]; intros n; cbn [digitsN]; [done|].
  rewrite length_app, IH. cbn. lia.
Qed.

Lemma digitsN_digits k n : forallb isdigit (digitsN k n) = true.
Proof.
  revert n. induction k as [|k IH]; intros n; cbn [digitsN]; [done|].
  rewrite forallb_app, IH. cbn. by rewrite isdigit_digit.
Qed.

Lemma digits_fuel_digits fuel n acc :
  forallb isdigit acc = true -> forallb isdigit (digits_fuel fuel n acc) = true.
Proof.
  revert n acc. induction fuel as [|fuel IH]; intros n acc Hacc; cbn [digits_fuel]; [done|].
  destruct (n <? 10).
  - cbn. by rewrite isdigit_digit.
  - apply IH. cbn. by rewrite isdigit_digit.
Qed.

Lemma digits_fuel_nonempty fuel n acc :
  (fuel <> 0)%nat \/ acc <> [] -> digits_fuel fuel n acc <> [].
Proof.
  revert n acc. induction fuel as [|fuel IH]; intros n acc H; cbn [digits_fuel].
  - by destruct H.
  - destruct (n <? 10); [done|]. apply IH. by right.
Qed.

Lemma digits_digits n : forallb isdigit (digits n) = true.
Proof. by apply digits_fuel_digits. Qed.

Lemma digits_nonempty n : digits n <> [].
Proof. apply digits_fuel_nonempty. by left. Qed.

Lemma split1_absent sep (a : str) : sep ∉ a -> split1 sep a = (a, None).
Proof.
  induction a as [|c a IH]; intros Hn; cbn [split1]; [done|].
  apply not_elem_of_cons in Hn as [Hc Ha].
  destruct (N.eqb_spec c sep); [congruence|]. by rewrite IH.
Qed.

Lemma digits_no_point (l : str) : forallb isdigit l = true -> 46%N ∉ l.
Proof.
  intros H Hin. rewrite forallb_forall in H.
  apply list_elem_of_In, H in Hin. done.
Qed.

Lemma decimal_places_fixed_point p s q :
  decimal_places (fixed_point (S p) s q) = Some (S p).
Proof.
  unfold fixed_point.
  set (ip := digits (q / 10 ^ Z.of_nat (S p))).
  set (frac := digitsN (S p) (q mod 10 ^ Z.of_nat (S p))).
  assert (Hip : forallb isdigit ip = true) by apply digits_digits.
  assert (Hne : ip <> []) by apply digits_nonempty.
  assert (Hbody : decimal_places (ip ++ lit "." ++ frac) = Some (S p)).
  { unfold decimal_places.
    assert ((match ip ++ lit "." ++ frac with
             | c :: s' => if (c =? 45)%N then s' else ip ++ lit "." ++ frac
             | [] => []
             end) = ip ++ 46%N :: frac) as ->.
    { destruct ip as [|c ip']; [done|]. cbn [app].
      cbn in Hip. apply andb_true_iff in Hip as [Hc _].
      destruct (N.eqb_spec c 45) as [->|]; [done|done]. }
    rewrite split1_first by by apply digits_no_point.
    rewrite Hip. unfold frac. rewrite digitsN_digits, digitsN_length.
    by destruct ip. }
  destruct s; [|exact Hbody].
  unfold decimal_places in *. cbn [sign_str lit app List.map list_ascii_of_string].
  change (N_of_ascii "-" =? 45)%N with true. cbn iota.
  destruct ip as [|c ip']; [done|].
  cbn [app] in Hbody. cbn in Hip. apply andb_true_iff in Hip as [Hc _].
  destruct (N.eqb_spec c 45) as [->|]; [done|]. exact Hbody.
Qed.

(** A finite float printed with [p+1] places has [p+1] digits after the
    point. *)
Lemma format_f_places p (x : float) :
  isfinite x = true -> decimal_places (format_f (S p) x) = Some (S p).
Proof.
  destruct x; cbn [isfinite format_f]; intros H; try done;
    apply decimal_places_fixed_point.
Qed.

(** The scaled integer that [format_f] prints is the nearest integer to
    [m * 2^e * 10^p]: the two differ by at most one half. *)
Lemma round_half_even_close (num den : Z) :
  0 < den -> 2 * Z.abs (round_half_even num den * den - num) <= den.
Proof.
  intros Hden. unfold round_half_even.
  pose proof (Z.div_mod num den ltac:(lia)) as Hdm.
  pose proof (Z.mod_pos_bound num den Hden) as Hmod.
  destruct (Z.compare_spec (2 * (num mod den)) den) as [Heq|Hlt|Hgt].
  - destruct (Z.even (num / den)); nia.
  - nia.
  - nia.
Qed.

Lemma scaled_close (p : nat) (m : positive) (e : Z) :
  e < 0 ->
  2 * Z.abs (scaled p m e * 2 ^ (- e) - Z.pos m * 10 ^ Z.of_nat p) <= 2 ^ (- e).
Proof.
  intros He. unfold scaled. destruct (Z.leb_spec 0 e); [lia|].
  apply round_half_even_close. apply Z.pow_pos_nonneg; lia.
Qed.

Lemma round_half_even_tie (num den : Z) :
  0 < den ->
  2 * Z.abs (round_half_even num den * den - num) = den ->
  Z.even (round_half_even num den) = true.
Proof.
  intros Hden. unfold round_half_even.
  pose proof (Z.div_mod num den ltac:(lia)) as Hdm.
  pose proof (Z.mod_pos_bound num den Hden) as Hmod.
  destruct (Z.compare_spec (2 * (num mod den)) den) as [Heq|Hlt|Hgt].
  - intros _. destruct (Z.even (num / den)) eqn:He; [done|].
    rewrite Z.even_add, He. reflexivity.
  - intros H. exfalso. nia.
  - intros H. exfalso. nia.
Qed.

Lemma round_half_even_nonneg (num den : Z) :
  0 <= num -> 0 < den -> 0 <= round_half_even num den.
Proof.
  intros Hn Hd. unfold round_half_even.
  pose proof (Z.div_pos num den Hn Hd).
  destruct (2 * (num mod den) ?= den); [destruct (Z.even _)| |]; lia.
Qed.

Lemma scaled_nonneg (p : nat) (m : positive) (e : Z) : 0 <= scaled p m e.
Proof.
  unfold scaled. destruct (Z.leb_spec 0 e).
  - pose proof (Z.pow_nonneg 2 e). pose proof (Z.pow_nonneg 10 (Z.of_nat p)). nia.
  - apply round_half_even_nonneg.
    + pose proof (Z.pow_nonneg 10 (Z.of_nat p)). nia.
    + apply Z.pow_pos_nonneg; lia.
Qed.

(** The scaled integer is the nearest one, ties going to the even one. *)
Lemma scaled_nearest (p : nat) (m : positive) (e : Z) :
  nearest_even (scaled p m e) p m e.
Proof.
  unfold nearest_even, scaled. cbv zeta. destruct (Z.leb_spec 0 e) as [He|He].
  - rewrite (Z.max_l e 0), (Z.max_r (- e) 0) by lia.
    change (2 ^ 0) with 1. split; [lia|lia].
  - rewrite (Z.max_r e 0), (Z.max_l (- e) 0) by lia.
    change (2 ^ 0) with 1. rewrite Z.mul_1_r.
    assert (Hden : 0 < 2 ^ (- e)) by (apply Z.pow_pos_nonneg; lia).
    split; [by apply round_half_even_close|by apply round_half_even_tie].
Qed.

(** At most one integer is nearest in that sense. *)
Lemma nearest_even_unique (q q' : Z) (p : nat) (m : positive) (e : Z) :
  nearest_even q p m e -> nearest_even q' p m e -> q = q'.
Proof.
  unfold nearest_even. cbv zeta.
  set (num := Z.pos m * 2 ^ Z.max e 0 * 10 ^ Z.of_nat p).
  set (den := 2 ^ Z.max (- e) 0).
  assert (Hden : 0 < den) by (apply Z.pow_pos_nonneg; lia).
  clearbody num den. intros [H1 E1] [H2 E2].
  assert (Hd : q = q' \/ q = q' + 1 \/ q' = q + 1) by nia.
  destruct Hd as [Hd|[Hd|Hd]]; [done| |]; exfalso.
  - assert (2 * Z.abs (q * den - num) = den) as Ha by nia.
    assert (2 * Z.abs (q' * den - num) = den) as Hb by nia.
    apply E1 in Ha. apply E2 in Hb. subst q.
    rewrite Z.even_add, Hb in Ha. discriminate Ha.
  - assert (2 * Z.abs (q * den - num) = den) as Ha by nia.
    assert (2 * Z.abs (q' * den - num) = den) as Hb by nia.
    apply E1 in Ha. apply E2 in Hb. subst q'.
    rewrite Z.even_add, Ha in Hb. discriminate Hb.
Qed.

(** *** Reading the printed digits back *)

Lemma digits_value_acc (s : str) (a : Z) :
  fold_left (fun a c => 10 * a + (Z.of_N c - 48)) s a
  = a * 10 ^ Z.of_nat (length s) + digits_value s.
Proof.
  unfold digits_value. revert a.
  induction s as [|c s IH]; intros a; cbn [fold_left length].
  - change (10 ^ Z.of_nat 0) with 1. lia.
  - rewrite IH, (IH (10 * 0 + _)), Nat2Z.inj_succ, Z.pow_succ_r by lia. ring.
Qed.

Lemma digits_value_app (a b : str) :
  digits_value (a ++ b) = digits_value a * 10 ^ Z.of_nat (length b) + digits_value b.
Proof.
  unfold digits_value at 1. rewrite fold_left_app. apply digits_value_acc.
Qed.

Lemma digit_value (d : Z) : Z.of_N (digit d) - 48 = d mod 10.
Proof.
  unfold digit. pose proof (Z.mod_pos_bound d 10 eq_refl). rewrite Z2N.id; lia.
Qed.

Lemma digitsN_value k n : digits_value (digitsN k n) = n mod 10 ^ Z.of_nat k.
Proof.
  revert n. induction k as [|k IH]; intros n; cbn [digitsN].
  - change (10 ^ Z.of_nat 0) with 1. by rewrite Z.mod_1_r.
  - rewrite digits_value_app, IH. cbn [length].
    change (digits_value [digit n]) with (10 * 0 + (Z.of_N (digit n) - 48)).
    change (10 ^ Z.of_nat 1) with 10.
    rewrite digit_value, (Nat2Z.inj_succ k), Z.pow_succ_r by lia.
    assert (HP : 0 < 10 ^ Z.of_nat k) by (apply Z.pow_pos_nonneg; lia).
    rewrite (Z.rem_mul_r n 10 (10 ^ Z.of_nat k)) by lia. lia.
Qed.

Lemma digits_fuel_value fuel n acc :
  0 <= n < 10 ^ Z.of_nat fuel ->
  digits_value (digits_fuel fuel n acc)
  = n * 10 ^ Z.of_nat (length acc) + digits_value acc.
Proof.
  revert n acc. induction fuel as [|fuel IH]; intros n acc Hn; cbn [digits_fuel].
  - change (10 ^ Z.of_nat 0) with 1 in Hn. assert (n = 0) as -> by lia. lia.
  - rewrite Nat2Z.inj_succ, Z.pow_succ_r in Hn by lia.
    assert (Hcons : digits_value (digit n :: acc)
                    = (n mod 10) * 10 ^ Z.of_nat (length acc) + digits_value acc).
    { change (digit n :: acc) with ([digit n] ++ acc). rewrite digits_value_app.
      change (digits_value [digit n]) with (10 * 0 + (Z.of_N (digit n) - 48)).
      rewrite digit_value. lia. }
    destruct (Z.ltb_spec n 10) as [Hlt|Hge].
    + rewrite Hcons, Z.mod_small by lia. done.
    + rewrite IH.
      * rewrite Hcons. cbn [length]. rewrite Nat2Z.inj_succ, Z.pow_succ_r by lia.
        pose proof (Z.div_mod n 10 ltac:(lia)). nia.
      * split; [apply Z.div_pos; lia|]. apply Z.div_lt_upper_bound; lia.
Qed.

Lemma digits_fuel_bound (n : Z) : 0 <= n -> n < 10 ^ Z.of_nat (S (Z.to_nat (Z.log2 n))).
Proof.
  intros Hn. rewrite Nat2Z.inj_succ, Z2Nat.id by apply Z.log2_nonneg.
  destruct (Z.eq_dec n 0) as [->|Hne]; [done|].
  pose proof (Z.log2_spec n ltac:(lia)) as [_ Hlt].
  eapply Z.lt_le_trans; [exact Hlt|].
  apply Z.pow_le_mono_l. lia.
Qed.

Lemma digits_value_digits (n : Z) : 0 <= n -> digits_value (digits n) = n.
Proof.
  intros Hn. unfold digits. rewrite digits_fuel_value.
  - cbn [length]. change (digits_value []) with 0. change (10 ^ Z.of_nat 0) with 1. lia.
  - split; [done|]. by apply digits_fuel_bound.
Qed.

Lemma digits_fuel_head fuel n acc :
  0 < n < 10 ^ Z.of_nat fuel ->
  exists d rest, digits_fuel fuel n acc = d :: rest /\ d <> 48%N.
Proof.
  revert n acc. induction fuel as [|fuel IH]; intros n acc Hn; cbn [digits_fuel].
  - change (10 ^ Z.of_nat 0) with 1 in Hn. lia.
  - rewrite Nat2Z.inj_succ, Z.pow_succ_r in Hn by lia.
    destruct (Z.ltb_spec n 10) as [Hlt|Hge].
    + exists (digit n), acc. split; [done|]. unfold digit.
      rewrite Z.mod_small by lia. lia.
    + apply IH. split.
      * apply Z.div_str_pos. lia.
      * apply Z.div_lt_upper_bound; lia.
Qed.

Lemma digits_canonical (n : Z) : 0 <= n -> canonical (digits n) = true.
Proof.
  intros Hn. destruct (Z.eq_dec n 0) as [->|Hne]; [done|].
  destruct (digits_fuel_head (S (Z.to_nat (Z.log2 n))) n []) as (d & rest & Hd & H48).
  { split; [lia|]. by apply digits_fuel_bound. }
  unfold digits. rewrite Hd. cbn [canonical].
  destruct rest; [done|]. by destruct (N.eqb_spec d 48).
Qed.

(** What [fixed_point] prints reads back as the scaled integer, the sign and
    the number of places. *)
Lemma decimal_value_fixed_point p s q :
  0 <= q -> decimal_value (fixed_point p s q) = Some (s, q, p).
Proof.
  intros Hq. unfold fixed_point.
  set (P := 10 ^ Z.of_nat p).
  assert (HP : 0 < P) by (apply Z.pow_pos_nonneg; lia).
  set (ip := digits (q / P)).
  assert (Hq' : 0 <= q / P) by (apply Z.div_pos; lia).
  assert (Hip : forallb isdigit ip = true) by apply digits_digits.
  assert (Hcan : canonical ip = true) by by apply digits_canonical.
  assert (Hval : digits_value ip = q / P) by by apply digits_value_digits.
  assert (Hne : ip <> []) by apply digits_nonempty.
  assert (Hhd : (match ip ++ [] with [] => true | _ => false end) = false)
    by by destruct ip.
  assert (Hsign : forall body : str,
    (match body with c :: _ => negb (c =? 45)%N | [] => true end) = true ->
    decimal_value (sign_str s ++ body)
    = match split1 46%N body with
      | (ip, Some frac) =>
          if canonical ip && forallb isdigit ip && truthy frac && forallb isdigit frac
          then Some (s, digits_value (ip ++ frac), length frac) else None
      | (ip, None) =>
          if canonical ip && forallb isdigit ip
          then Some (s, digits_value ip, 0%nat) else None
      end).
  { intros body Hb. unfold decimal_value. destruct s.
    - cbn [sign_str lit app List.map list_ascii_of_string].
      change (N_of_ascii "-" =? 45)%N with true. done.
    - cbn [sign_str app]. destruct body as [|c body]; [done|].
      by destruct (c =? 45)%N. }
  assert (Hbody : forall tl : str,
    (match ip ++ tl with c :: _ => negb (c =? 45)%N | [] => true end) = true).
  { intros tl. destruct ip as [|c ip']; [done|]. cbn [app].
    cbn in Hip. apply andb_true_iff in Hip as [Hc _].
    by destruct (N.eqb_spec c 45) as [->|]. }
  destruct p as [|p].
  - rewrite <- (app_nil_r ip) at 1. rewrite Hsign by apply Hbody.
    rewrite app_nil_r.
    assert (split1 46%N ip = (ip, None)) as ->.
    { apply split1_absent. by apply digits_no_point. }
    rewrite Hcan, Hip. cbn [andb]. rewrite Hval.
    subst P. change (10 ^ Z.of_nat 0) with 1. by rewrite Z.div_1_r.
  - set (frac := digitsN (S p) (q mod P)).
    change (lit "." ++ frac) with (46%N :: frac).
    rewrite Hsign by apply Hbody.
    rewrite split1_first by by apply digits_no_point.
    rewrite Hcan, Hip. unfold frac at 1 2. rewrite digitsN_digits.
    assert (Htr : truthy (digitsN (S p) (q mod P)) = true).
    { pose proof (digitsN_length (S p) (q mod P)) as Hl.
      by destruct (digitsN (S p) (q mod P)). }
    rewrite Htr. cbn [andb].
    rewrite digits_value_app, Hval. unfold frac.
    rewrite digitsN_length, digitsN_value. fold P.
    rewrite Z.mod_mod by lia.
    pose proof (Z.div_mod q P ltac:(lia)). do 2 f_equal. f_equal. lia.
Qed.

(** The numeral printed for a finite float reads back as its sign, the
    number of places asked for, and the integer nearest to the float's
    magnitude times [10^p]. *)
Lemma format_f_value p s m e :
  decimal_value (format_f p (S754_finite s m e)) = Some (s, scaled p m e, p).
Proof. cbn [format_f]. apply decimal_value_fixed_point, scaled_nonneg. Qed.

Lemma format_f_value_zero p s :
  decimal_value (format_f p (S754_zero s)) = Some (s, 0, p).
Proof. cbn [format_f]. by apply decimal_value_fixed_point. Qed.

(** ** Chart input and statistics text *)

Lemma assoc_map_values {V W} (f : V -> W) (k : str) (l : list (str * V)) :
  assoc k (List.map (fun '(n, c) => (n, f c)) l) = f <$> assoc k l.
Proof.
  induction l as [|[n c] l IH]; cbn; [done|].
  destruct (decide (n = k)); [done|]. apply IH.
Qed.

Lemma mask_filter_zip {A B C} (f : B -> bool) (g : A * B -> C) (h : A -> C)
    (xs : list A) (ys : list B) :
  length xs = length ys ->
  (forall x y, g (x, y) = h x) ->
  mask_filter (List.map f ys) (List.map h xs)
  = List.map g (List.filter (fun xy => f xy.2) (zip xs ys)).
Proof.
  intros Hlen Hg. revert ys Hlen.
  induction xs as [|x xs IH]; intros [|y ys] Hlen; try done.
  cbn. destruct (f y); cbn; rewrite IH by (cbn in Hlen; lia); by rewrite ?Hg.
Qed.

Lemma mask_filter_zip_snd {A B C} (f : B -> bool) (g : A * B -> C) (h : B -> C)
    (xs : list A) (ys : list B) :
  length xs = length ys ->
  (forall x y, g (x, y) = h y) ->
  mask_filter (List.map f ys) (List.map h ys)
  = List.map g (List.filter (fun xy => f xy.2) (zip xs ys)).
Proof.
  intros Hlen Hg. revert ys Hlen.
  induction xs as [|x xs IH]; intros [|y ys] Hlen; try done.
  cbn. destruct (f y); cbn; rewrite IH by (cbn in Hlen; lia); by rewrite ?Hg.
Qed.

Lemma getrow_str (df : DataFrame) name (xs : list str) i x :
  assoc name (columns df) = Some (List.map CStr xs) ->
  xs !! i = Some x ->
  getrow df i name = Ok (CStr x).
Proof.
  intros Hc Hx. unfold getrow. rewrite Hc, lookup_map, Hx. done.
Qed.

(** C3, as the code has it.  On a derived weights table, the data handed to
    the pie chart are the weights and the source names of exactly the rows
    whose weight is greater than 0, in row order; the statistics text is the
    p-value line and the chi-square line, both printed with the [.4f]
    format, the ruled heading, and then one line for every row of the table,
    whatever its weight, with the source name, the standard error times 100
    (the binary64 product) and the z-score, both printed with the [.2f]
    format.  What these formats print is fixed by reading it back: for a
    finite value [(-1)^s * m * 2^e] the text is the numeral with the sign
    [s], exactly 4 (or 2) digits after the point and no superfluous zero
    before it, whose digits write the integer nearest to [m * 2^e * 10^4]
    (or [10^2]), the even one at a tie; a zero is printed as 0.0000 (or
    0.00) with its sign; a NaN and the infinities are printed as the words
    nan, inf and -inf, without any decimals. *)
Theorem chart_and_statistics (float_repr : float -> str) (w : DataFrame)
    (names : list str) (ws ses zs : list float) (p x : float) :
  assoc (lit "left") (columns w) = Some (List.map CStr names) ->
  assoc (lit "weight") (columns w) = Some (List.map CNum ws) ->
  assoc (lit "se") (columns w) = Some (List.map CNum ses) ->
  assoc (lit "zscore") (columns w) = Some (List.map CNum zs) ->
  length names = nrows w ->
  length ws = nrows w ->
  length ses = nrows w ->
  length zs = nrows w ->
  let kept := List.filter (fun nw => fltb fzero nw.2) (zip names ws) in
  pie_of w = Ok (mkPie (List.map (fun nw => CNum nw.2) kept)
                       (List.map (fun nw => CStr nw.1) kept))
  /\ (exists lines,
        stats_text float_repr w (CNum p) (CNum x)
        = Ok (lit "P-Value: " ++ format_f 4 p ++ nl
              ++ chi_squared ++ lit ": " ++ format_f 4 x ++ nl
              ++ dashes
              ++ ljust 40 (lit "Source") ++ lit " | " ++ rjust 7 (lit "SE (%)")
                 ++ lit " | " ++ rjust 7 (lit "Z-score") ++ nl
              ++ dashes
              ++ List.concat lines)
        /\ length lines = nrows w
        /\ forall i name se z,
             names !! i = Some name -> ses !! i = Some se -> zs !! i = Some z ->
             lines !! i = Some (stats_line_of name se z))
  /\ (forall v, isfinite v = true ->
        decimal_places (format_f 4 v) = Some 4%nat
        /\ decimal_places (format_f 2 v) = Some 2%nat)
  /\ (forall (k : nat) s m e,
        exists q, decimal_value (format_f k (S754_finite s m e)) = Some (s, q, k)
                  /\ nearest_even q k m e)
  /\ (forall (k : nat) s, decimal_value (format_f k (S754_zero s)) = Some (s, 0, k))
  /\ (forall k : nat,
        format_f k S754_nan = lit "nan"
        /\ format_f k (S754_infinity false) = lit "inf"
        /\ format_f k (S754_infinity true) = lit "-inf").
Proof.
  intros Hleft Hweight Hse Hz Hln Hlw Hls Hlz kept.
  split; [|split].
  - unfold pie_of, plot_data, getcol. rewrite Hweight. cbn [rbind].
    rewrite (rmapM_map_ok cell_gt_zero CNum (fltb fzero)) by done.
    cbn [rbind]. unfold getitem_mask. cbn [columns].
    rewrite !assoc_map_values, Hweight, Hleft. cbn [fmap option_fmap option_map rbind].
    f_equal. f_equal.
    + apply (mask_filter_zip_snd (fltb fzero) (fun nw => CNum nw.2)); [lia|done].
    + apply (mask_filter_zip (fltb fzero) (fun nw => CStr nw.1)); [lia|done].
  - set (line := fun i => stats_line_of (default [] (names !! i))
                            (default fzero (ses !! i)) (default fzero (zs !! i))).
    exists (List.map line (seq 0 (nrows w))).
    split; [|split].
    + unfold stats_text, stats_head. cbn [format_4f rbind].
      unfold iterrows.
      rewrite (rmapM_map_ok (stats_line float_repr) (getrow w) line).
      * cbn [rbind]. by rewrite <- !app_assoc.
      * intros i Hi. apply list_elem_of_In, List.in_seq in Hi.
        destruct (lookup_lt_is_Some_2 names i) as [n Hn]; [lia|].
        destruct (lookup_lt_is_Some_2 ses i) as [se Hsi]; [lia|].
        destruct (lookup_lt_is_Some_2 zs i) as [z Hzi]; [lia|].
        unfold stats_line.
        rewrite (getrow_num w _ ses i se), (getrow_str w _ names i n),
          (getrow_num w _ zs i z) by done.
        cbn [rbind cell_times_100 format_2f format_left40].
        unfold line, stats_line_of. by rewrite Hn, Hsi, Hzi.
    + by rewrite length_map, length_seq.
    + intros i name se z Hn Hsi Hzi.
      rewrite lookup_map_seq by (apply lookup_lt_Some in Hn; lia).
      unfold line. by rewrite Hn, Hsi, Hzi.
  - split; [|split; [|split]].
    + intros v Hv. split; by apply format_f_places.
    + intros k s m e. exists (scaled k m e).
      split; [apply format_f_value|apply scaled_nearest].
    + intros k s. apply format_f_value_zero.
    + intros k. by destruct k.
Qed.

Example sample_derived_ok : derive_zscore sample_weights = Ok sample_derived.
Proof. reflexivity. Qed.

Lemma chart_and_statistics_witness :
  let names := [lit "A"; lit "B"; lit "C"] in
  let p := mkfloat 1 (-5) in
  let x := mkfloat 13 (-2) in
  let kept := List.filter (fun nw => fltb fzero nw.2) (zip names sample_ws) in
  pie_of sample_derived
  = Ok (mkPie (List.map (fun nw => CNum nw.2) kept)
              (List.map (fun nw => CStr nw.1) kept))
  /\ (exists lines,
        stats_text repr_fixed12 sample_derived (CNum p) (CNum x)
        = Ok (lit "P-Value: " ++ format_f 4 p ++ nl
              ++ chi_squared ++ lit ": " ++ format_f 4 x ++ nl
              ++ dashes
              ++ ljust 40 (lit "Source") ++ lit " | " ++ rjust 7 (lit "SE (%)")
                 ++ lit " | " ++ rjust 7 (lit "Z-score") ++ nl
              ++ dashes
              ++ List.concat lines)
        /\ length lines = nrows sample_derived
        /\ forall i name se z,
             names !! i = Some name -> sample_ses !! i = Some se ->
             sample_zs !! i = Some z ->
             lines !! i = Some (stats_line_of name se z))
  /\ (forall v, isfinite v = true ->
        decimal_places (format_f 4 v) = Some 4%nat
        /\ decimal_places (format_f 2 v) = Some 2%nat)
  /\ (forall (k : nat) s m e,
        exists q, decimal_value (format_f k (S754_finite s m e)) = Some (s, q, k)
                  /\ nearest_even q k m e)
  /\ (forall (k : nat) s, decimal_value (format_f k (S754_zero s)) = Some (s, 0, k))
  /\ (forall k : nat,
        format_f k S754_nan = lit "nan"
        /\ format_f k (S754_infinity false) = lit "inf"
        /\ format_f k (S754_infinity true) = lit "-inf").
Proof.
  apply (chart_and_statistics repr_fixed12 sample_derived
           [lit "A"; lit "B"; lit "C"] sample_ws sample_ses sample_zs);
    reflexivity.
Defined.

(** C3, as the claim has it, fails: a standard error that is NaN (and with it
    the z-score) is received like any other value, and its row line shows
    neither a percentage with 2 decimals nor a z-score with 2 decimals, but
    the word nan twice. *)
Lemma nan_row_without_decimals :
  let p := mkfloat 1 (-5) in
  let x := mkfloat 13 (-2) in
  derive_zscore
    (mkDF 2 [ (lit "target", List.map CStr [lit "T"; lit "T"]);
              (lit "left", List.map CStr [lit "A"; lit "B"]);
              (lit "weight", List.map CNum [mkfloat 3 (-2); mkfloat 1 (-2)]);
              (lit "se", List.map CNum [S754_nan; mkfloat 1 (-4)]) ])
  = Ok nan_derived
  /\ stats_text repr_fixed12 nan_derived (CNum p) (CNum x)
     = Ok (lit "P-Value: 0.0312" ++ nl
           ++ chi_squared ++ lit ": 3.2500" ++ nl
           ++ dashes
           ++ lit "Source                                   |  SE (%) | Z-score" ++ nl
           ++ dashes
           ++ lit "A                                        |    nan% |     nan" ++ nl
           ++ lit "B                                        |   6.25% |    4.00" ++ nl)
  /\ decimal_places (lit "nan") = None
  /\ decimal_value (lit "nan") = None.
Proof. vm_compute. repeat split; reflexivity. Qed.

(** On the sample table the pie gets sources A and B only; C, whose weight
    is negative, is left out of the pie but has its line in the text. *)
Example sample_pie :
  pie_of sample_derived
  = Ok (mkPie [CNum (mkfloat 3 (-2)); CNum (mkfloat 1 (-2))]
              [CStr (lit "A"); CStr (lit "B")]).
Proof. reflexivity. Qed.

(** ** Sorted distinct labels *)

Lemma str_compare_eq (a b : str) : str_compare a b = Eq <-> a = b.
Proof.
  revert b. induction a as [|x a IH]; intros [|y b]; cbn; try done.
  destruct (N.compare_spec x y) as [->|H|H].
  - rewrite IH. split; [by intros ->|by intros [= ->]].
  - split; [done|]. intros [= -> _]. lia.
  - split; [done|]. intros [= -> _]. lia.
Qed.

Lemma str_compare_antisym (a b : str) :
  str_compare b a = CompOpp (str_compare a b).
Proof.
  revert b. induction a as [|x a IH]; intros [|y b]; cbn; try done.
  rewrite (N.compare_antisym x y).
  destruct (x ?= y)%N; cbn; [apply IH|done|done].
Qed.

Lemma str_compare_trans (a b c : str) :
  str_compare a b = Lt -> str_compare b c = Lt -> str_compare a c = Lt.
Proof.
  revert b c. induction a as [|x a IH]; intros [|y b] [|z c]; cbn; try done.
  destruct (N.compare_spec x y) as [->|Hxy|Hxy]; [|intros _|done].
  - destruct (y ?= z)%N; [apply IH|done|done].
  - destruct (N.compare_spec y z) as [->|Hyz|Hyz]; [intros _|intros _|done].
    + by apply N.compare_lt_iff in Hxy as ->.
    + assert (x < z)%N as ->%N.compare_lt_iff by lia. done.
Qed.

Lemma elem_of_insert_uniq (x y : str) l :
  y ∈ insert_uniq x l <-> y = x \/ y ∈ l.
Proof.
  induction l as [|z l IH]; cbn [insert_uniq].
  - rewrite list_elem_of_singleton, elem_of_nil. tauto.
  - destruct (str_compare x z) eqn:Hc.
    + apply str_compare_eq in Hc as ->. rewrite elem_of_cons. tauto.
    + rewrite !elem_of_cons. tauto.
    + rewrite !elem_of_cons, IH. tauto.
Qed.

Lemma increasing_insert_uniq (x : str) l :
  increasing l -> increasing (insert_uniq x l).
Proof.
  induction l as [|z l IH]; cbn [insert_uniq increasing]; [done|].
  intros [Hz Hl]. destruct (str_compare x z) eqn:Hc.
  - done.
  - cbn [increasing]. split; [|done]. constructor; [done|].
    eapply Forall_impl; [exact Hz|]. intros y Hy. by eapply str_compare_trans.
  - cbn [increasing]. split; [|by apply IH].
    apply Forall_forall. intros y [->|Hy]%elem_of_insert_uniq.
    + rewrite str_compare_antisym, Hc. done.
    + rewrite Forall_forall in Hz. by apply Hz.
Qed.

Lemma increasing_NoDup l : increasing l -> NoDup l.
Proof.
  induction l as [|x l IH]; cbn [increasing]; [constructor|].
  intros [Hx Hl]. constructor; [|by apply IH].
  intros Hin. rewrite Forall_forall in Hx. specialize (Hx x Hin).
  assert (str_compare x x = Eq) by by apply str_compare_eq. congruence.
Qed.

Lemma elem_of_sort_uniq (x : str) l : x ∈ sort_uniq l <-> x ∈ l.
Proof.
  unfold sort_uniq. induction l as [|y l IH]; cbn [foldr]; [done|].
  rewrite elem_of_insert_uniq, IH, elem_of_cons. tauto.
Qed.

Lemma increasing_sort_uniq l : increasing (sort_uniq l).
Proof.
  unfold sort_uniq. induction l as [|y l IH]; cbn [foldr]; [done|].
  by apply increasing_insert_uniq.
Qed.

Lemma NoDup_sort_uniq l : NoDup (sort_uniq l).
Proof. apply increasing_NoDup, increasing_sort_uniq. Qed.

(** The sorted distinct labels are as many as the distinct labels. *)
Lemma length_sort_uniq (l : list str) :
  length (sort_uniq l) = length (remove_dups l).
Proof.
  apply Permutation_length, NoDup_Permutation.
  - apply NoDup_sort_uniq.
  - apply NoDup_remove_dups.
  - intros x. by rewrite elem_of_sort_uniq, elem_of_remove_dups.
Qed.

(** ** Floats: when a quotient is NaN *)

Lemma shr_1_nonneg mrs : 0 <= shr_m mrs -> 0 <= shr_m (shr_1 mrs).
Proof.
  destruct mrs as [m r s]. cbn [shr_m]. intros Hm. unfold shr_1.
  destruct m as [|[p|p|]|p]; cbn; lia.
Qed.

Lemma iter_pos_invariant {A} (P : A -> Prop) (f : A -> A) (n : positive) (x : A) :
  (forall a, P a -> P (f a)) -> P x -> P (SpecFloat.iter_pos f n x).
Proof.
  intros Hf. revert x. induction n as [n IH|n IH|]; intros x Hx; cbn; auto.
Qed.

Lemma shr_nonneg mrs e n : 0 <= shr_m mrs -> 0 <= shr_m (shr mrs e n).1.
Proof.
  intros H. unfold shr. destruct n; cbn [fst]; try done.
  apply (iter_pos_invariant (fun r => 0 <= shr_m r)); [apply shr_1_nonneg|done].
Qed.

Lemma shr_fexp_nonneg prec emax m e l :
  0 <= m -> 0 <= shr_m (shr_fexp prec emax m e l).1.
Proof.
  intros H. unfold shr_fexp. apply shr_nonneg. by destruct l as [|[]].
Qed.

Lemma binary_round_aux_not_nan prec emax sx mx ex lx :
  0 <= mx -> binary_round_aux prec emax sx mx ex lx <> S754_nan.
Proof.
  intros Hm. unfold binary_round_aux.
  pose proof (shr_fexp_nonneg prec emax mx ex lx Hm) as H1.
  destruct (shr_fexp prec emax mx ex lx) as [mrs' e']. cbn [fst] in H1.
  assert (H2 : 0 <= round_nearest_even (shr_m mrs') (loc_of_shr_record mrs')).
  { unfold round_nearest_even.
    destruct (loc_of_shr_record mrs') as [|[]]; try lia.
    destruct (Z.even (shr_m mrs')); lia. }
  pose proof (shr_fexp_nonneg prec emax _ e' loc_Exact H2) as H3.
  destruct (shr_fexp prec emax _ e' loc_Exact) as [mrs'' e'']. cbn [fst] in H3.
  destruct (shr_m mrs'') as [|m|m]; [done| |lia].
  by destruct (e'' <=? emax - prec).
Qed.

Lemma fdiv_finite_not_nan sx mx ex sy my ey :
  fdiv (S754_finite sx mx ex) (S754_finite sy my ey) <> S754_nan.
Proof.
  unfold fdiv, SFdiv.
  destruct (SFdiv_core_binary 53 1024 (Z.pos mx) ex (Z.pos my) ey)
    as [[mz ez] lz] eqn:Hcore.
  apply binary_round_aux_not_nan.
  unfold SFdiv_core_binary in Hcore.
  set (m' := match _ with Z0 => _ | Zpos _ => _ | Zneg _ => _ end) in Hcore.
  assert (Hm' : 0 <= m').
  { subst m'. match goal with |- 0 <= match ?s with _ => _ end => destruct s end;
      [lia| |lia]. apply Z.shiftl_nonneg. lia. }
  pose proof (Z.div_pos m' (Z.pos my) Hm' eq_refl) as Hq.
  unfold Z.div in Hq. destruct (Z.div_eucl m' (Z.pos my)) as [q r].
  by injection Hcore as <- _ _.
Qed.

(** A quotient of two floats is NaN only for a NaN operand, for two
    infinities or for two zeros. *)
Lemma fdiv_isnan (x y : float) :
  isnan (fdiv x y) = true ->
  isnan x = true \/ isnan y = true
  \/ (isfinite x = false /\ isfinite y = false)
  \/ (feqb x fzero = true /\ feqb y fzero = true).
Proof.
  destruct x as [sx|sx| |sx mx ex], y as [sy|sy| |sy my ey]; cbn; try tauto;
    try done.
  intros H. exfalso.
  pose proof (fdiv_finite_not_nan sx mx ex sy my ey) as Hn.
  unfold fdiv, SFdiv in Hn.
  by destruct (let '(mz, ez, lz) := SFdiv_core_binary 53 1024 (Z.pos mx) ex (Z.pos my) ey
               in binary_round_aux 53 1024 (xorb sx sy) mz ez lz).
Qed.

Lemma group_mean_single_eq (v : float) :
  isnan v = false ->
  group_mean [v] = fdiv (fadd fzero (fsub v fzero)) (float_of_nat 1).
Proof.
  intros Hv. unfold group_mean. cbn [fold_left]. unfold mean_step. by rewrite Hv.
Qed.

(** The mean of a single observation that is not NaN is not NaN. *)
Lemma group_mean_single (v : float) :
  isnan v = false -> isnan (group_mean [v]) = false.
Proof.
  intros Hv. rewrite group_mean_single_eq by done.
  change (float_of_nat 1) with (S754_finite false 4503599627370496 (-52)).
  destruct v as [[]|[]| |s m e]; try reflexivity; try done.
  change (fadd fzero (fsub (S754_finite s m e) fzero)) with (S754_finite s m e).
  pose proof (fdiv_finite_not_nan s m e false 4503599627370496 (-52)) as Hn.
  by destruct (fdiv _ _).
Qed.

(** ** The pivot tables *)

Lemma index_of_Some {A} `{EqDecision A} (x : A) l i :
  index_of x l = Some i -> l !! i = Some x.
Proof.
  revert i. induction l as [|y l IH]; intros i; cbn [index_of]; [done|].
  destruct (decide (y = x)) as [->|Hne].
  - by intros [= <-].
  - destruct (index_of x l) as [j|]; [|done]. intros [= <-]. by apply IH.
Qed.

Lemma index_of_None {A} `{EqDecision A} (x : A) l :
  index_of x l = None -> x ∉ l.
Proof.
  induction l as [|y l IH]; cbn [index_of]; [intros _; apply not_elem_of_nil|].
  destruct (decide (y = x)) as [->|Hne]; [done|].
  destruct (index_of x l); [done|]. intros _.
  apply not_elem_of_cons. split; [done|by apply IH].
Qed.


Lemma isnan_eq (x : float) : isnan x = true -> x = S754_nan.
Proof. by destruct x. Qed.

Lemma group_values_row rows t s :
  group_values rows t s <> [] -> exists v, (t, s, v) ∈ rows.
Proof.
  unfold group_values. intros Hne.
  destruct (List.filter _ rows) as [|[[t' s'] v] l] eqn:Hf; [done|].
  assert (Hin : In (t', s', v) (List.filter
    (fun r => bool_decide (r.1.1 = t) && bool_decide (r.1.2 = s)) rows))
    by (rewrite Hf; by left).
  apply List.filter_In in Hin as [Hin Hp]. cbn in Hp.
  apply andb_true_iff in Hp as [->%bool_decide_eq_true ->%bool_decide_eq_true].
  exists v. by apply list_elem_of_In.
Qed.

(** A cell whose group mean is not NaN belongs to a row and to a column of
    the pivot. *)
Lemma pivot_cell_kept rows t s :
  isnan (pivot_cell rows t s) = false ->
  t ∈ pivot_index rows /\ s ∈ pivot_labels rows.
Proof.
  intros Hc.
  destruct (group_values_row rows t s) as [v Hv].
  { intros E. unfold pivot_cell in Hc. by rewrite E in Hc. }
  assert (Hk : (t, s, v) ∈ kept_rows rows).
  { unfold kept_rows. apply list_elem_of_In, List.filter_In. split.
    - by apply list_elem_of_In.
    - cbn. by rewrite Hc. }
  unfold pivot_index, pivot_labels. rewrite !elem_of_sort_uniq. split.
  - apply list_elem_of_In, List.in_map_iff. exists (t, s, v).
    split; [done|by apply list_elem_of_In].
  - apply list_elem_of_In, List.in_map_iff. exists (t, s, v).
    split; [done|by apply list_elem_of_In].
Qed.

Lemma pivot_cell_outside rows t s :
  t ∉ pivot_index rows -> pivot_cell rows t s = S754_nan.
Proof.
  intros Ht. apply isnan_eq. destruct (isnan (pivot_cell rows t s)) eqn:E; [done|].
  by destruct (pivot_cell_kept rows t s E).
Qed.

(** Re-laying a pivot column on another index gives the pivot cells of the
    new labels. *)
Lemma reindex_pivot rows s new :
  reindex new (pivot_index rows)
    (List.map (fun t => pivot_cell rows t s) (pivot_index rows))
  = List.map (fun t => pivot_cell rows t s) new.
Proof.
  unfold reindex. apply List.map_ext. intros t.
  destruct (index_of t (pivot_index rows)) as [i|] eqn:E.
  - apply index_of_Some in E. by rewrite lookup_map, E.
  - apply index_of_None in E. by rewrite pivot_cell_outside.
Qed.

Lemma concat_columns sfx rows index :
  List.map (fun '(n, c) => (n, reindex index (t_index (add_suffix sfx (pivot_of_rows rows))) c))
    (t_columns (add_suffix sfx (pivot_of_rows rows)))
  = table_columns sfx rows index.
Proof.
  unfold add_suffix, pivot_of_rows, table_columns. cbn [t_index t_columns].
  rewrite !List.map_map. apply List.map_ext. intros s. by rewrite reindex_pivot.
Qed.

Lemma concat_pivots sa sb sc ra rb rc :
  concat_axis1 [ add_suffix sa (pivot_of_rows ra);
                 add_suffix sb (pivot_of_rows rb);
                 add_suffix sc (pivot_of_rows rc) ]
  = mkTable (export_index ra rb rc)
      (table_columns sa ra (export_index ra rb rc)
       ++ table_columns sb rb (export_index ra rb rc)
       ++ table_columns sc rc (export_index ra rb rc)).
Proof.
  unfold concat_axis1.
  set (idx := if forallb _ _ then _ else _).
  assert (idx = export_index ra rb rc) as -> by reflexivity.
  cbn [List.flat_map]. by rewrite !concat_columns, app_nil_r.
Qed.

(** ** Column names of the export frame *)

(** Two names that end differently are different. *)
Lemma suffix_clash (k : nat) (sfx1 sfx2 s1 s2 : str) :
  (k <= length sfx1)%nat -> (k <= length sfx2)%nat ->
  take k (rev sfx1) <> take k (rev sfx2) ->
  s1 ++ sfx1 <> s2 ++ sfx2.
Proof.
  intros H1 H2 Hne Heq. apply Hne.
  apply (f_equal (fun l => take k (rev l))) in Heq.
  rewrite !rev_app_distr in Heq.
  by rewrite !take_app_le in Heq by (rewrite length_rev; lia).
Qed.

Lemma suffix_clash_name (k : nat) (sfx name s : str) :
  (k <= length sfx)%nat -> (k <= length name)%nat ->
  take k (rev sfx) <> take k (rev name) ->
  s ++ sfx <> name.
Proof. intros H1 H2 Hne. by apply (suffix_clash k sfx name s []). Qed.

Lemma names_of_table_columns sfx rows index :
  List.map fst (table_columns sfx rows index)
  = List.map (fun s => s ++ sfx) (pivot_labels rows).
Proof. unfold table_columns. rewrite List.map_map. done. Qed.

Lemma NoDup_suffixed (sfx : str) (labels : list str) :
  NoDup labels -> NoDup (List.map (fun s => s ++ sfx) labels).
Proof.
  intros H. change (NoDup ((fun s => s ++ sfx) <$> labels)).
  apply NoDup_fmap_2; [|done]. intros a b Hab. by apply app_inv_tail in Hab.
Qed.

Lemma elem_of_suffixed (sfx name : str) (labels : list str) :
  name ∈ List.map (fun s => s ++ sfx) labels -> exists s, name = s ++ sfx /\ s ∈ labels.
Proof.
  intros H. apply list_elem_of_In, List.in_map_iff in H as (s & <- & Hs).
  exists s. split; [done|by apply list_elem_of_In].
Qed.

Lemma value_names_other (name : str) lw ls lz :
  (2 <= length name)%nat ->
  take 2 (rev sfx_weight) <> take 2 (rev name) ->
  take 2 (rev sfx_se) <> take 2 (rev name) ->
  take 2 (rev sfx_zscore) <> take 2 (rev name) ->
  name ∉ value_names lw ls lz.
Proof.
  intros Hlen Hw Hs Hz. unfold value_names. rewrite !elem_of_app.
  intros [H|[H|H]]; apply elem_of_suffixed in H as (s & Heq & _);
    symmetry in Heq; revert Heq;
    apply (suffix_clash_name 2); try done; vm_compute; lia.
Qed.

Lemma target_not_value_name lw ls lz : lit "target" ∉ value_names lw ls lz.
Proof. apply value_names_other; vm_compute; [lia|done..]. Qed.

Lemma pvalue_not_value_name lw ls lz : lit "p-value" ∉ value_names lw ls lz.
Proof. apply value_names_other; vm_compute; [lia|done..]. Qed.

Lemma x2_not_value_name lw ls lz : lit "x2" ∉ value_names lw ls lz.
Proof. apply value_names_other; vm_compute; [lia|done..]. Qed.

Lemma NoDup_value_names lw ls lz :
  NoDup lw -> NoDup ls -> NoDup lz -> NoDup (value_names lw ls lz).
Proof.
  intros Hw Hs Hz. unfold value_names.
  apply NoDup_app. split; [by apply NoDup_suffixed|]. split.
  - intros name (s & -> & _)%elem_of_suffixed. rewrite elem_of_app.
    intros [H|H]; apply elem_of_suffixed in H as (s' & Heq & _); revert Heq;
      apply (suffix_clash 1); vm_compute; try lia; done.
  - apply NoDup_app. split; [by apply NoDup_suffixed|].
    split; [|by apply NoDup_suffixed].
    intros name (s & -> & _)%elem_of_suffixed H.
    apply elem_of_suffixed in H as (s' & Heq & _); revert Heq.
    apply (suffix_clash 2); vm_compute; try lia; done.
Qed.

Lemma NoDup_export_header lw ls lz :
  NoDup lw -> NoDup ls -> NoDup lz -> NoDup (export_header lw ls lz).
Proof.
  intros Hw Hs Hz. unfold export_header. constructor.
  - rewrite elem_of_app. intros [H|H].
    + by apply target_not_value_name in H.
    + apply elem_of_cons in H as [H|H]; [done|].
      apply list_elem_of_singleton in H. done.
  - apply NoDup_app. split; [by apply NoDup_value_names|]. split.
    + intros name Hn [->|H]%elem_of_cons.
      * by apply pvalue_not_value_name in Hn.
      * apply list_elem_of_singleton in H as ->. by apply x2_not_value_name in Hn.
    + constructor; [|apply NoDup_singleton].
      intros H. apply list_elem_of_singleton in H. done.
Qed.

(** ** The export frame *)

Lemma assoc_set_absent {V} (k : str) (v : V) l :
  k ∉ List.map fst l -> assoc_set k v l = l ++ [(k, v)].
Proof.
  induction l as [|[k' v'] l IH]; cbn [assoc_set List.map fst app]; [done|].
  intros [Hk Hl]%not_elem_of_cons.
  destruct (decide (k' = k)); [congruence|]. by rewrite IH.
Qed.

Lemma key_rows_typed (df : DataFrame) values ts ss ws ses zs vs :
  derived_table df ts ss ws ses zs ->
  assoc values (columns df) = Some (List.map CNum vs) ->
  key_rows df (lit "target") (lit "left") values = Ok (triples ts ss vs).
Proof.
  intros [Ht Hl _ _ _ _ _ _ _ _] Hv. unfold key_rows, getcol.
  rewrite Hv, Ht, Hl. cbn [rbind].
  rewrite (rmapM_map_ok as_str CStr id), (rmapM_map_ok as_str CStr id),
    (rmapM_map_ok as_num CNum id) by done.
  cbn [rbind]. by rewrite !List.map_id.
Qed.

Lemma export_columns_table sfx rows index :
  List.map (fun '(n, c) => (n, List.map CNum c)) (table_columns sfx rows index)
  = export_columns sfx rows index.
Proof.
  unfold table_columns, export_columns. rewrite List.map_map.
  apply List.map_ext. intros s. by rewrite List.map_map.
Qed.

Lemma names_of_export_columns sfx rows index :
  List.map fst (export_columns sfx rows index)
  = List.map (fun s => s ++ sfx) (pivot_labels rows).
Proof. unfold export_columns. by rewrite List.map_map. Qed.

(** The frame that [convert_df_to_csv] writes out. *)
Lemma export_frame_shape (w rd : DataFrame) ts ss ws ses zs pv xv :
  derived_table w ts ss ws ses zs ->
  fit_table rd pv xv ->
  let rw := triples ts ss ws in
  let rs := triples ts ss ses in
  let rz := triples ts ss zs in
  let index := export_index rw rs rz in
  export_frame w rd
  = Ok (mkDF (length index)
          ((lit "target", List.map CStr index)
           :: (export_columns sfx_weight rw index
               ++ export_columns sfx_se rs index
               ++ export_columns sfx_zscore rz index)
           ++ [ (lit "p-value", repeat pv (length index));
                (lit "x2", repeat xv (length index)) ])).
Proof.
  intros Hw [[prest Hp] [xrest Hx]] rw rs rz index.
  unfold export_frame, pivot_table.
  rewrite (key_rows_typed w _ ts ss ws ses zs ws Hw (dt_weight _ _ _ _ _ _ Hw)).
  rewrite (key_rows_typed w _ ts ss ws ses zs ses Hw (dt_se _ _ _ _ _ _ Hw)).
  rewrite (key_rows_typed w _ ts ss ws ses zs zs Hw (dt_zscore _ _ _ _ _ _ Hw)).
  cbn [rbind]. fold rw rs rz.
  change (lit "_weight") with sfx_weight. change (lit "_se") with sfx_se.
  change (lit "_zscore") with sfx_zscore.
  rewrite concat_pivots. fold index. unfold reset_index. cbn [t_columns t_index].
  rewrite bool_decide_eq_false_2.
  2:{ rewrite !List.map_app, !names_of_table_columns.
      apply target_not_value_name. }
  cbn [rbind]. unfold getcol. rewrite Hp, Hx. cbn [rbind iloc0].
  unfold setcol_scalar, setcol. cbn [nrows columns].
  rewrite !List.map_app, !export_columns_table.
  f_equal. f_equal.
  set (vals := export_columns sfx_weight rw index ++ _ ++ _).
  assert (Hnames : List.map fst vals
                   = value_names (pivot_labels rw) (pivot_labels rs) (pivot_labels rz)).
  { unfold vals. by rewrite !List.map_app, !names_of_export_columns. }
  rewrite (assoc_set_absent (lit "p-value")).
  2:{ cbn [List.map fst]. rewrite Hnames. apply not_elem_of_cons. split; [done|].
      apply pvalue_not_value_name. }
  rewrite (assoc_set_absent (lit "x2")).
  2:{ rewrite List.map_app. cbn [List.map fst]. rewrite Hnames.
      apply not_elem_of_cons. split; [done|].
      rewrite elem_of_app. intros [H|H].
      - by apply x2_not_value_name in H.
      - apply list_elem_of_singleton in H. done. }
  cbn [app]. by rewrite <- app_assoc.
Qed.

(** *** Tables without missing values and without repeated pairs *)

Lemma filter_all {A} (f : A -> bool) (l : list A) :
  (forall x, x ∈ l -> f x = true) -> List.filter f l = l.
Proof.
  induction l as [|a l IH]; intros H; cbn; [done|].
  rewrite H by left. rewrite IH; [done|]. intros x Hx. apply H. by right.
Qed.

Lemma triples_keys ts ss (vs : list float) :
  length ts = length ss -> length ss = length vs ->
  List.map fst (triples ts ss vs) = zip ts ss.
Proof.
  intros H1 H2. unfold triples.
  change (List.map fst (zip (zip ts ss) vs)) with ((zip (zip ts ss) vs).*1).
  apply fst_zip. rewrite length_zip_with. lia.
Qed.

Lemma triples_targets ts ss (vs : list float) :
  length ts = length ss -> length ss = length vs ->
  List.map (fun r => r.1.1) (triples ts ss vs) = ts.
Proof.
  intros H1 H2.
  rewrite <- (List.map_map fst fst), triples_keys by done.
  change (List.map fst (zip ts ss)) with ((zip ts ss).*1). apply fst_zip. lia.
Qed.

Lemma triples_lefts ts ss (vs : list float) :
  length ts = length ss -> length ss = length vs ->
  List.map (fun r => r.1.2) (triples ts ss vs) = ss.
Proof.
  intros H1 H2.
  rewrite <- (List.map_map fst snd), triples_keys by done.
  change (List.map snd (zip ts ss)) with ((zip ts ss).*2). apply snd_zip. lia.
Qed.

Lemma triples_values ts ss (vs : list float) v :
  forall t s, (t, s, v) ∈ triples ts ss vs -> v ∈ vs.
Proof.
  intros t s H. unfold triples in H. by apply elem_of_zip_r in H.
Qed.

(** With distinct keys, the group of a row holds that row only. *)
Lemma group_values_single (rows : list (str * str * float)) t s v :
  NoDup (List.map fst rows) ->
  (t, s, v) ∈ rows ->
  group_values rows t s = [v].
Proof.
  unfold group_values. induction rows as [|[[t' s'] v'] rows IH]; intros Hnd Hin.
  - by apply elem_of_nil in Hin.
  - cbn [List.map fst] in Hnd. apply NoDup_cons in Hnd as [Hk Hnd].
    cbn [List.filter fst snd].
    destruct (decide ((t', s') = (t, s))) as [[= -> ->]|Hne].
    + rewrite !bool_decide_eq_true_2 by done. cbn [andb List.map snd].
      assert (v' = v) as ->.
      { apply elem_of_cons in Hin as [[= ->]|Hin]; [done|].
        exfalso. apply Hk. apply list_elem_of_In, List.in_map_iff.
        exists (t, s, v). split; [done|by apply list_elem_of_In]. }
      f_equal.
      assert (List.filter (fun r : str * str * float =>
                bool_decide (r.1.1 = t) && bool_decide (r.1.2 = s)) rows = []) as ->; [|done].
      destruct (List.filter _ rows) as [|r l] eqn:Hf; [done|]. exfalso.
      assert (Hr : In r (List.filter (fun r : str * str * float =>
                bool_decide (r.1.1 = t) && bool_decide (r.1.2 = s)) rows))
        by (rewrite Hf; by left).
      apply List.filter_In in Hr as [Hr Hp].
      apply andb_true_iff in Hp as [Ht%bool_decide_eq_true Hs%bool_decide_eq_true].
      apply Hk. apply list_elem_of_In, List.in_map_iff. exists r.
      split; [|done]. destruct r as [[a b] c]. cbn in *. by subst.
    + assert (bool_decide (t' = t) && bool_decide (s' = s) = false) as ->.
      { apply andb_false_iff.
        destruct (decide (t' = t)) as [->|]; [right|left];
          apply bool_decide_eq_false_2; congruence. }
      apply IH; [done|].
      apply elem_of_cons in Hin as [[= -> -> ->]|Hin]; [done|done].
Qed.

(** Without NaN values and without repeated (target, source) pairs no group
    is dropped. *)
Lemma kept_rows_all ts ss (vs : list float) :
  length ts = length ss -> length ss = length vs ->
  NoDup (zip ts ss) ->
  Forall (fun v => isnan v = false) vs ->
  kept_rows (triples ts ss vs) = triples ts ss vs.
Proof.
  intros H1 H2 Hnd Hv. unfold kept_rows. apply filter_all.
  intros [[t s] v] Hin. cbn [fst snd]. unfold pivot_cell.
  rewrite (group_values_single _ t s v); [|by rewrite triples_keys|done].
  rewrite group_mean_single; [done|].
  rewrite Forall_forall in Hv. apply Hv. by eapply triples_values.
Qed.

Lemma pivot_index_all ts ss (vs : list float) :
  length ts = length ss -> length ss = length vs ->
  NoDup (zip ts ss) ->
  Forall (fun v => isnan v = false) vs ->
  pivot_index (triples ts ss vs) = sort_uniq ts
  /\ pivot_labels (triples ts ss vs) = sort_uniq ss.
Proof.
  intros H1 H2 Hnd Hv. unfold pivot_index, pivot_labels.
  by rewrite kept_rows_all, triples_targets, triples_lefts.
Qed.

(** C2, as the code has it.  For a derived weights table without missing
    values and without a repeated (target, source) pair, the export has a
    header row and one data row per distinct target, in increasing order of
    target, and 3 x (number of distinct sources) + 3 columns with distinct
    names: [target], then the [_weight] columns of all sources, then their
    [_se] columns, then their [_zscore] columns, each group in increasing
    order of source, then [p-value] and [x2]; the text is made of
    comma-separated lines and is encoded as UTF-8. *)
Theorem export_table_shape (float_repr : float -> str) (linesep : str)
    (w rd : DataFrame) ts ss ws ses zs pv xv :
  derived_table w ts ss ws ses zs ->
  fit_table rd pv xv ->
  NoDup (zip ts ss) ->
  Forall (fun v => isnan v = false) ws ->
  Forall (fun v => isnan v = false) ses ->
  Forall (fun v => isnan v = false) zs ->
  let sources := sort_uniq ss in
  let targets := sort_uniq ts in
  exists df,
    export_frame w rd = Ok df
    /\ List.map fst (columns df) = export_header sources sources sources
    /\ length (columns df) = (3 * length (remove_dups ss) + 3)%nat
    /\ NoDup (List.map fst (columns df))
    /\ increasing sources
    /\ nrows df = length (remove_dups ts)
    /\ assoc (lit "target") (columns df) = Some (List.map CStr targets)
    /\ increasing targets
    /\ Forall (fun c => length c.2 = nrows df) (columns df)
    /\ to_csv float_repr linesep df
       = join [comma] (List.map (csv_field linesep) (export_header sources sources sources))
         ++ linesep
         ++ List.concat
              (List.map (fun i => join [comma]
                                    (List.map (csv_field linesep) (csv_row float_repr df i))
                                  ++ linesep)
                 (seq 0 (length targets)))
    /\ convert_df_to_csv float_repr linesep w rd
       = encode_utf8 (to_csv float_repr linesep df).
Proof.
  intros Hw Hfit Hnd Hws Hses Hzs sources targets.
  pose proof (export_frame_shape w rd ts ss ws ses zs pv xv Hw Hfit) as Hshape.
  cbv zeta in Hshape.
  destruct Hw as [_ _ _ _ _ Hlt Hll Hlw Hls Hlz].
  destruct (pivot_index_all ts ss ws) as [Hiw Hcw]; [lia|lia|done|done|].
  destruct (pivot_index_all ts ss ses) as [His Hcs]; [lia|lia|done|done|].
  destruct (pivot_index_all ts ss zs) as [Hiz Hcz]; [lia|lia|done|done|].
  assert (Hidx : export_index (triples ts ss ws) (triples ts ss ses) (triples ts ss zs)
                 = targets).
  { unfold export_index. rewrite Hiw, His, Hiz. cbn [forallb].
    by rewrite bool_decide_eq_true_2. }
  rewrite Hidx in Hshape. eexists. split; [exact Hshape|].
  assert (Hhead : List.map fst
    ((lit "target", List.map CStr targets)
     :: (export_columns sfx_weight (triples ts ss ws) targets
         ++ export_columns sfx_se (triples ts ss ses) targets
         ++ export_columns sfx_zscore (triples ts ss zs) targets)
     ++ [(lit "p-value", repeat pv (length targets));
         (lit "x2", repeat xv (length targets))])
    = export_header sources sources sources).
  { cbn [List.map fst]. rewrite !List.map_app, !names_of_export_columns.
    by rewrite Hcw, Hcs, Hcz. }
  cbn [columns nrows].
  split; [exact Hhead|].
  split.
  { rewrite <- (length_map fst), Hhead. unfold export_header, value_names. cbn [length].
    rewrite !length_app, !length_map. cbn [length]. unfold sources.
    rewrite length_sort_uniq. lia. }
  split; [rewrite Hhead; apply NoDup_export_header; apply NoDup_sort_uniq|].
  split; [apply increasing_sort_uniq|].
  split; [apply length_sort_uniq|].
  split; [cbn [assoc]; by rewrite decide_True|].
  split; [apply increasing_sort_uniq|].
  split.
  { constructor; [cbn; by rewrite length_map|].
    rewrite !Forall_app. unfold export_columns.
    repeat split; try (apply Forall_forall; intros c Hc;
      apply list_elem_of_In, List.in_map_iff in Hc as (s & <- & _); cbn;
      by rewrite length_map).
    repeat constructor; cbn; by rewrite repeat_length. }
  split; [|unfold convert_df_to_csv; by rewrite Hshape].
  unfold to_csv, csv_line. cbn [columns nrows]. rewrite Hhead.
  by rewrite <- app_assoc.
Qed.

Lemma export_table_shape_witness :
  let ts := [lit "T"; lit "T"; lit "T"] in
  let ss := [lit "A"; lit "B"; lit "C"] in
  let sources := sort_uniq ss in
  let targets := sort_uniq ts in
  exists df,
    export_frame sample_derived sample_rankdrop = Ok df
    /\ List.map fst (columns df) = export_header sources sources sources
    /\ length (columns df) = (3 * length (remove_dups ss) + 3)%nat
    /\ NoDup (List.map fst (columns df))
    /\ increasing sources
    /\ nrows df = length (remove_dups ts)
    /\ assoc (lit "target") (columns df) = Some (List.map CStr targets)
    /\ increasing targets
    /\ Forall (fun c => length c.2 = nrows df) (columns df)
    /\ to_csv repr_fixed12 [10%N] df
       = join [comma] (List.map (csv_field [10%N]) (export_header sources sources sources))
         ++ [10%N]
         ++ List.concat
              (List.map (fun i => join [comma]
                                    (List.map (csv_field [10%N]) (csv_row repr_fixed12 df i))
                                  ++ [10%N])
                 (seq 0 (length targets)))
    /\ convert_df_to_csv repr_fixed12 [10%N] sample_derived sample_rankdrop
       = encode_utf8 (to_csv repr_fixed12 [10%N] df).
Proof.
  apply (export_table_shape repr_fixed12 [10%N] sample_derived sample_rankdrop
           [lit "T"; lit "T"; lit "T"] [lit "A"; lit "B"; lit "C"]
           sample_ws sample_ses sample_zs
           (CNum (mkfloat 1 (-5))) (CNum (mkfloat 13 (-2)))).
  - by split.
  - split; eexists; reflexivity.
  - apply (bool_decide_unpack _). by vm_compute.
  - by apply Forall_fold_right.
  - by apply Forall_fold_right.
  - by apply Forall_fold_right.
Defined.

(** C2, as the claim has it, fails: the header of the export of the sample
    table, with sources A, B and C, is not the interleaved header of any
    list of sources, since its third name is the weight column of B where an
    interleaved header has a standard-error column.  And on the table with
    two sources in which the standard error of A is missing, the export has
    7 columns and not 3 x 2 + 3. *)
Lemma export_header_not_interleaved :
  (exists df,
     export_frame sample_derived sample_rankdrop = Ok df
     /\ List.map fst (columns df)
        = [ lit "target"; lit "A_weight"; lit "B_weight"; lit "C_weight";
            lit "A_se"; lit "B_se"; lit "C_se";
            lit "A_zscore"; lit "B_zscore"; lit "C_zscore";
            lit "p-value"; lit "x2" ]
     /\ forall sources, List.map fst (columns df) <> interleaved_header sources)
  /\ (exists df,
        export_frame nan_derived sample_rankdrop = Ok df
        /\ List.map fst (columns df)
           = [ lit "target"; lit "A_weight"; lit "B_weight"; lit "B_se";
               lit "B_zscore"; lit "p-value"; lit "x2" ]
        /\ length (columns df) <> (3 * 2 + 3)%nat).
Proof.
  split.
  - eexists. split; [vm_compute; reflexivity|]. split; [reflexivity|].
    intros [|s sources]; [by vm_compute|].
    intros H. apply (f_equal (fun l => l !! 2%nat)) in H.
    cbn [columns List.map fst] in H.
    unfold interleaved_header in H. cbn [List.flat_map app lookup list_lookup] in H.
    change (Some (lit "B_weight") = Some (s ++ sfx_se)) in H.
    injection H as H. symmetry in H. revert H.
    apply (suffix_clash_name 1); vm_compute; [lia|lia|done].
  - eexists. split; [vm_compute; reflexivity|]. split; [reflexivity|].
    cbn. lia.
Qed.

(** *** Repeated (target, source) pairs *)

Lemma assoc_app {V} (k : str) (l1 l2 : list (str * V)) :
  assoc k (l1 ++ l2) = match assoc k l1 with Some v => Some v | None => assoc k l2 end.
Proof.
  induction l1 as [|[k' v'] l1 IH]; cbn [assoc app]; [done|].
  by destruct (decide (k' = k)).
Qed.

Lemma assoc_absent {V} (k : str) (l : list (str * V)) :
  k ∉ List.map fst l -> assoc k l = None.
Proof.
  induction l as [|[k' v'] l IH]; cbn [assoc List.map fst]; [done|].
  intros [Hk Hl]%not_elem_of_cons. destruct (decide (k' = k)); [congruence|auto].
Qed.





Lemma elem_of_group_values rows (t s : str) (v : float) :
  v ∈ group_values rows t s <-> (t, s, v) ∈ rows.
Proof.
  unfold group_values. rewrite list_elem_of_In, List.in_map_iff. split.
  - intros ([[t' s'] v'] & <- & Hin). apply List.filter_In in Hin as [Hin Hp].
    cbn in Hp. apply andb_true_iff in Hp
      as [->%bool_decide_eq_true ->%bool_decide_eq_true].
    by apply list_elem_of_In.
  - intros Hin. exists (t, s, v). split; [done|].
    apply List.filter_In. split; [by apply list_elem_of_In|].
    cbn. by rewrite !bool_decide_eq_true_2.
Qed.

















(** On that table the export has one row and one column triple for A,
    holding 0.375, 0.1875 and 2. *)
Example duplicates_sample :
  exists df,
    export_frame dup_derived sample_rankdrop = Ok df
    /\ List.map fst (columns df)
       = [ lit "target"; lit "A_weight"; lit "B_weight"; lit "A_se"; lit "B_se";
           lit "A_zscore"; lit "B_zscore"; lit "p-value"; lit "x2" ]
    /\ nrows df = 1%nat
    /\ cell_at df (lit "T") (lit "A_weight") = Some (CNum (mkfloat 3 (-3)))
    /\ cell_at df (lit "T") (lit "A_se") = Some (CNum (mkfloat 3 (-4)))
    /\ cell_at df (lit "T") (lit "A_zscore") = Some (CNum (mkfloat 2 0)).
Proof. eexists. split; [vm_compute; reflexivity|]. repeat split. Qed.

(** With three values the compensated sum can differ from the sum taken
    from left to right: for 1, 2^-53 and 2^-53 the latter stays at 1, the
    former reaches 1 + 2^-52. *)
Example compensated_mean_differs :
  let vals := [mkfloat 1 0; mkfloat 1 (-53); mkfloat 1 (-53)] in
  group_mean vals = fdiv (mkfloat (2 ^ 52 + 1) (-52)) (float_of_nat 3)
  /\ arithmetic_mean vals = fdiv (mkfloat 1 0) (float_of_nat 3)
  /\ group_mean vals <> arithmetic_mean vals.
Proof. vm_compute. repeat split. discriminate. Qed.

(** A value that is NaN on one of the two rows of a pair is left out of the
    mean: the cell holds the other value. *)
Example duplicate_with_one_nan :
  group_mean (values_at [S754_nan; mkfloat 1 (-3); mkfloat 1 (-2)]
                (rows_with dup_ts dup_ss (lit "T") (lit "A")))
  = mkfloat 1 (-2).
Proof. reflexivity. Qed.

(** ** Two runs on the sample tables *)

(** The sample request on an interpreter that returns the sample tables: the
    eight elements of a feasible run, and the derived table in place of the
    received one. *)
Example sample_run :
  let w' := (start_analysis repr_fixed12 [10%N] (R_fixed sample_items)
               (mkSession (Some true)) (Some (lit "data/v54")) (lit "T")
               [lit "A"; lit "B"] [lit "X"] empty_world).2 in
  (exists fig csv,
     page w' = [ st_info (lit "Target: T");
                 st_info_list (lit "Sources (Left): ") [lit "A"; lit "B"];
                 st_info_list (lit "Outgroups (Right): ") [lit "X"];
                 st_success (lit "Analysis complete!");
                 st_header (lit "3. Analysis Result");
                 st_pyplot fig;
                 st_download_button (lit "Download full result as CSV") csv
                   (lit "results_T.csv") (lit "text/csv");
                 st_balloons ])
  /\ heap w' = [sample_derived; sample_rankdrop].
Proof. split; [do 2 eexists|]; vm_compute; reflexivity. Qed.

(** The same request on an interpreter that fails: the run ends with the
    critical-error message and the exception. *)
Example failing_estimator_run :
  (start_analysis repr_fixed12 [10%N] R_down
     (mkSession (Some true)) (Some (lit "data/v54")) (lit "T")
     [lit "A"; lit "B"] [lit "X"] empty_world).2
  = mkWorld [RAssign (lit "prefix") (lit "data/v54")] []
      [ st_info (lit "Target: T");
        st_info_list (lit "Sources (Left): ") [lit "A"; lit "B"];
        st_info_list (lit "Outgroups (Right): ") [lit "X"];
        st_error (lit "A critical error occurred during execution.");
        st_exception RRuntimeError ].
Proof. reflexivity. Qed.

(** * Further properties *)

(** ** Error paths of a run *)

Section Failures.

Variable float_repr : float -> str.
Variable linesep : str.
Variable R : list rcall -> rreply.

Implicit Types (ss : session_state) (w : world).

Lemma keeps_bind {A B} (m : M A) (k : A -> M B) :
  keeps_log m -> (forall a, keeps_log (k a)) -> keeps_log (bind m k).
Proof.
  intros Hm Hk w. unfold bind. specialize (Hm w).
  destruct (m w) as [[a|e] w1]; cbn in *; [by rewrite Hk|done].
Qed.

Lemma keeps_try {A} (m : M A) (h : exn -> M A) :
  keeps_log m -> (forall e, keeps_log (h e)) -> keeps_log (try_except m h).
Proof.
  intros Hm Hh w. unfold try_except. specialize (Hm w).
  destruct (m w) as [[a|e] w1]; cbn in *; [done|by rewrite Hh].
Qed.

Lemma keeps_convert_items items : keeps_log (convert_items items).
Proof. intros w. by rewrite convert_items_spec. Qed.

Ltac keeps :=
  repeat first
    [ apply keeps_convert_items
    | apply keeps_bind; [|intros ?]
    | apply keeps_try; [|intros ?]
    | match goal with
      | |- keeps_log (match ?x with _ => _ end) => destruct x
      | |- keeps_log (load ?l) =>
          let w0 := fresh "w" in
          intros w0; unfold load; destruct (heap w0 !! l); reflexivity
      | |- keeps_log _ => intros ?; reflexivity
      end ].

Lemma r_call_fails (c : rcall) w :
  R (rlog w ++ [c]) = RFails ->
  r_call R c w = (Raise RRuntimeError, mkWorld (rlog w ++ [c]) (heap w) (page w)).
Proof. intros H. unfold r_call. by rewrite H. Qed.

Lemma bind_r_call_ok {A} (c : rcall) (k : rreply -> M A) w :
  R (rlog w ++ [c]) <> RFails ->
  bind (r_call R c) k w
  = k (R (rlog w ++ [c])) (mkWorld (rlog w ++ [c]) (heap w) (page w)).
Proof. intros H. unfold bind. by rewrite r_call_ok. Qed.

Lemma bind_r_call_fails {A} (c : rcall) (k : rreply -> M A) w :
  R (rlog w ++ [c]) = RFails ->
  bind (r_call R c) k w
  = (Raise RRuntimeError, mkWorld (rlog w ++ [c]) (heap w) (page w)).
Proof. intros H. unfold bind. by rewrite r_call_fails. Qed.

(** One call, then the rest: the log grows by an initial segment. *)
Lemma r_call_step {A} (c : rcall) (k : M A) (calls : list rcall) w :
  (forall w1, exists n, rlog (k w1).2 = rlog w1 ++ take n calls) ->
  exists n, rlog ((r_call R c;;; k) w).2 = rlog w ++ take n (c :: calls).
Proof.
  intros Hk. unfold bind. destruct (r_call_log R c w) as (Hl & _).
  destruct (r_call R c w) as [[rep|e] w1]; cbn [snd] in *.
  - destruct (Hk w1) as [n Hn]. exists (S n).
    rewrite Hn, Hl, <- app_assoc. done.
  - exists 1%nat. by rewrite Hl.
Qed.

Lemma r_getitem_step {A} (name : str) (k : list (str * option loc) -> M A) w :
  (forall a, keeps_log (k a)) ->
  exists n, rlog (bind (r_getitem R name) k w).2 = rlog w ++ take n [RGetItem name].
Proof.
  intros Hk. unfold r_getitem. rewrite bind_assoc. unfold bind at 1.
  destruct (r_call_log R (RGetItem name) w) as (Hl & _).
  destruct (r_call R (RGetItem name) w) as [[rep|e] w1]; cbn [snd] in *.
  - exists 1%nat. change (take 1 [RGetItem name]) with [RGetItem name].
    rewrite <- Hl.
    assert (Hrest : keeps_log (bind (match rep with
                                      | RList items => convert_items items
                                      | _ => raise TypeError
                                      end) k)) by (keeps; apply Hk).
    apply Hrest.
  - exists 1%nat. by rewrite Hl.
Qed.

(** Whatever R answers, the calls of one analysis are an initial segment of
    the six calls of lines 135-143. *)
Lemma analysis_log prefix_path target_name left_pops right_pops w :
  exists n,
    rlog (analysis float_repr linesep R prefix_path target_name left_pops right_pops w).2
    = rlog w ++ take n (analysis_calls prefix_path target_name left_pops right_pops).
Proof.
  unfold analysis, analysis_calls. cbv zeta.
  apply r_call_step. intros w1. apply r_call_step. intros w2.
  apply r_call_step. intros w3. apply r_call_step. intros w4.
  apply r_call_step. intros w5. apply r_getitem_step.
  intros result. unfold item, report, column_of, frame_of, derive_step. keeps.
Qed.

Lemma start_analysis_log ss prefix_path target_name left_pops right_pops w :
  exists n,
    rlog (start_analysis float_repr linesep R ss prefix_path target_name
            left_pops right_pops w).2
    = rlog w ++ take n (analysis_calls (default [] prefix_path) target_name
                          left_pops right_pops).
Proof.
  unfold start_analysis.
  destruct (negb (env_ready ss)); [exists 0%nat; cbn; by rewrite app_nil_r|].
  destruct (negb (prefix_defined prefix_path)); [exists 0%nat; cbn; by rewrite app_nil_r|].
  destruct (negb (truthy target_name) || negb (truthy left_pops)
            || negb (truthy right_pops)); [exists 0%nat; cbn; by rewrite app_nil_r|].
  rewrite !bind_emit. unfold try_except.
  set (w3 := mkWorld _ _ _).
  destruct (analysis_log (default [] prefix_path) target_name left_pops right_pops w3)
    as [n Hn].
  exists n.
  destruct (analysis float_repr linesep R (default [] prefix_path) target_name
              left_pops right_pops w3) as [[a|e] w4]; cbn [snd] in *.
  - by rewrite Hn.
  - unfold bind, emit. cbn. by rewrite Hn.
Qed.

Lemma start_analysis_ok ss prefix_path target_name left_pops right_pops w :
  (start_analysis float_repr linesep R ss prefix_path target_name
     left_pops right_pops w).1 = Ok tt.
Proof.
  unfold start_analysis.
  destruct (negb (env_ready ss)); [done|].
  destruct (negb (prefix_defined prefix_path)); [done|].
  destruct (negb (truthy target_name) || negb (truthy left_pops)
            || negb (truthy right_pops)); [done|].
  rewrite !bind_emit. unfold try_except.
  destruct (analysis _ _ _ _ _ _ _ _) as [[[]|e] w4]; done.
Qed.

(** X1.  The button handler never lets an exception escape, whatever the session
    state, the inputs and the answers of R, and all it sends to R is an
    initial segment of the six calls of the analysis. *)
Theorem start_analysis_contained ss prefix_path target_name left_pops right_pops w :
  let out := start_analysis float_repr linesep R ss prefix_path target_name
               left_pops right_pops w in
  out.1 = Ok tt
  /\ exists n,
       rlog out.2
       = rlog w ++ take n (analysis_calls (default [] prefix_path) target_name
                             left_pops right_pops).
Proof.
  cbv zeta. split; [apply start_analysis_ok|apply start_analysis_log].
Qed.

(** X2.  When one of the six calls to R fails, the calls after it are not made,
    no frame is created, and the page shows the three information lines
    followed by the critical-error message and the exception. *)
Theorem estimator_failure_reported ss prefix_path target_name left_pops right_pops
    w (n : nat) :
  env_ready ss = true ->
  truthy prefix_path = true ->
  truthy target_name = true ->
  truthy left_pops = true ->
  truthy right_pops = true ->
  fails_at R (rlog w)
    (analysis_calls prefix_path target_name left_pops right_pops) n ->
  start_analysis float_repr linesep R ss (Some prefix_path) target_name
    left_pops right_pops w
  = (Ok tt,
     mkWorld
       (rlog w ++ take (S n) (analysis_calls prefix_path target_name
                                left_pops right_pops))
       (heap w)
       (page w ++ info_lines target_name left_pops right_pops
        ++ [st_error msg_critical; st_exception RRuntimeError])).
Proof.
  intros He Hp Ht Hl Hr Hf.
  unfold start_analysis. rewrite He. cbn [negb prefix_defined].
  rewrite Hp, Ht, Hl, Hr. cbn [negb orb default from_option]. unfold id.
  rewrite !bind_emit. cbn [rlog heap page].
  unfold try_except, analysis. cbv zeta.
  unfold analysis_calls in *.
  destruct n as [|[|[|[|[|[|n]]]]]]; cbn [fails_at] in Hf.
  - rewrite bind_r_call_fails by done.
    unfold bind, emit, info_lines. cbn. by rewrite <- !app_assoc.
  - destruct Hf as (H1 & Hf).
    rewrite bind_r_call_ok by done. rewrite bind_r_call_fails by done.
    unfold bind, emit, info_lines. cbn. by rewrite <- !app_assoc.
  - destruct Hf as (H1 & H2 & Hf).
    do 2 rewrite bind_r_call_ok by done. rewrite bind_r_call_fails by done.
    unfold bind, emit, info_lines. cbn. by rewrite <- !app_assoc.
  - destruct Hf as (H1 & H2 & H3 & Hf).
    do 3 rewrite bind_r_call_ok by done. rewrite bind_r_call_fails by done.
    unfold bind, emit, info_lines. cbn. by rewrite <- !app_assoc.
  - destruct Hf as (H1 & H2 & H3 & H4 & Hf).
    do 4 rewrite bind_r_call_ok by done. rewrite bind_r_call_fails by done.
    unfold bind, emit, info_lines. cbn. by rewrite <- !app_assoc.
  - destruct Hf as (H1 & H2 & H3 & H4 & H5 & Hf).
    do 5 rewrite bind_r_call_ok by done.
    unfold r_getitem. rewrite bind_assoc, bind_r_call_fails by done.
    unfold bind, emit, info_lines. cbn. by rewrite <- !app_assoc.
  - by destruct Hf as (H1 & H2 & H3 & H4 & H5 & H6 & Hf).
Qed.

Lemma bind_raise {A B} (e : exn) (k : A -> M B) w :
  bind (lift (Raise e)) k w = (Raise e, w).
Proof. reflexivity. Qed.

(** X4.  When the estimator hands back a weights table but the p-value or the
    chi-square cannot be read from the first row of the fit table (the
    entry is [None], a column is missing, or the table has no row), the
    page shows the success message and the result heading first and the
    critical-error message after them; no frame is changed, no chart and no
    download are made. *)
Theorem fit_failure_after_success ss prefix_path target_name left_pops right_pops
    w items wdf rd (e : exn) :
  env_ready ss = true ->
  truthy prefix_path = true ->
  truthy target_name = true ->
  truthy left_pops = true ->
  truthy right_pops = true ->
  estimator_returns R (rlog w) prefix_path target_name left_pops right_pops items ->
  assoc (lit "weights") items = Some (Some wdf) ->
  assoc (lit "rankdrop") items = Some rd ->
  fit_values rd = Raise e ->
  start_analysis float_repr linesep R ss (Some prefix_path) target_name
    left_pops right_pops w
  = (Ok tt,
     mkWorld (rlog w ++ analysis_calls prefix_path target_name left_pops right_pops)
       (heap w ++ omap snd items)
       (page w ++ info_lines target_name left_pops right_pops
        ++ [ st_success (lit "Analysis complete!");
             st_header (lit "3. Analysis Result");
             st_error msg_critical;
             st_exception e ])).
Proof.
  intros He Hp Ht Hl Hr Hest Hw Hrd Hfit.
  destruct (converted_some items (heap w) _ wdf Hw) as (wl & Hwl & _ & Hhw).
  unfold start_analysis. rewrite He. cbn [negb prefix_defined].
  rewrite Hp, Ht, Hl, Hr. cbn [negb orb default from_option]. unfold id.
  rewrite !bind_emit. cbn [rlog heap page].
  unfold try_except, analysis. cbv zeta.
  match goal with |- context [bind (r_getitem R _) ?k] =>
    match goal with |- context [bind (r_call R (RAssign (lit "prefix") _)) _ ?w3] =>
      rewrite (analysis_calls_run R prefix_path target_name left_pops right_pops
                 items w3 k Hest)
    end
  end.
  cbn [rlog heap page].
  unfold bind at 1, item. rewrite Hwl. unfold ret at 1.
  unfold fit_values, fit_reading in Hfit.
  destruct rd as [rdf|].
  - destruct (converted_some items (heap w) _ rdf Hrd) as (rl & Hrl & _ & Hhr).
    unfold bind at 1. rewrite Hrl. unfold ret at 1.
    unfold report. rewrite !bind_emit. cbn [rlog heap page].
    unfold column_of. rewrite bind_assoc, (bind_load rl rdf) by done.
    destruct (getcol rdf (lit "p")) as [pc|e1]; cbn [rbind] in Hfit.
    + rewrite bind_lift.
      destruct (iloc0 pc) as [pv|e2]; cbn [rbind] in Hfit.
      * rewrite bind_lift, bind_assoc, (bind_load rl rdf) by done.
        destruct (getcol rdf (lit "chisq")) as [xc|e3]; cbn [rbind] in Hfit.
        -- rewrite bind_lift.
           destruct (iloc0 xc) as [xv|e4]; cbn [rbind] in Hfit; [done|].
           injection Hfit as ->. rewrite bind_raise.
           unfold bind, emit, info_lines. cbn. by rewrite <- !app_assoc.
        -- injection Hfit as ->. rewrite bind_raise.
           unfold bind, emit, info_lines. cbn. by rewrite <- !app_assoc.
      * injection Hfit as ->. rewrite bind_raise.
        unfold bind, emit, info_lines. cbn. by rewrite <- !app_assoc.
    + injection Hfit as ->. rewrite bind_raise.
      unfold bind, emit, info_lines. cbn. by rewrite <- !app_assoc.
  - apply (converted_none _ (length (heap w))) in Hrd.
    unfold bind at 1. rewrite Hrd. unfold ret at 1.
    unfold report. rewrite !bind_emit. cbn [rlog heap page].
    injection Hfit as <-.
    unfold column_of, bind, raise, emit, info_lines. cbn. by rewrite <- !app_assoc.
Qed.

Lemma converted_absent items base k :
  assoc k items = None -> assoc k (converted items base) = None.
Proof.
  revert base. induction items as [|[n [df|]] items IH]; intros base; cbn; [done|..];
    destruct (decide (n = k)); try done; apply IH.
Qed.

(** X3.  When the result of the estimator lacks the [weights] entry, or has it
    but lacks the [rankdrop] entry, the run ends with the critical-error
    message and a KeyError naming the missing entry; this also holds when the
    weights are [None]: the message that no feasible model was found is then
    not shown, because the [rankdrop] entry is read before the weights are
    tested. *)
Theorem missing_entry_reported ss prefix_path target_name left_pops right_pops
    w items (key : str) :
  env_ready ss = true ->
  truthy prefix_path = true ->
  truthy target_name = true ->
  truthy left_pops = true ->
  truthy right_pops = true ->
  estimator_returns R (rlog w) prefix_path target_name left_pops right_pops items ->
  (assoc (lit "weights") items = None /\ key = lit "weights")
  \/ (assoc (lit "weights") items <> None
      /\ assoc (lit "rankdrop") items = None /\ key = lit "rankdrop") ->
  start_analysis float_repr linesep R ss (Some prefix_path) target_name
    left_pops right_pops w
  = (Ok tt,
     mkWorld (rlog w ++ analysis_calls prefix_path target_name left_pops right_pops)
       (heap w ++ omap snd items)
       (page w ++ info_lines target_name left_pops right_pops
        ++ [st_error msg_critical; st_exception (KeyError key)])).
Proof.
  intros He Hp Ht Hl Hr Hest Hmiss.
  unfold start_analysis. rewrite He. cbn [negb prefix_defined].
  rewrite Hp, Ht, Hl, Hr. cbn [negb orb default from_option]. unfold id.
  rewrite !bind_emit. cbn [rlog heap page].
  unfold try_except, analysis. cbv zeta.
  match goal with |- context [bind (r_getitem R _) ?k] =>
    match goal with |- context [bind (r_call R (RAssign (lit "prefix") _)) _ ?w3] =>
      rewrite (analysis_calls_run R prefix_path target_name left_pops right_pops
                 items w3 k Hest)
    end
  end.
  cbn [rlog heap page]. unfold item.
  destruct Hmiss as [[Hw ->]|(Hw & Hrd & ->)].
  - apply (converted_absent _ (length (heap w))) in Hw.
    unfold bind at 1. rewrite Hw.
    unfold bind, raise, emit, info_lines. cbn. by rewrite <- !app_assoc.
  - assert (exists v, assoc (lit "weights") (converted items (length (heap w))) = Some v)
      as [v Hv].
    { destruct (assoc (lit "weights") items) as [[df|]|] eqn:E; [| |done].
      - destruct (converted_some items (heap w) _ df E) as (l & Hl' & _). eauto.
      - apply (converted_none _ (length (heap w))) in E. eauto. }
    apply (converted_absent _ (length (heap w))) in Hrd.
    unfold bind at 1. rewrite Hv. unfold ret at 1.
    unfold bind at 1. rewrite Hrd.
    unfold bind, raise, emit, info_lines. cbn. by rewrite <- !app_assoc.
Qed.

(** ** Start-up and sessions *)

Lemma startup_escapes fs e ss w :
  r_env_setup_minimal ss = None ->
  temp_dir fs = Raise e ->
  startup R fs ss w = (Raise e, w).
Proof.
  intros Hk He. unfold startup. rewrite Hk, He. by unfold bind, lift.
Qed.

Lemma startup_cases fs d w :
  temp_dir fs = Ok d ->
  let first := R (rlog w ++ [load_admixtools]) in
  let second := R ((rlog w ++ [load_admixtools]) ++ [load_tidyverse]) in
  let failed :=
    st_error_exn (lit "Failed to load R libraries on startup: ") RRuntimeError in
  startup R fs (mkSession None) w
  = match first with
    | RFails =>
        (Ok (mkSession (Some false)),
         mkWorld (rlog w ++ [load_admixtools]) (heap w) (page w ++ [failed]))
    | _ =>
        match second with
        | RFails =>
            (Ok (mkSession (Some false)),
             mkWorld (rlog w ++ [load_admixtools; load_tidyverse]) (heap w)
               (page w ++ [failed]))
        | _ =>
            (Ok (mkSession (Some true)),
             mkWorld (rlog w ++ [load_admixtools; load_tidyverse]) (heap w) (page w))
        end
    end.
Proof.
  intros Hd. cbv zeta. unfold startup. cbn [r_env_setup_minimal]. rewrite Hd.
  unfold bind at 1, lift. unfold try_except.
  fold load_admixtools load_tidyverse.
  destruct (R (rlog w ++ [load_admixtools])) as [|items|] eqn:H1.
  - rewrite bind_r_call_ok by congruence. cbn [rlog heap page].
    destruct (R ((rlog w ++ [load_admixtools]) ++ [load_tidyverse])) as [|items|] eqn:H2.
    + rewrite bind_r_call_ok by (cbn [rlog]; congruence).
      unfold ret. cbn. by rewrite <- app_assoc.
    + rewrite bind_r_call_ok by (cbn [rlog]; congruence).
      unfold ret. cbn. by rewrite <- app_assoc.
    + rewrite bind_r_call_fails by done.
      unfold bind, emit, ret. cbn. by rewrite <- app_assoc.
  - rewrite bind_r_call_ok by congruence. cbn [rlog heap page].
    destruct (R ((rlog w ++ [load_admixtools]) ++ [load_tidyverse])) as [|items'|] eqn:H2.
    + rewrite bind_r_call_ok by (cbn [rlog]; congruence).
      unfold ret. cbn. by rewrite <- app_assoc.
    + rewrite bind_r_call_ok by (cbn [rlog]; congruence).
      unfold ret. cbn. by rewrite <- app_assoc.
    + rewrite bind_r_call_fails by done.
      unfold bind, emit, ret. cbn. by rewrite <- app_assoc.
  - rewrite bind_r_call_fails by done. unfold bind, emit, ret. by cbn.
Qed.

(** X5.  The start-up block of a new session (lines 9-19).  When making the
    temporary directory raises (lines 10-11, before the [try]), the
    exception escapes: nothing is sent to R, nothing is written and nothing
    is recorded.  Otherwise the block loads admixtools and then tidyverse,
    does not attempt the second load when the first fails, lets no
    exception of the loads escape, and records success exactly when both
    loads succeeded; on a failed load it records the failure and writes one
    error line that carries the exception. *)
Theorem startup_outcome fs w :
  let first := R (rlog w ++ [load_admixtools]) in
  let second := R (rlog w ++ [load_admixtools; load_tidyverse]) in
  let failed :=
    st_error_exn (lit "Failed to load R libraries on startup: ") RRuntimeError in
  (forall e, temp_dir fs = Raise e ->
     startup R fs (mkSession None) w = (Raise e, w))
  /\ (forall d, temp_dir fs = Ok d ->
      (first = RFails ->
         startup R fs (mkSession None) w
         = (Ok (mkSession (Some false)),
            mkWorld (rlog w ++ [load_admixtools]) (heap w) (page w ++ [failed])))
      /\ (first <> RFails -> second = RFails ->
            startup R fs (mkSession None) w
            = (Ok (mkSession (Some false)),
               mkWorld (rlog w ++ [load_admixtools; load_tidyverse]) (heap w)
                 (page w ++ [failed])))
      /\ (first <> RFails -> second <> RFails ->
            startup R fs (mkSession None) w
            = (Ok (mkSession (Some true)),
               mkWorld (rlog w ++ [load_admixtools; load_tidyverse]) (heap w)
                 (page w)))).
Proof.
  cbv zeta. split.
  - intros e He. by apply startup_escapes.
  - intros d Hd. pose proof (startup_cases fs d w Hd) as H. cbv zeta in H.
    rewrite <- app_assoc in H. cbn [app] in H.
    destruct (R (rlog w ++ [load_admixtools]));
      destruct (R (rlog w ++ [load_admixtools; load_tidyverse]));
      repeat split; intros; done.
Qed.

Lemma analysis_calls_no_library prefix_path target_name left_pops right_pops :
  Forall (fun c => ~ library_call c)
    (analysis_calls prefix_path target_name left_pops right_pops).
Proof.
  unfold analysis_calls, library_call, load_admixtools, load_tidyverse, qpadm_code.
  repeat first [apply Forall_nil_2 | apply Forall_cons_2];
    intros [H|H]; try discriminate H; injection H as H;
    vm_compute in H; discriminate H.
Qed.

(** One execution of the script after its start-up block. *)
Lemma script_after_startup fs ws ss ss1 w w1 :
  startup R fs ss w = (Ok ss1, w1) ->
  exists w' rest,
    script float_repr linesep R fs ws ss w = (Ok ss1, w')
    /\ rlog w' = rlog w1 ++ rest
    /\ Forall (fun c => ~ library_call c) rest.
Proof.
  intros Hs. unfold script, bind at 1. rewrite Hs. cbv zeta.
  destruct (start_button ws).
  - unfold bind at 1.
    match goal with |- context [start_analysis _ _ _ ?a ?b ?c ?d ?e ?w0] =>
      pose proof (start_analysis_ok a b c d e w0) as H1;
      destruct (start_analysis_log a b c d e w0) as [n Hn];
      destruct (start_analysis float_repr linesep R a b c d e w0) as [r w2]
    end.
    cbn [fst snd] in *. subst r. unfold ret.
    eexists. eexists. split; [reflexivity|]. split; [exact Hn|].
    apply Forall_take, analysis_calls_no_library.
  - unfold bind, ret. exists w1, []. split; [done|]. split; [by rewrite app_nil_r|done].
Qed.

Lemma session_ready (runs : list (files * widgets)) ss w :
  r_env_setup_minimal ss <> None ->
  exists rest,
    (session float_repr linesep R runs ss w).1.2 = ss
    /\ rlog (session float_repr linesep R runs ss w).2 = rlog w ++ rest
    /\ Forall (fun c => ~ library_call c) rest.
Proof.
  intros Hk. revert w. induction runs as [|[fs ws] runs IH]; intros w.
  - exists []. cbn. by rewrite app_nil_r.
  - cbn [session].
    assert (Hs : startup R fs ss (mkWorld (rlog w) (heap w) [])
                 = (Ok ss, mkWorld (rlog w) (heap w) [])).
    { unfold startup. by destruct (r_env_setup_minimal ss). }
    destruct (script_after_startup fs ws ss ss _ _ Hs) as (w1 & rest1 & -> & Hl1 & Hf1).
    destruct (IH w1) as (rest2 & Hss & Hl2 & Hf2).
    destruct (session float_repr linesep R runs ss w1) as [[pages ss2] w2].
    cbn [fst snd] in *. exists (rest1 ++ rest2).
    split; [done|]. split; [|by apply Forall_app].
    by rewrite Hl2, Hl1, app_assoc.
Qed.

(** A session that starts without the key: the runs in which the temporary
    directory cannot be made leave no trace; the first other run loads the
    libraries. *)
Lemma session_unset (runs : list (files * widgets)) w :
  let out := session float_repr linesep R runs (mkSession None) w in
  exists init rest,
    rlog out.2 = rlog w ++ init ++ rest
    /\ Forall (fun c => ~ library_call c) rest
    /\ (init = [] \/ init = [load_admixtools]
        \/ init = [load_admixtools; load_tidyverse])
    /\ (Exists makes_temp_dir runs -> init <> [])
    /\ (~ Exists makes_temp_dir runs ->
        rlog out.2 = rlog w /\ out.1.2 = mkSession None).
Proof.
  cbv zeta. revert w. induction runs as [|[fs ws] runs IH]; intros w.
  - exists [], []. cbn. rewrite app_nil_r. repeat split; try done.
    + by left.
    + by intros H%Exists_nil.
  - cbn [session]. destruct (temp_dir fs) as [d|e] eqn:Hd.
    + pose proof (startup_cases fs d (mkWorld (rlog w) (heap w) []) Hd) as Hs.
      cbv zeta in Hs. cbn [rlog heap page] in Hs.
      assert (Hinit : exists b init pg,
        startup R fs (mkSession None) (mkWorld (rlog w) (heap w) [])
        = (Ok (mkSession (Some b)), mkWorld (rlog w ++ init) (heap w) pg)
        /\ (init = [load_admixtools] \/ init = [load_admixtools; load_tidyverse])).
      { destruct (R (rlog w ++ [load_admixtools]));
          [destruct (R ((rlog w ++ [load_admixtools]) ++ [load_tidyverse]))
          |destruct (R ((rlog w ++ [load_admixtools]) ++ [load_tidyverse]))|];
          rewrite Hs; eauto 10. }
      destruct Hinit as (b & init & pg & Hst & Hinit).
      destruct (script_after_startup fs ws _ _ _ _ Hst) as (w1 & rest1 & -> & Hl1 & Hf1).
      destruct (session_ready runs (mkSession (Some b)) w1) as (rest2 & _ & Hl2 & Hf2);
        [done|].
      destruct (session float_repr linesep R runs (mkSession (Some b)) w1)
        as [[pages ss2] w2].
      cbn [fst snd rlog] in *. exists init, (rest1 ++ rest2).
      split; [by rewrite Hl2, Hl1, <- !app_assoc|].
      split; [by apply Forall_app|].
      split; [by right|]. split.
      * intros _. by destruct Hinit as [->| ->].
      * intros Hn. exfalso. apply Hn, Exists_cons_hd. unfold makes_temp_dir.
        cbn [fst]. eauto.
    + assert (Hscript : script float_repr linesep R fs ws (mkSession None)
                          (mkWorld (rlog w) (heap w) [])
                        = (Raise e, mkWorld (rlog w) (heap w) [])).
      { unfold script, bind at 1.
        by rewrite (startup_escapes fs e (mkSession None) _ eq_refl Hd). }
      rewrite Hscript.
      destruct (IH (mkWorld (rlog w) (heap w) []))
        as (init & rest & Hl & Hf & Hi & Hex & Hno).
      destruct (session float_repr linesep R runs (mkSession None)
                  (mkWorld (rlog w) (heap w) [])) as [[pages ss2] w2].
      cbn [fst snd rlog] in *. exists init, rest.
      split; [done|]. split; [done|]. split; [done|].
      assert (Hhd : ~ makes_temp_dir (fs, ws)).
      { unfold makes_temp_dir. cbn [fst]. rewrite Hd. by intros [d Hd']. }
      split.
      * intros Hx. apply Hex. by apply Exists_cons in Hx as [Hx|Hx].
      * intros Hn. apply Hno. intros Hx. apply Hn. by apply Exists_cons_tl.
Qed.

(** X6.  In a session the libraries are loaded at most once, and only when
    the session state does not have the key yet: by the first run in which
    the temporary directory can be made, before anything else is sent to R.
    Everything else the session sends to R is a call of an analysis.  As
    long as making the temporary directory raises, the run ends there: it
    sends nothing to R and the key stays unset. *)
Theorem libraries_loaded_once (runs : list (files * widgets)) ss w :
  let out := session float_repr linesep R runs ss w in
  exists init rest,
    rlog out.2 = rlog w ++ init ++ rest
    /\ Forall (fun c => ~ library_call c) rest
    /\ (init = [] \/ init = [load_admixtools]
        \/ init = [load_admixtools; load_tidyverse])
    /\ (r_env_setup_minimal ss <> None -> init = [])
    /\ (r_env_setup_minimal ss = None -> Exists makes_temp_dir runs -> init <> [])
    /\ (r_env_setup_minimal ss = None -> ~ Exists makes_temp_dir runs ->
        rlog out.2 = rlog w /\ out.1.2 = ss).
Proof.
  cbv zeta. destruct (r_env_setup_minimal ss) as [b|] eqn:Hk.
  - destruct (session_ready runs ss w) as (rest & _ & Hl & Hf); [congruence|].
    exists [], rest. cbn [app]. repeat split; try done. by left.
  - destruct ss as [k]. cbn in Hk. subst k.
    destruct (session_unset runs w) as (init & rest & Hl & Hf & Hi & Hex & Hno).
    cbv zeta in *. exists init, rest. repeat split; try done.
    + by apply Hno.
    + by apply Hno.
Qed.

End Failures.

(** A session on a host where the temporary directory cannot be made at
    first: the first two runs end with the exception before anything is
    written or sent to R, the third run loads the libraries and runs the
    analysis. *)
Example temp_dir_failure_session :
  let '(pages, ss', w') :=
    session repr_fixed12 [10%N] (R_fixed sample_items)
      [ (readonly_home_files, sample_widgets false);
        (readonly_home_files, sample_widgets true);
        (sample_files, sample_widgets true) ]
      (mkSession None) empty_world in
  (exists pg, pages = [ []; []; pg ])
  /\ ss' = mkSession (Some true)
  /\ rlog w'
     = load_admixtools :: load_tidyverse
       :: analysis_calls (lit "data/v54") (lit "T") [lit "A"; lit "B"] [lit "X"].
Proof. vm_compute. split; [eexists; reflexivity|]. split; reflexivity. Qed.


(** ** UTF-8 *)

Lemma to_N_byte_of_N (n : N) : (n < 256)%N -> Byte.to_N (byte_of_N n) = n.
Proof.
  intros Hn. unfold byte_of_N. destruct (Byte.of_N n) as [b|] eqn:E; cbn.
  - by apply Byte.to_of_N.
  - apply Byte.of_N_None_iff in E. lia.
Qed.

Lemma byte_of_to_N (b : Byte.byte) : byte_of_N (Byte.to_N b) = b.
Proof. unfold byte_of_N. by rewrite Byte.of_to_N. Qed.

Lemma continuation_byte (n : N) :
  (n < 64)%N -> continuation (byte_of_N (128 + n)) = Some n.
Proof.
  intros Hn. unfold continuation. rewrite to_N_byte_of_N by lia.
  destruct (N.leb_spec 128 (128 + n)); [|lia].
  destruct (N.ltb_spec (128 + n) 192); [|lia]. cbn. f_equal. lia.
Qed.

Lemma continuation_inv (b : Byte.byte) (c : N) :
  continuation b = Some c -> (c < 64)%N /\ byte_of_N (128 + c) = b.
Proof.
  unfold continuation.
  destruct (N.leb_spec 128 (Byte.to_N b)); [|done].
  destruct (N.ltb_spec (Byte.to_N b) 192); [|done]. cbn. intros [= <-].
  split; [lia|]. rewrite <- (byte_of_to_N b) at 2. f_equal. lia.
Qed.

Lemma div_mod_64 (q r : N) :
  (r < 64)%N -> ((q * 64 + r) / 64 = q /\ (q * 64 + r) mod 64 = r)%N.
Proof.
  intros Hr. split.
  - symmetry. apply (N.div_unique _ 64 q r); lia.
  - symmetry. apply (N.mod_unique _ 64 q r); lia.
Qed.

Lemma decode_utf8_cons (b0 : Byte.byte) (rest : list Byte.byte) :
  decode_utf8 (b0 :: rest)
  = let n := Byte.to_N b0 in
    if (n <? 128)%N then
      match decode_utf8 rest with Some s => Some (n :: s) | None => None end
    else if (n <? 192)%N then None
    else if (n <? 224)%N then
      match rest with
      | b1 :: rest' =>
          match continuation b1, decode_utf8 rest' with
          | Some c1, Some s =>
              let c := ((n - 192) * 64 + c1)%N in
              if (128 <=? c)%N then Some (c :: s) else None
          | _, _ => None
          end
      | _ => None
      end
    else if (n <? 240)%N then
      match rest with
      | b1 :: b2 :: rest' =>
          match continuation b1, continuation b2, decode_utf8 rest' with
          | Some c1, Some c2, Some s =>
              let c := ((n - 224) * 4096 + c1 * 64 + c2)%N in
              if (2048 <=? c)%N && negb ((55296 <=? c) && (c <=? 57343))%N
              then Some (c :: s) else None
          | _, _, _ => None
          end
      | _ => None
      end
    else if (n <? 248)%N then
      match rest with
      | b1 :: b2 :: b3 :: rest' =>
          match continuation b1, continuation b2, continuation b3,
                decode_utf8 rest' with
          | Some c1, Some c2, Some c3, Some s =>
              let c := ((n - 240) * 262144 + c1 * 4096 + c2 * 64 + c3)%N in
              if (65536 <=? c)%N && (c <? 1114112)%N
              then Some (c :: s) else None
          | _, _, _, _ => None
          end
      | _ => None
      end
    else None.
Proof. reflexivity. Qed.

Lemma decode_utf8_char (c : N) (bs rest : list Byte.byte) :
  utf8_char c = Ok bs ->
  decode_utf8 (bs ++ rest)
  = match decode_utf8 rest with Some s => Some (c :: s) | None => None end.
Proof.
  unfold utf8_char.
  destruct (N.ltb_spec c 128) as [H1|H1].
  { intros [= <-]. cbn [app]. rewrite decode_utf8_cons. cbv zeta.
    rewrite to_N_byte_of_N by lia.
    by destruct (N.ltb_spec c 128); [|lia]. }
  destruct (N.ltb_spec c 2048) as [H2|H2].
  { intros [= <-]. cbn [app]. rewrite decode_utf8_cons. cbv zeta.
    pose proof (N.Div0.div_lt_upper_bound c 64 32 ltac:(lia)) as Hq.
    pose proof (N.mod_upper_bound c 64 ltac:(lia)) as Hr.
    assert (2 <= c / 64)%N by (apply N.div_le_lower_bound; lia).
    rewrite to_N_byte_of_N by lia.
    destruct (N.ltb_spec (192 + c / 64) 128); [lia|].
    destruct (N.ltb_spec (192 + c / 64) 192); [lia|].
    destruct (N.ltb_spec (192 + c / 64) 224); [|lia].
    rewrite continuation_byte by lia.
    replace ((192 + c / 64 - 192) * 64 + c mod 64)%N with c.
    2:{ pose proof (N.div_mod c 64 ltac:(lia)). lia. }
    by destruct (N.leb_spec 128 c); [|lia]. }
  destruct (N.ltb_spec c 65536) as [H3|H3].
  { destruct ((55296 <=? c) && (c <=? 57343))%N eqn:Hs; [done|].
    intros [= <-]. cbn [app]. rewrite decode_utf8_cons. cbv zeta.
    pose proof (N.Div0.div_lt_upper_bound c 4096 16 ltac:(lia)) as Hq.
    pose proof (N.le_0_l (c / 4096)) as Hq0.
    pose proof (N.mod_upper_bound (c / 64) 64 ltac:(lia)) as Hr1.
    pose proof (N.mod_upper_bound c 64 ltac:(lia)) as Hr2.
    rewrite to_N_byte_of_N by lia.
    destruct (N.ltb_spec (224 + c / 4096) 128); [lia|].
    destruct (N.ltb_spec (224 + c / 4096) 192); [lia|].
    destruct (N.ltb_spec (224 + c / 4096) 224); [lia|].
    destruct (N.ltb_spec (224 + c / 4096) 240); [|lia].
    rewrite !continuation_byte by lia.
    replace ((224 + c / 4096 - 224) * 4096 + (c / 64) mod 64 * 64 + c mod 64)%N
      with c.
    2:{ pose proof (N.div_mod c 64 ltac:(lia)).
        pose proof (N.div_mod (c / 64) 64 ltac:(lia)).
        rewrite N.Div0.div_div in *. change (64 * 64)%N with 4096%N in *. lia. }
    rewrite Hs. by destruct (N.leb_spec 2048 c); [|lia]. }
  destruct (N.ltb_spec c 1114112) as [H4|H4]; [|done].
  intros [= <-]. cbn [app]. rewrite decode_utf8_cons. cbv zeta.
  pose proof (N.Div0.div_lt_upper_bound c 262144 5 ltac:(lia)) as Hq.
  pose proof (N.le_0_l (c / 262144)) as Hq0.
  pose proof (N.mod_upper_bound (c / 4096) 64 ltac:(lia)) as Hr0.
  pose proof (N.mod_upper_bound (c / 64) 64 ltac:(lia)) as Hr1.
  pose proof (N.mod_upper_bound c 64 ltac:(lia)) as Hr2.
  rewrite to_N_byte_of_N by lia.
  destruct (N.ltb_spec (240 + c / 262144) 128); [lia|].
  destruct (N.ltb_spec (240 + c / 262144) 192); [lia|].
  destruct (N.ltb_spec (240 + c / 262144) 224); [lia|].
  destruct (N.ltb_spec (240 + c / 262144) 240); [lia|].
  destruct (N.ltb_spec (240 + c / 262144) 248); [|lia].
  rewrite !continuation_byte by lia.
  replace ((240 + c / 262144 - 240) * 262144 + (c / 4096) mod 64 * 4096
           + (c / 64) mod 64 * 64 + c mod 64)%N with c.
  2:{ pose proof (N.div_mod c 64 ltac:(lia)).
      pose proof (N.div_mod (c / 64) 64 ltac:(lia)).
      pose proof (N.div_mod (c / 64 / 64) 64 ltac:(lia)).
      rewrite !N.Div0.div_div in *.
      change (64 * 64)%N with 4096%N in *. change (4096 * 64)%N with 262144%N in *. lia. }
  destruct (N.leb_spec 65536 c); [|lia].
  by destruct (N.ltb_spec c 1114112); [|lia].
Qed.

(** What [encode] produces, the strict decoder reads back as the same
    text. *)
Lemma decode_encode_utf8 (s : str) (bs : list Byte.byte) :
  encode_utf8 s = Ok bs -> decode_utf8 bs = Some s.
Proof.
  unfold encode_utf8. revert bs. induction s as [|c s IH]; intros bs; cbn [rmapM rbind].
  - by intros [= <-].
  - destruct (utf8_char c) as [b|] eqn:Hc; cbn [rbind]; [|done].
    destruct (rmapM utf8_char s) as [bs'|] eqn:Hs; cbn [rbind]; [|done].
    intros [= <-]. cbn [List.concat]. rewrite (decode_utf8_char c b) by done.
    by rewrite (IH (List.concat bs')).
Qed.

Lemma encode_utf8_cons (c : char) (s : str) (b bs : list Byte.byte) :
  utf8_char c = Ok b -> encode_utf8 s = Ok bs -> encode_utf8 (c :: s) = Ok (b ++ bs).
Proof.
  unfold encode_utf8. cbn [rmapM rbind]. intros ->. cbn [rbind].
  destruct (rmapM utf8_char s); cbn [rbind]; [|done]. by intros [= <-].
Qed.

Lemma decode_step (bs : list Byte.byte) (s : str) :
  decode_utf8 bs = Some s ->
  match bs with
  | [] => s = []
  | _ => exists c s' b rest,
           s = c :: s' /\ bs = b ++ rest /\ utf8_char c = Ok b
           /\ decode_utf8 rest = Some s' /\ (length rest < length bs)%nat
           /\ (c = 13%N -> b = [Byte.x0d])
  end.
Proof.
  destruct bs as [|b0 rest]; [by intros [= <-]|].
  rewrite decode_utf8_cons. cbv zeta.
  pose proof (Byte.to_N_bounded b0) as Hb0.
  destruct (N.ltb_spec (Byte.to_N b0) 128) as [H1|H1].
  { destruct (decode_utf8 rest) as [s'|] eqn:Hr; [|done]. intros [= <-].
    exists (Byte.to_N b0), s', [b0], rest. repeat split; try done.
    - unfold utf8_char. destruct (N.ltb_spec (Byte.to_N b0) 128); [|lia].
      by rewrite byte_of_to_N.
    - cbn. lia.
    - intros Hc. f_equal. rewrite <- (byte_of_to_N b0). by rewrite Hc. }
  destruct (N.ltb_spec (Byte.to_N b0) 192) as [H2|H2]; [done|].
  destruct (N.ltb_spec (Byte.to_N b0) 224) as [H3|H3].
  { destruct rest as [|b1 rest]; [done|].
    destruct (continuation b1) as [c1|] eqn:Hc1; [|done].
    destruct (decode_utf8 rest) as [s'|] eqn:Hr; [|done].
    destruct (N.leb_spec 128 ((Byte.to_N b0 - 192) * 64 + c1)) as [Hc|Hc]; [|done].
    intros [= <-]. apply continuation_inv in Hc1 as [Hlt1 Hb1].
    destruct (div_mod_64 (Byte.to_N b0 - 192) c1 Hlt1) as [Hd Hm].
    exists ((Byte.to_N b0 - 192) * 64 + c1)%N, s', [b0; b1], rest.
    repeat split; try done.
    - unfold utf8_char.
      destruct (N.ltb_spec ((Byte.to_N b0 - 192) * 64 + c1) 128); [lia|].
      destruct (N.ltb_spec ((Byte.to_N b0 - 192) * 64 + c1) 2048); [|lia].
      rewrite Hd, Hm, Hb1.
      replace (192 + (Byte.to_N b0 - 192))%N with (Byte.to_N b0) by lia.
      by rewrite byte_of_to_N.
    - cbn. lia.
    - lia. }
  destruct (N.ltb_spec (Byte.to_N b0) 240) as [H4|H4].
  { destruct rest as [|b1 [|b2 rest]]; [done|done|].
    destruct (continuation b1) as [c1|] eqn:Hc1; [|done].
    destruct (continuation b2) as [c2|] eqn:Hc2; [|done].
    destruct (decode_utf8 rest) as [s'|] eqn:Hr; [|done].
    set (a := (Byte.to_N b0 - 224)%N).
    destruct (N.leb_spec 2048 (a * 4096 + c1 * 64 + c2)) as [Hc|Hc]; [|done].
    destruct ((55296 <=? a * 4096 + c1 * 64 + c2)
              && (a * 4096 + c1 * 64 + c2 <=? 57343))%N eqn:Hs; [done|].
    cbn [andb negb]. intros [= <-].
    apply continuation_inv in Hc1 as [Hlt1 Hb1].
    apply continuation_inv in Hc2 as [Hlt2 Hb2].
    assert (Ha : (a < 16)%N) by (unfold a; lia).
    assert (He : (a * 4096 + c1 * 64 + c2 = (a * 64 + c1) * 64 + c2)%N) by lia.
    destruct (div_mod_64 (a * 64 + c1) c2 Hlt2) as [Hd Hm].
    destruct (div_mod_64 a c1 Hlt1) as [Hd1 Hm1].
    assert (Hq : ((a * 4096 + c1 * 64 + c2) / 4096 = a)%N).
    { symmetry. apply (N.div_unique _ 4096 a (c1 * 64 + c2)); lia. }
    exists (a * 4096 + c1 * 64 + c2)%N, s', [b0; b1; b2], rest.
    repeat split; try done.
    - unfold utf8_char.
      destruct (N.ltb_spec (a * 4096 + c1 * 64 + c2) 128); [lia|].
      destruct (N.ltb_spec (a * 4096 + c1 * 64 + c2) 2048); [lia|].
      destruct (N.ltb_spec (a * 4096 + c1 * 64 + c2) 65536); [|lia].
      rewrite Hs, Hq. rewrite He, Hd, Hm, Hm1, Hb1, Hb2.
      replace (224 + a)%N with (Byte.to_N b0) by (unfold a; lia).
      by rewrite byte_of_to_N.
    - cbn. lia.
    - lia. }
  destruct (N.ltb_spec (Byte.to_N b0) 248) as [H5|H5]; [|done].
  destruct rest as [|b1 [|b2 [|b3 rest]]]; [done|done|done|].
  destruct (continuation b1) as [c1|] eqn:Hc1; [|done].
  destruct (continuation b2) as [c2|] eqn:Hc2; [|done].
  destruct (continuation b3) as [c3|] eqn:Hc3; [|done].
  destruct (decode_utf8 rest) as [s'|] eqn:Hr; [|done].
  set (a := (Byte.to_N b0 - 240)%N).
  destruct (N.leb_spec 65536 (a * 262144 + c1 * 4096 + c2 * 64 + c3)) as [Hc|Hc]; [|done].
  destruct (N.ltb_spec (a * 262144 + c1 * 4096 + c2 * 64 + c3) 1114112) as [Hu|Hu]; [|done].
  cbn [andb]. intros [= <-].
  apply continuation_inv in Hc1 as [Hlt1 Hb1].
  apply continuation_inv in Hc2 as [Hlt2 Hb2].
  apply continuation_inv in Hc3 as [Hlt3 Hb3].
  assert (Ha : (a < 8)%N) by (unfold a; lia).
  assert (He : (a * 262144 + c1 * 4096 + c2 * 64 + c3
                = ((a * 64 + c1) * 64 + c2) * 64 + c3)%N) by lia.
  destruct (div_mod_64 ((a * 64 + c1) * 64 + c2) c3 Hlt3) as [Hd Hm].
  destruct (div_mod_64 (a * 64 + c1) c2 Hlt2) as [Hd2 Hm2].
  destruct (div_mod_64 a c1 Hlt1) as [Hd1 Hm1].
  assert (Hq : ((a * 262144 + c1 * 4096 + c2 * 64 + c3) / 262144 = a)%N).
  { symmetry. apply (N.div_unique _ 262144 a (c1 * 4096 + c2 * 64 + c3)); lia. }
  assert (Hq2 : ((a * 262144 + c1 * 4096 + c2 * 64 + c3) / 4096 = a * 64 + c1)%N).
  { symmetry. apply (N.div_unique _ 4096 (a * 64 + c1) (c2 * 64 + c3)); lia. }
  exists (a * 262144 + c1 * 4096 + c2 * 64 + c3)%N, s', [b0; b1; b2; b3], rest.
  repeat split; try done.
  - unfold utf8_char.
    destruct (N.ltb_spec (a * 262144 + c1 * 4096 + c2 * 64 + c3) 128); [lia|].
    destruct (N.ltb_spec (a * 262144 + c1 * 4096 + c2 * 64 + c3) 2048); [lia|].
    destruct (N.ltb_spec (a * 262144 + c1 * 4096 + c2 * 64 + c3) 65536); [lia|].
    destruct (N.ltb_spec (a * 262144 + c1 * 4096 + c2 * 64 + c3) 1114112); [|lia].
    rewrite Hq, Hq2, Hm1. rewrite He, Hd, Hm, Hm2, Hb1, Hb2, Hb3.
    replace (240 + a)%N with (Byte.to_N b0) by (unfold a; lia).
    by rewrite byte_of_to_N.
  - cbn. lia.
  - lia.
Qed.

(** Bytes the strict decoder accepts are the encoding of the text it
    returns: decoding and encoding again gives the same bytes. *)
Lemma encode_decode_utf8 (bs : list Byte.byte) (s : str) :
  decode_utf8 bs = Some s -> encode_utf8 s = Ok bs.
Proof.
  remember (length bs) as n eqn:Hn. revert bs s Hn.
  induction (lt_wf n) as [n _ IH]. intros bs s -> Hd.
  pose proof (decode_step bs s Hd) as Hstep.
  destruct bs as [|b0 bs']; [by subst|].
  destruct Hstep as (c & s' & b & rest & -> & Hbs & Hc & Hrest & Hlen & _).
  rewrite Hbs. apply encode_utf8_cons; [done|].
  by apply (IH (length rest)).
Qed.

(** X15.  Encoding and strict decoding are inverse to each other: a text is
    encoded as given bytes exactly when these bytes decode to that text.  So
    no two texts share an encoding, and bytes that decode at all are the
    encoding of what they decode to. *)
Theorem utf8_round_trip (s : str) (bs : list Byte.byte) :
  encode_utf8 s = Ok bs <-> decode_utf8 bs = Some s.
Proof. split; [apply decode_encode_utf8|apply encode_decode_utf8]. Qed.

Lemma utf8_char_ok (c : char) :
  (exists b, utf8_char c = Ok b)
  <-> (c < 1114112)%N /\ ~ (55296 <= c <= 57343)%N.
Proof.
  unfold utf8_char.
  destruct (N.ltb_spec c 128); [split; [lia|eauto]|].
  destruct (N.ltb_spec c 2048); [split; [lia|eauto]|].
  destruct (N.ltb_spec c 65536).
  - destruct (N.leb_spec 55296 c), (N.leb_spec c 57343); cbn [andb];
      (split; [intros [b Hb]; try done; lia | intros [? ?]; try lia; eauto]).
  - destruct (N.ltb_spec c 1114112); (split; [intros [b Hb]; try done; lia|]).
    + eauto.
    + lia.
Qed.

Lemma encode_utf8_ok (s : str) :
  (exists bs, encode_utf8 s = Ok bs) <-> Forall (fun c => exists b, utf8_char c = Ok b) s.
Proof.
  induction s as [|c s IH].
  - split; [done|]. intros _. by exists [].
  - rewrite Forall_cons, <- IH. unfold encode_utf8. cbn [rmapM rbind]. split.
    + intros [bs H]. destruct (utf8_char c) as [b|]; cbn [rbind] in H; [|done].
      destruct (rmapM utf8_char s) as [l|]; cbn [rbind] in H; [|done]. eauto.
    + intros [[b ->] [bs H]]. cbn [rbind].
      destruct (rmapM utf8_char s) as [l|]; cbn [rbind] in *; [eauto|done].
Qed.

(** Text read with universal newlines holds no carriage return, and apart
    from line feeds only characters of the text it was made from. *)
Lemma universal_newlines_chars (s : str) (c : char) :
  c ∈ universal_newlines s -> c <> 13%N /\ (c ∈ s \/ c = 10%N).
Proof.
  remember (length s) as n eqn:Hn. revert s Hn c.
  induction (lt_wf n) as [n _ IH]. intros s -> c.
  destruct s as [|d s]; [by intros ?%elem_of_nil|].
  cbn [universal_newlines]. destruct (N.eqb_spec d 13) as [->|Hd].
  - intros [->|Hc]%elem_of_cons; [split; [done|by right]|].
    destruct s as [|e s]; [by apply elem_of_nil in Hc|].
    destruct (N.eqb_spec e 10) as [->|He].
    + destruct (IH (length s) ltac:(cbn; lia) s eq_refl c Hc) as [? [?|?]].
      * split; [done|]. left. by do 2 right.
      * split; [done|]. by right.
    + destruct (IH (length (e :: s)) ltac:(cbn; lia) (e :: s) eq_refl c Hc) as [? [?|?]].
      * split; [done|]. left. by right.
      * split; [done|]. by right.
  - intros [->|Hc]%elem_of_cons; [split; [done|left; by left]|].
    destruct (IH (length s) ltac:(cbn; lia) s eq_refl c Hc) as [? [?|?]].
    + split; [done|]. left. by right.
    + split; [done|]. by right.
Qed.

Lemma universal_newlines_id (s : str) : 13%N ∉ s -> universal_newlines s = s.
Proof.
  induction s as [|c s IH]; [done|]. intros [Hc Hs]%not_elem_of_cons.
  cbn [universal_newlines]. destruct (N.eqb_spec c 13); [congruence|].
  by rewrite IH.
Qed.

(** A carriage return in decoded text comes from a carriage-return byte. *)
Lemma decode_utf8_cr (bs : list Byte.byte) (s : str) :
  decode_utf8 bs = Some s -> 13%N ∈ s -> Byte.x0d ∈ bs.
Proof.
  remember (length bs) as n eqn:Hn. revert bs s Hn.
  induction (lt_wf n) as [n _ IH]. intros bs s -> Hd.
  pose proof (decode_step bs s Hd) as Hstep.
  destruct bs as [|b0 bs']; [subst; by intros ?%elem_of_nil|].
  destruct Hstep as (c & s' & b & rest & -> & Hbs & Hc & Hrest & Hlen & Hcr).
  rewrite Hbs. intros [Heq|Hin]%elem_of_cons.
  - rewrite (Hcr (eq_sym Heq)). by left.
  - apply elem_of_app. right. by apply (IH (length rest) Hlen rest s').
Qed.

(** A carriage-return byte in encoded text comes from a carriage return. *)
Lemma utf8_char_cr (c : char) (b : list Byte.byte) :
  utf8_char c = Ok b -> Byte.x0d ∈ b -> c = 13%N.
Proof.
  intros Hc Hb. unfold utf8_char in Hc.
  destruct (N.ltb_spec c 128).
  { injection Hc as <-. apply list_elem_of_singleton in Hb.
    assert (Byte.to_N Byte.x0d = c) by (rewrite Hb; apply to_N_byte_of_N; lia).
    by subst c. }
  exfalso.
  assert (Hhigh : forall n, (128 <= n < 256)%N -> Byte.x0d <> byte_of_N n).
  { intros n Hn E. apply (f_equal Byte.to_N) in E.
    rewrite to_N_byte_of_N in E by lia. cbn in E. lia. }
  pose proof (N.mod_upper_bound c 64 ltac:(lia)).
  pose proof (N.mod_upper_bound (c / 64) 64 ltac:(lia)).
  pose proof (N.mod_upper_bound (c / 4096) 64 ltac:(lia)).
  pose proof (N.le_0_l (c mod 64)).
  pose proof (N.le_0_l ((c / 64) mod 64)).
  pose proof (N.le_0_l ((c / 4096) mod 64)).
  destruct (N.ltb_spec c 2048).
  { injection Hc as <-.
    pose proof (N.Div0.div_lt_upper_bound c 64 32 ltac:(lia)).
    pose proof (N.le_0_l (c / 64)).
    repeat (apply elem_of_cons in Hb as [Hb|Hb]; [exfalso; eapply Hhigh; [|exact Hb]; lia|]).
    by apply elem_of_nil in Hb. }
  destruct (N.ltb_spec c 65536).
  { destruct ((55296 <=? c) && (c <=? 57343))%N; [done|]. injection Hc as <-.
    pose proof (N.Div0.div_lt_upper_bound c 4096 16 ltac:(lia)).
    pose proof (N.le_0_l (c / 4096)).
    repeat (apply elem_of_cons in Hb as [Hb|Hb]; [exfalso; eapply Hhigh; [|exact Hb]; lia|]).
    by apply elem_of_nil in Hb. }
  destruct (N.ltb_spec c 1114112); [|done]. injection Hc as <-.
  pose proof (N.Div0.div_lt_upper_bound c 262144 5 ltac:(lia)).
  pose proof (N.le_0_l (c / 262144)).
  repeat (apply elem_of_cons in Hb as [Hb|Hb]; [exfalso; eapply Hhigh; [|exact Hb]; lia|]).
  by apply elem_of_nil in Hb.
Qed.

Lemma encode_utf8_cr (s : str) (bs : list Byte.byte) :
  encode_utf8 s = Ok bs -> Byte.x0d ∈ bs -> 13%N ∈ s.
Proof.
  revert bs. induction s as [|c s IH]; intros bs.
  - intros [= <-]. by intros ?%elem_of_nil.
  - unfold encode_utf8. cbn [rmapM rbind].
    destruct (utf8_char c) as [b|] eqn:Hc; cbn [rbind]; [|done].
    destruct (rmapM utf8_char s) as [l|] eqn:Hl; cbn [rbind]; [|done].
    intros [= <-]. cbn [List.concat]. intros [Hb|Hr]%elem_of_app.
    + apply elem_of_cons. left. symmetry. by eapply utf8_char_cr.
    + apply elem_of_cons. right. apply (IH (List.concat l)); [|done].
      unfold encode_utf8. by rewrite Hl.
Qed.

(** ** The side bar *)

Section SidebarFacts.

Variable disk : str -> node.
Variable basename : str -> str.

(** X16.  What the index file inspector shows for the file it was given: for a
    readable file that is valid UTF-8, the download button, whose data is
    the UTF-8 encoding of the file's text with every carriage return, alone
    or before a line feed, read as a line feed; for a file that is not valid
    UTF-8, the error line with UnicodeDecodeError; for what cannot be opened,
    the error line with OSError.  Encoding the text again never fails. *)
Theorem index_file_outcome (path : str) :
  match disk path with
  | File content =>
      match decode_utf8 content with
      | Some text =>
          exists data,
            index_file_inspector disk basename path
            = sidebar_download_button (lit "Download Index File (.fam/.ind)") data
                (basename path) (lit "text/plain")
                (lit "Click to download the index file to view all population names.")
            /\ decode_utf8 data = Some (universal_newlines text)
            /\ Byte.x0d ∉ data
      | None =>
          index_file_inspector disk basename path
          = sidebar_read_error (basename path) UnicodeDecodeError
      end
  | _ =>
      index_file_inspector disk basename path
      = sidebar_read_error (basename path) OSError
  end.
Proof.
  unfold index_file_inspector, read_text.
  destruct (disk path) as [| |content]; [done|done|].
  destruct (decode_utf8 content) as [text|] eqn:Hd; [|done].
  assert (Hok : exists data, encode_utf8 (universal_newlines text) = Ok data).
  { apply encode_utf8_ok, Forall_forall. intros c Hc.
    apply universal_newlines_chars in Hc as [_ [Hc| ->]]; [|by eexists].
    apply encode_decode_utf8 in Hd.
    assert (Hall : exists bs, encode_utf8 text = Ok bs) by eauto.
    apply encode_utf8_ok in Hall. rewrite Forall_forall in Hall. by apply Hall. }
  destruct Hok as [data Hdata]. rewrite Hdata. exists data.
  split; [done|]. pose proof (decode_encode_utf8 _ _ Hdata) as Hback.
  split; [done|]. intros Hcr.
  assert (Hin : 13%N ∈ universal_newlines text) by by eapply encode_utf8_cr.
  by apply universal_newlines_chars in Hin as [? _].
Qed.

(** X17.  An index file that is valid UTF-8 and holds no carriage return is
    offered for download byte for byte. *)
Theorem index_file_download_exact (path : str) (content : list Byte.byte) (text : str) :
  disk path = File content ->
  decode_utf8 content = Some text ->
  Byte.x0d ∉ content ->
  index_file_inspector disk basename path
  = sidebar_download_button (lit "Download Index File (.fam/.ind)") content
      (basename path) (lit "text/plain")
      (lit "Click to download the index file to view all population names.").
Proof.
  intros Hdisk Hd Hcr. unfold index_file_inspector, read_text. rewrite Hdisk, Hd.
  rewrite universal_newlines_id.
  - by rewrite (encode_decode_utf8 _ _ Hd).
  - intros Hin. apply Hcr. by eapply decode_utf8_cr.
Qed.

End SidebarFacts.

(** X18.  When the [.fam] file exists, the side bar does not depend on the
    [.ind] file, nor on anything else on the disk: the [.fam] file is the
    one inspected, also when it cannot be read while the [.ind] file
    could. *)
Theorem fam_takes_precedence (disk1 disk2 : str -> node) (basename : str -> str)
    (prefix_path : str) :
  disk1 (prefix_path ++ lit ".fam") <> Absent ->
  disk2 (prefix_path ++ lit ".fam") = disk1 (prefix_path ++ lit ".fam") ->
  sidebar disk2 basename (Some prefix_path) = sidebar disk1 basename (Some prefix_path)
  /\ (truthy prefix_path = true ->
      last (sidebar disk1 basename (Some prefix_path))
      = Some (index_file_inspector disk1 basename (prefix_path ++ lit ".fam"))).
Proof.
  intros Hex Heq. unfold sidebar.
  cbv zeta. cbn [prefix_defined default from_option]. unfold id.
  destruct (truthy prefix_path) eqn:Hp; [|done].
  assert (Hfam : truthy (prefix_path ++ lit ".fam") = true) by by destruct prefix_path.
  assert (H1 : path_exists disk1 (prefix_path ++ lit ".fam") = true)
    by (unfold path_exists; by destruct (disk1 _)).
  assert (H2 : path_exists disk2 (prefix_path ++ lit ".fam") = true)
    by (unfold path_exists; rewrite Heq; by destruct (disk1 _)).
  assert (Hi : index_file_inspector disk2 basename (prefix_path ++ lit ".fam")
               = index_file_inspector disk1 basename (prefix_path ++ lit ".fam"))
    by (unfold index_file_inspector, read_text; by rewrite Heq).
  rewrite H1, H2, Hfam, Hi. done.
Qed.

(** ** Text files and text areas *)

Lemma lstrip_starts_clean (s : str) : starts_clean (lstrip s).
Proof.
  induction s as [|c s IH]; [done|]. cbn [lstrip].
  destruct (isspace c) eqn:Hc; [done|]. exact Hc.
Qed.

Lemma lstrip_clean (s : str) : starts_clean s -> lstrip s = s.
Proof. destruct s as [|c s]; [done|]. cbn. by intros ->. Qed.

Lemma lstrip_snoc (u : str) (c : char) :
  isspace c = false -> exists v, lstrip (u ++ [c]) = v ++ [c].
Proof.
  intros Hc. induction u as [|d u IH]; cbn [app lstrip].
  - rewrite Hc. by exists [].
  - destruct (isspace d); [done|]. by exists (d :: u).
Qed.

Lemma rstrip_starts_clean (s : str) : starts_clean s -> starts_clean (rstrip s).
Proof.
  destruct s as [|c s]; [done|]. cbn [starts_clean]. intros Hc.
  unfold rstrip. cbn [rev]. destruct (lstrip_snoc (rev s) c Hc) as [v ->].
  rewrite rev_app_distr. exact Hc.
Qed.

Lemma rstrip_idemp (s : str) : rstrip (rstrip s) = rstrip s.
Proof.
  unfold rstrip. rewrite rev_involutive.
  by rewrite (lstrip_clean _ (lstrip_starts_clean _)).
Qed.

(** Stripping a stripped string changes nothing. *)
Lemma strip_idemp (s : str) : strip (strip s) = strip s.
Proof.
  unfold strip.
  rewrite (lstrip_clean (rstrip (lstrip s))).
  - apply rstrip_idemp.
  - apply rstrip_starts_clean, lstrip_starts_clean.
Qed.

Lemma starts_clean_app (a b : str) : a <> [] -> starts_clean a -> starts_clean (a ++ b).
Proof. by destruct a. Qed.

Lemma ends_clean_app (a b : str) :
  b <> [] -> starts_clean (rev b) -> starts_clean (rev (a ++ b)).
Proof.
  intros Hb Hc. rewrite rev_app_distr. apply starts_clean_app; [|done].
  intros H. apply Hb. apply (f_equal (@rev N)) in H. by rewrite rev_involutive in H.
Qed.

(** A string is left as it is by [strip] exactly when it neither starts nor
    ends with white space. *)
Lemma strip_fixed (s : str) :
  strip s = s <-> starts_clean s /\ starts_clean (rev s).
Proof.
  split.
  - intros H. split.
    + rewrite <- H. apply rstrip_starts_clean, lstrip_starts_clean.
    + rewrite <- H. unfold strip, rstrip. rewrite rev_involutive.
      apply lstrip_starts_clean.
  - intros [H1 H2]. unfold strip. rewrite (lstrip_clean s H1).
    unfold rstrip. by rewrite (lstrip_clean _ H2), rev_involutive.
Qed.

Lemma lstrip_space (s : str) : lstrip (32%N :: s) = lstrip s.
Proof. reflexivity. Qed.

Lemma split_nosep sep (a : str) : sep ∉ a -> split sep a = [a].
Proof.
  induction a as [|c a IH]; [done|]. intros [Hc Ha]%not_elem_of_cons.
  cbn [split]. destruct (N.eqb_spec c sep); [congruence|]. by rewrite IH.
Qed.

Lemma split_app sep (a b : str) :
  sep ∉ a -> split sep (a ++ sep :: b) = a :: split sep b.
Proof.
  induction a as [|c a IH]; intros Ha; cbn [split app].
  - by rewrite N.eqb_refl.
  - apply not_elem_of_cons in Ha as [Hc Ha].
    destruct (N.eqb_spec c sep); [congruence|]. by rewrite IH.
Qed.

(** Splitting what was joined: with a separator character followed by
    padding, the pieces after the first come back with the padding in
    front. *)
Lemma split_join sep (pad pre p : str) (ps : list str) :
  sep ∉ pad -> sep ∉ pre -> sep ∉ p -> Forall (fun q => sep ∉ q) ps ->
  split sep (pre ++ join (sep :: pad) (p :: ps))
  = (pre ++ p) :: List.map (fun q => pad ++ q) ps.
Proof.
  intros Hpad. revert pre p. induction ps as [|q r IH]; intros pre p Hpre Hp Hall.
  - cbn [join List.map]. apply split_nosep. rewrite elem_of_app. tauto.
  - apply Forall_cons in Hall as [Hq Hr].
    change (join (sep :: pad) (p :: q :: r))
      with (p ++ (sep :: pad) ++ join (sep :: pad) (q :: r)).
    cbn [app]. rewrite app_assoc, split_app by (rewrite elem_of_app; tauto).
    by rewrite IH.
Qed.

Lemma join_clean (sep : str) (p : str) (ps : list str) :
  Forall (fun q => q <> [] /\ strip q = q) (p :: ps) ->
  join sep (p :: ps) <> []
  /\ starts_clean (join sep (p :: ps))
  /\ starts_clean (rev (join sep (p :: ps))).
Proof.
  revert p. induction ps as [|q r IH]; intros p Hall.
  - apply Forall_cons in Hall as [[Hne Hp] _]. apply strip_fixed in Hp as [H1 H2].
    by cbn [join].
  - apply Forall_cons in Hall as [[Hne Hp] Hall]. apply strip_fixed in Hp as [H1 H2].
    destruct (IH q Hall) as (Hj & _ & Hje).
    change (join sep (p :: q :: r)) with (p ++ sep ++ join sep (q :: r)).
    split; [by destruct p|]. split; [by apply starts_clean_app|].
    rewrite app_assoc. by apply ends_clean_app.
Qed.

(** A line of the text area gives a name only if something is left of it
    once stripped. *)
Lemma truthy_filter_elem (p : str) (l : list str) :
  p ∈ List.filter truthy l <-> p ∈ l /\ p <> [].
Proof.
  rewrite !list_elem_of_In, List.filter_In. destruct p; cbn; intuition congruence.
Qed.

(** X12.  The names typed into a text area: every name is a line of the text,
    stripped; none is empty, none starts or ends with white space, none holds
    a line feed; a text area that holds only white space gives no name at
    all. *)
Theorem manual_names_clean (predefined : gmap str (list str)) (selected : option str)
    (text : str) :
  let pops := pops_of predefined (mkSide EnterManually selected text) in
  Forall (fun p => p <> [] /\ strip p = p /\ (10%N ∉ p) /\ forall c, c ∈ p -> c ∈ text) pops
  /\ (Forall (fun c => isspace c = true) text -> pops = []).
Proof.
  cbv zeta. unfold pops_of. cbn [radio text_area]. split.
  - destruct (truthy text); [|done]. apply Forall_forall. intros p Hp.
    apply truthy_filter_elem in Hp as [Hp Hne].
    apply list_elem_of_In, List.in_map_iff in Hp as (piece & <- & Hpiece).
    apply list_elem_of_In in Hpiece.
    split; [done|]. split; [apply strip_idemp|].
    split.
    + intros Hin. apply strip_subset in Hin.
      by destruct (split_pieces _ _ _ _ Hpiece Hin).
    + intros c Hc. apply strip_subset in Hc.
      by destruct (split_pieces _ _ _ _ Hpiece Hc).
  - intros Hblank. destruct (truthy text); [|done].
    destruct (List.filter truthy (List.map strip (split 10%N text))) as [|p l] eqn:Hf; [done|].
    exfalso. assert (Hp : p ∈ List.filter truthy (List.map strip (split 10%N text)))
      by (rewrite Hf; by left).
    apply truthy_filter_elem in Hp as [Hp Hne]. apply Hne.
    apply list_elem_of_In, List.in_map_iff in Hp as (piece & <- & Hpiece).
    apply list_elem_of_In in Hpiece.
    apply strip_blank, Forall_forall. intros c Hc.
    destruct (split_pieces _ _ _ _ Hpiece Hc) as [Hin _].
    rewrite Forall_forall in Hblank. by apply Hblank.
Qed.

(** ** config.txt *)

Lemma load_config_snoc (lines : list str) (line : str) :
  load_config (Some (lines ++ [line])) = config_line (load_config (Some lines)) line.
Proof. unfold load_config. by rewrite fold_left_app. Qed.

(** X7.  A line of [config.txt] that reads, once stripped, [key:value] is split
    at its first colon, so the value may hold colons itself; key and value
    are stripped; the line replaces what earlier lines gave for the same key
    and leaves the other keys as they were. *)
Theorem config_last_entry_wins (lines : list str) (line key value : str) :
  strip line = key ++ colon :: value ->
  colon ∉ key ->
  let config := load_config (Some (lines ++ [line])) in
  config !! strip key = Some (strip value)
  /\ forall k, k <> strip key -> config !! k = load_config (Some lines) !! k.
Proof.
  intros Hline Hkey. cbv zeta. rewrite load_config_snoc.
  unfold config_line. rewrite Hline, contains_middle, split1_first by done.
  assert (truthy (key ++ colon :: value) = true) as -> by by destruct key.
  cbn [andb]. split; [apply lookup_insert_eq|].
  intros k Hk. by apply lookup_insert_ne.
Qed.


(** X13.  One clean name per line (no name empty, none with white space at
    either end or with a line feed) is read from the text area as exactly
    those names, in order. *)
Theorem manual_names_round_trip (predefined : gmap str (list str))
    (selected : option str) (p : str) (ps : list str) :
  Forall (fun q => q <> [] /\ strip q = q /\ 10%N ∉ q) (p :: ps) ->
  pops_of predefined (mkSide EnterManually selected (join [10%N] (p :: ps))) = p :: ps.
Proof.
  intros Hall. unfold pops_of. cbn [radio text_area].
  assert (Hclean : Forall (fun q => q <> [] /\ strip q = q) (p :: ps))
    by (eapply Forall_impl; [exact Hall|]; by intros q (? & ? & ?)).
  destruct (join_clean [10%N] p ps Hclean) as (Hne & _ & _).
  assert (truthy (join [10%N] (p :: ps)) = true) as ->
    by by destruct (join [10%N] (p :: ps)).
  pose proof (split_join 10%N [] [] p ps) as Hsplit. cbn [app] in Hsplit.
  apply Forall_cons in Hall as Hall'. destruct Hall' as [(_ & _ & Hp) Hps].
  rewrite Hsplit.
  2:{ by intros ?%elem_of_nil. }
  2:{ by intros ?%elem_of_nil. }
  2:{ done. }
  2:{ eapply Forall_impl; [exact Hps|]. by intros q (? & ? & ?). }
  rewrite List.map_id.
  assert (Hstrip : List.map strip (p :: ps) = p :: ps).
  { clear -Hclean. induction Hclean as [|q l [_ Hq] _ IH]; [done|].
    cbn [List.map]. by rewrite Hq, IH. }
  rewrite Hstrip. apply filter_all. intros q Hq.
  rewrite Forall_forall in Hclean. destruct (Hclean q Hq) as [Hq' _]. by destruct q.
Qed.

(** ** Predefined list files *)

Lemma split1_no_sep sep (s : str) : sep ∉ (split1 sep s).1.
Proof.
  induction s as [|c s IH]; cbn [split1]; [by intros ?%elem_of_nil|].
  destruct (N.eqb_spec c sep); [by intros ?%elem_of_nil|].
  destruct (split1 sep s) as [a b]. cbn [fst] in *.
  apply not_elem_of_cons. by split.
Qed.

(** X9.  Every list loaded from a list file has at least one element; no
    element holds a comma or starts or ends with white space (an element can
    be empty); list names neither hold a colon nor start or end with white
    space. *)
Theorem predefined_lists_wellformed (file : option (list str)) (name : str)
    (pops : list str) :
  load_predefined_lists file !! name = Some pops ->
  pops <> []
  /\ Forall (fun p => strip p = p /\ comma ∉ p) pops
  /\ strip name = name
  /\ colon ∉ name.
Proof.
  set (P := fun (name : str) (pops : list str) =>
              pops <> [] /\ Forall (fun p => strip p = p /\ comma ∉ p) pops
              /\ strip name = name /\ colon ∉ name).
  assert (Hstep : forall lists line, map_Forall P lists ->
                                     map_Forall P (predefined_line lists line)).
  { intros lists line Hl. unfold predefined_line.
    destruct (truthy (strip line) && contains colon (strip line)); [|done].
    pose proof (split1_no_sep colon (strip line)) as Hn.
    destruct (split1 colon (strip line)) as [n [pops_str|]]; [|done].
    cbn [fst] in Hn. apply map_Forall_insert_2; [|done].
    split; [|split; [|split]].
    - intros H. apply (split_nonempty comma (strip pops_str)).
      by destruct (split comma (strip pops_str)).
    - apply Forall_forall. intros p Hp.
      apply list_elem_of_In, List.in_map_iff in Hp as (piece & <- & Hpiece).
      apply list_elem_of_In in Hpiece. split; [apply strip_idemp|].
      intros Hin. apply strip_subset in Hin.
      by destruct (split_pieces _ _ _ _ Hpiece Hin).
    - apply strip_idemp.
    - intros Hin. by apply strip_subset in Hin. }
  assert (Hall : forall lines lists, map_Forall P lists ->
                                     map_Forall P (fold_left predefined_line lines lists)).
  { induction lines as [|line lines IH]; intros lists Hl; [done|].
    cbn [fold_left]. by apply IH, Hstep. }
  intros Hlook. destruct file as [lines|]; cbn [load_predefined_lists] in Hlook;
    [|by rewrite lookup_empty in Hlook].
  apply (Hall lines ∅ (map_Forall_empty _) name pops Hlook).
Qed.

(** X10.  A line written as [name: p1, p2, ...], with a clean name (not empty, no
    colon, no white space at either end) and clean elements (not empty, no
    comma, no white space at either end), is read back as exactly that list
    under that name. *)
Theorem predefined_line_round_trip (lists : gmap str (list str)) (name p : str)
    (ps : list str) :
  name <> [] -> strip name = name -> colon ∉ name ->
  Forall (fun q => q <> [] /\ strip q = q /\ comma ∉ q) (p :: ps) ->
  predefined_line lists (name ++ lit ": " ++ join (lit ", ") (p :: ps))
  = <[name := p :: ps]> lists.
Proof.
  intros Hne Hname Hcolon Hall.
  assert (Hclean : Forall (fun q => q <> [] /\ strip q = q) (p :: ps))
    by (eapply Forall_impl; [exact Hall|]; by intros q (? & ? & ?)).
  change (lit ", ") with (comma :: [32%N]). change (lit ": ") with [colon; 32%N].
  set (J := join (comma :: [32%N]) (p :: ps)).
  destruct (join_clean (comma :: [32%N]) p ps Hclean) as (HJne & HJs & HJe).
  fold J in HJne, HJs, HJe.
  apply strip_fixed in Hname as Hn. destruct Hn as [Hns Hne'].
  assert (Hline : strip (name ++ [colon; 32%N] ++ J) = name ++ colon :: 32%N :: J).
  { change (name ++ [colon; 32%N] ++ J) with (name ++ colon :: 32%N :: J).
    apply strip_fixed. split; [by apply starts_clean_app|].
    replace (name ++ colon :: 32%N :: J) with ((name ++ [colon; 32%N]) ++ J)
      by (by rewrite <- app_assoc).
    by apply ends_clean_app. }
  unfold predefined_line. rewrite Hline, contains_middle, split1_first by done.
  assert (truthy (name ++ colon :: 32%N :: J) = true) as -> by by destruct name.
  cbn [andb]. rewrite Hname. f_equal.
  assert (HJ : strip (32%N :: J) = J).
  { unfold strip. rewrite lstrip_space, (lstrip_clean J HJs).
    unfold rstrip. by rewrite (lstrip_clean _ HJe), rev_involutive. }
  rewrite HJ. unfold J.
  apply Forall_cons in Hall as Hall'. destruct Hall' as [(_ & _ & Hp) Hps].
  pose proof (split_join comma [32%N] [] p ps) as Hsplit. cbn [app] in Hsplit.
  rewrite Hsplit.
  2:{ intros H. apply list_elem_of_singleton in H. done. }
  2:{ by intros ?%elem_of_nil. }
  2:{ done. }
  2:{ eapply Forall_impl; [exact Hps|]. by intros q (? & ? & ?). }
  cbn [List.map]. apply Forall_cons in Hclean as [[_ Hsp] Hcl]. rewrite Hsp. f_equal.
  clear -Hcl. induction Hcl as [|q l [_ Hq] _ IH]; [done|].
  cbn [List.map]. rewrite IH. f_equal.
  apply strip_fixed in Hq as [H1 H2].
  unfold strip. rewrite lstrip_space, (lstrip_clean q H1).
  unfold rstrip. by rewrite (lstrip_clean _ H2), rev_involutive.
Qed.

(** ** Width of the statistics lines *)

(** X19.  A line of the statistics block is as wide as its three fields need:
    the name is padded to 40 characters, the two numbers to 6 and 7, and
    nothing is ever cut.  When the name and the numbers fit, the line is
    exactly as long as the ruled lines of the heading, so that the columns
    line up; a longer name pushes the numbers to the right. *)
Theorem stats_line_width (float_repr : float -> str) (r : row) (name : str)
    (se z : float) :
  r (lit "left") = Ok (CStr name) ->
  r (lit "se") = Ok (CNum se) ->
  r (lit "zscore") = Ok (CNum z) ->
  let se_text := format_f 2 (fmul se f100) in
  let z_text := format_f 2 z in
  exists line,
    stats_line float_repr r = Ok line
    /\ length line
       = (Nat.max 40 (length name) + Nat.max 6 (length se_text)
          + Nat.max 7 (length z_text) + 8)%nat
    /\ ((length name <= 40)%nat -> (length se_text <= 6)%nat ->
        (length z_text <= 7)%nat -> length line = length dashes).
Proof.
  intros Hl Hs Hz. cbv zeta. unfold stats_line. rewrite Hs. cbn [rbind cell_times_100].
  rewrite Hl. cbn [rbind format_2f]. rewrite Hz. cbn [rbind format_2f format_left40].
  eexists. split; [reflexivity|].
  assert (Hlen : length (ljust 40 name ++ lit " | "
                         ++ rjust 6 (format_f 2 (fmul se f100)) ++ lit "% | "
                         ++ rjust 7 (format_f 2 z) ++ nl)
                 = (Nat.max 40 (length name)
                    + Nat.max 6 (length (format_f 2 (fmul se f100)))
                    + Nat.max 7 (length (format_f 2 z)) + 8)%nat).
  { unfold ljust, rjust. rewrite !length_app, !repeat_length.
    change (length (lit " | ")) with 3%nat. change (length (lit "% | ")) with 4%nat.
    change (length nl) with 1%nat. lia. }
  split; [exact Hlen|].
  intros H1 H2 H3. rewrite Hlen. change (length dashes) with 61%nat. lia.
Qed.

(** ** More on the export frame *)

Lemma group_mean_all_nan (vals : list float) :
  Forall (fun v => isnan v = true) vals -> group_mean vals = S754_nan.
Proof.
  intros Hall. unfold group_mean.
  assert (Hfold : forall acc, fold_left mean_step vals acc = acc).
  { induction Hall as [|v l Hv _ IH]; intros acc; [done|].
    cbn [fold_left]. destruct acc as [[sumx comp] nobs]. cbn [mean_step].
    rewrite Hv. apply IH. }
  by rewrite Hfold.
Qed.

Lemma elem_of_triples (ts ss : list str) (vs : list float) t s v :
  (t, s, v) ∈ triples ts ss vs ->
  exists i, ts !! i = Some t /\ ss !! i = Some s /\ vs !! i = Some v.
Proof.
  unfold triples. intros [i Hi]%list_elem_of_lookup_1. exists i.
  rewrite lookup_zip_with in Hi.
  destruct (zip_with pair ts ss !! i) as [[t' s']|] eqn:Hts; [|done].
  destruct (vs !! i) as [v'|]; [|done]. cbn in Hi. injection Hi as -> -> ->.
  rewrite lookup_zip_with in Hts.
  destruct (ts !! i) as [t''|]; [|done]. destruct (ss !! i) as [s''|]; [|done].
  cbn in Hts. by injection Hts as -> ->.
Qed.

(** A source all of whose values are missing has no label in the pivot. *)
Lemma nan_source_no_label (ts ss : list str) (vs : list float) (s : str) :
  (forall i, ss !! i = Some s -> exists v, vs !! i = Some v /\ isnan v = true) ->
  s ∉ pivot_labels (triples ts ss vs).
Proof.
  intros Hnan Hin. unfold pivot_labels in Hin. rewrite elem_of_sort_uniq in Hin.
  apply list_elem_of_In, List.in_map_iff in Hin as ([[t s'] v] & Hs & Hkept).
  cbn in Hs. subst s'. unfold kept_rows in Hkept.
  apply List.filter_In in Hkept as [_ Hkeep]. cbn [fst snd] in Hkeep.
  unfold pivot_cell in Hkeep. rewrite group_mean_all_nan in Hkeep; [done|].
  apply Forall_forall. intros v' Hv'. apply elem_of_group_values in Hv'.
  apply elem_of_triples in Hv' as (i & _ & Hsi & Hvi).
  destruct (Hnan i Hsi) as (v'' & Hv'' & Hn). congruence.
Qed.

(** X21.  The export of a derived table never fails, whatever values and
    repetitions the table has; its last two columns are [p-value] and [x2],
    and they hold, on every row, the values of the first row of the fit
    table: further rows of the fit table are ignored. *)
Theorem export_fit_columns (w rd : DataFrame) ts ss ws ses zs pv xv :
  derived_table w ts ss ws ses zs ->
  fit_table rd pv xv ->
  exists df front,
    export_frame w rd = Ok df
    /\ List.map fst (columns df) = front ++ [lit "p-value"; lit "x2"]
    /\ assoc (lit "p-value") (columns df) = Some (repeat pv (nrows df))
    /\ assoc (lit "x2") (columns df) = Some (repeat xv (nrows df)).
Proof.
  intros Hw Hfit.
  pose proof (export_frame_shape w rd ts ss ws ses zs pv xv Hw Hfit) as Hshape.
  cbv zeta in Hshape. rewrite Hshape. clear Hshape.
  set (rw := triples ts ss ws). set (rs := triples ts ss ses).
  set (rz := triples ts ss zs). set (index := export_index rw rs rz).
  set (vals := export_columns sfx_weight rw index
               ++ export_columns sfx_se rs index
               ++ export_columns sfx_zscore rz index).
  assert (Hnames : List.map fst vals
                   = value_names (pivot_labels rw) (pivot_labels rs) (pivot_labels rz)).
  { unfold vals. by rewrite !List.map_app, !names_of_export_columns. }
  eexists. exists (lit "target" :: List.map fst vals).
  split; [reflexivity|]. cbn [columns nrows].
  split; [cbn [List.map fst]; by rewrite List.map_app|].
  assert (Hp : assoc (lit "p-value") vals = None).
  { apply assoc_absent. rewrite Hnames. apply pvalue_not_value_name. }
  assert (Hx : assoc (lit "x2") vals = None).
  { apply assoc_absent. rewrite Hnames. apply x2_not_value_name. }
  split.
  - cbn [assoc]. rewrite decide_False by done.
    rewrite assoc_app, Hp. cbn [assoc]. by rewrite decide_True.
  - cbn [assoc]. rewrite decide_False by done.
    rewrite assoc_app, Hx. cbn [assoc]. rewrite decide_False by done.
    by rewrite decide_True.
Qed.

(** X22.  A source whose weights (or standard errors, or z-scores) are all
    missing has no [_weight] (or [_se], or [_zscore]) column in the export:
    the export then has fewer than three columns for that source. *)
Theorem all_nan_column_dropped (w rd : DataFrame) ts ss ws ses zs pv xv
    (s sfx : str) (vs : list float) :
  derived_table w ts ss ws ses zs ->
  fit_table rd pv xv ->
  (sfx, vs) ∈ [(sfx_weight, ws); (sfx_se, ses); (sfx_zscore, zs)] ->
  (forall i, ss !! i = Some s -> exists v, vs !! i = Some v /\ isnan v = true) ->
  exists df,
    export_frame w rd = Ok df
    /\ s ++ sfx ∉ List.map fst (columns df).
Proof.
  intros Hw Hfit Hsfx Hnan.
  pose proof (export_frame_shape w rd ts ss ws ses zs pv xv Hw Hfit) as Hshape.
  cbv zeta in Hshape. rewrite Hshape. clear Hshape.
  eexists. split; [reflexivity|]. cbn [columns List.map fst].
  rewrite !List.map_app, !names_of_export_columns. cbn [List.map fst].
  pose proof (nan_source_no_label ts ss vs s Hnan) as Hlabel.
  assert (Hother : forall sfx' labels, 
            take 2 (rev sfx) <> take 2 (rev sfx') ->
            (2 <= length sfx)%nat -> (2 <= length sfx')%nat ->
            s ++ sfx ∉ List.map (fun s0 : str => s0 ++ sfx') labels).
  { intros sfx' labels Hne H1 H2 (s' & Heq & _)%elem_of_suffixed.
    revert Heq. by apply (suffix_clash 2). }
  assert (Hsame : forall labels, s ∉ labels ->
            s ++ sfx ∉ List.map (fun s0 : str => s0 ++ sfx) labels).
  { intros labels Hl (s' & Heq & Hs')%elem_of_suffixed.
    apply app_inv_tail in Heq. by subst s'. }
  assert (Hname : forall name, (2 <= length name)%nat ->
            take 2 (rev sfx) <> take 2 (rev name) -> s ++ sfx <> name).
  { intros name Hlen Hne. apply (suffix_clash_name 2); [|done|done].
    repeat (apply elem_of_cons in Hsfx as [[= -> _]|Hsfx]; [vm_compute; lia|]).
    by apply elem_of_nil in Hsfx. }
  repeat (apply elem_of_cons in Hsfx as [[= -> ->]|Hsfx]);
    [..|by apply elem_of_nil in Hsfx];
    rewrite not_elem_of_cons, !not_elem_of_app, !not_elem_of_cons;
    (split; [apply Hname; vm_compute; [lia|done]|]);
    (split; [split; [|split]|split; [|split]]);
    try (apply Hname; vm_compute; [lia|done]);
    try (by intros ?%elem_of_nil);
    try (by apply Hsame);
    apply Hother; vm_compute; try lia; done.
Qed.

(** ** The further properties on the sample data *)

Lemma estimator_failure_reported_witness :
  start_analysis repr_fixed12 [10%N] (R_without_model sample_items)
    (mkSession (Some true)) (Some (lit "data/v54")) (lit "T")
    [lit "A"; lit "B"] [lit "X"] empty_world
  = (Ok tt,
     mkWorld
       (rlog empty_world
        ++ take 5 (analysis_calls (lit "data/v54") (lit "T") [lit "A"; lit "B"] [lit "X"]))
       (heap empty_world)
       (page empty_world ++ info_lines (lit "T") [lit "A"; lit "B"] [lit "X"]
        ++ [st_error msg_critical; st_exception RRuntimeError])).
Proof.
  apply (estimator_failure_reported repr_fixed12 [10%N] (R_without_model sample_items)
           (mkSession (Some true)) (lit "data/v54") (lit "T")
           [lit "A"; lit "B"] [lit "X"] empty_world 4);
    try reflexivity.
  vm_compute. repeat split; discriminate.
Defined.

Lemma fit_failure_after_success_witness :
  start_analysis repr_fixed12 [10%N] (R_fixed unfit_items)
    (mkSession (Some true)) (Some (lit "data/v54")) (lit "T")
    [lit "A"; lit "B"] [lit "X"] empty_world
  = (Ok tt,
     mkWorld
       (rlog empty_world
        ++ analysis_calls (lit "data/v54") (lit "T") [lit "A"; lit "B"] [lit "X"])
       (heap empty_world ++ omap snd unfit_items)
       (page empty_world ++ info_lines (lit "T") [lit "A"; lit "B"] [lit "X"]
        ++ [ st_success (lit "Analysis complete!");
             st_header (lit "3. Analysis Result");
             st_error msg_critical;
             st_exception IndexError ])).
Proof.
  apply (fit_failure_after_success repr_fixed12 [10%N] (R_fixed unfit_items)
           (mkSession (Some true)) (lit "data/v54") (lit "T")
           [lit "A"; lit "B"] [lit "X"] empty_world unfit_items
           sample_weights (Some empty_rankdrop) IndexError);
    try reflexivity.
  vm_compute. repeat split; discriminate.
Defined.

Lemma index_file_download_exact_witness :
  index_file_inspector sample_disk posix_basename (lit "data/v54.fam")
  = sidebar_download_button (lit "Download Index File (.fam/.ind)") sample_fam
      (posix_basename (lit "data/v54.fam")) (lit "text/plain")
      (lit "Click to download the index file to view all population names.").
Proof.
  apply (index_file_download_exact sample_disk posix_basename (lit "data/v54.fam")
           sample_fam sample_fam_text).
  - reflexivity.
  - reflexivity.
  - vm_compute. intros H.
    repeat (apply elem_of_cons in H as [H|H]; [discriminate|]).
    by apply elem_of_nil in H.
Defined.

Lemma fam_takes_precedence_witness :
  sidebar fam_only_disk posix_basename (Some (lit "data/v54"))
  = sidebar sample_disk posix_basename (Some (lit "data/v54"))
  /\ (truthy (lit "data/v54") = true ->
      last (sidebar sample_disk posix_basename (Some (lit "data/v54")))
      = Some (index_file_inspector sample_disk posix_basename
                (lit "data/v54" ++ lit ".fam"))).
Proof.
  apply (fam_takes_precedence sample_disk fam_only_disk posix_basename (lit "data/v54")).
  - vm_compute. discriminate.
  - reflexivity.
Defined.

Lemma manual_names_round_trip_witness :
  pops_of ∅ (mkSide EnterManually None (join [10%N] [lit "Yamnaya"; lit "Han China"]))
  = [lit "Yamnaya"; lit "Han China"].
Proof.
  apply (manual_names_round_trip ∅ None (lit "Yamnaya") [lit "Han China"]).
  repeat first [apply Forall_nil_2 | apply Forall_cons_2];
    (split; [done|split; [reflexivity|]]);
    vm_compute; intros H;
    repeat (apply elem_of_cons in H as [H|H]; [discriminate|]);
    by apply elem_of_nil in H.
Defined.

Lemma config_last_entry_wins_witness :
  let config := load_config (Some ([lit "prefix: old"] ++ [lit " prefix : C:/data/v54 "])) in
  config !! strip (lit "prefix ") = Some (strip (lit " C:/data/v54"))
  /\ forall k, k <> strip (lit "prefix ") ->
               config !! k = load_config (Some [lit "prefix: old"]) !! k.
Proof.
  apply (config_last_entry_wins [lit "prefix: old"] (lit " prefix : C:/data/v54 ")
           (lit "prefix ") (lit " C:/data/v54")).
  - reflexivity.
  - vm_compute. intros H.
    repeat (apply elem_of_cons in H as [H|H]; [discriminate|]).
    by apply elem_of_nil in H.
Defined.


Lemma predefined_lists_wellformed_witness :
  [lit "Yamnaya"; lit "Han"] <> []
  /\ Forall (fun p => strip p = p /\ comma ∉ p) [lit "Yamnaya"; lit "Han"]
  /\ strip (lit "Steppe") = lit "Steppe"
  /\ colon ∉ lit "Steppe".
Proof.
  apply (predefined_lists_wellformed (Some [lit " Steppe : Yamnaya , Han "])
           (lit "Steppe") [lit "Yamnaya"; lit "Han"]).
  reflexivity.
Defined.

Lemma predefined_line_round_trip_witness :
  predefined_line ∅ (lit "Steppe" ++ lit ": " ++ join (lit ", ") [lit "Yamnaya"; lit "Han"])
  = <[lit "Steppe" := [lit "Yamnaya"; lit "Han"]]> ∅.
Proof.
  apply (predefined_line_round_trip ∅ (lit "Steppe") (lit "Yamnaya") [lit "Han"]).
  - done.
  - reflexivity.
  - vm_compute. intros H.
    repeat (apply elem_of_cons in H as [H|H]; [discriminate|]).
    by apply elem_of_nil in H.
  - repeat first [apply Forall_nil_2 | apply Forall_cons_2];
      (split; [done|split; [reflexivity|]]);
      vm_compute; intros H;
      repeat (apply elem_of_cons in H as [H|H]; [discriminate|]);
      by apply elem_of_nil in H.
Defined.

Lemma r_vector_round_trip_witness :
  r_read_vector (lit "left")
    (lit "left" ++ lit " = c(" ++ r_vector [[65; 34; 66]%N; lit "C"] ++ lit ")")
  = Parsed [[65; 34; 66]%N; lit "C"].
Proof.
  apply (r_vector_round_trip (lit "left") [[65; 34; 66]%N; lit "C"]).
  repeat first [apply Forall_nil_2 | apply Forall_cons_2];
    vm_compute; intros H;
    repeat (apply elem_of_cons in H as [H|H]; [discriminate|]);
    by apply elem_of_nil in H.
Defined.

Lemma stats_line_width_witness :
  let se_text := format_f 2 (fmul (mkfloat 1 (-3)) f100) in
  let z_text := format_f 2 (mkfloat 6 0) in
  exists line,
    stats_line repr_fixed12 (getrow sample_derived 0) = Ok line
    /\ length line
       = (Nat.max 40 (length (lit "A")) + Nat.max 6 (length se_text)
          + Nat.max 7 (length z_text) + 8)%nat
    /\ ((length (lit "A") <= 40)%nat -> (length se_text <= 6)%nat ->
        (length z_text <= 7)%nat -> length line = length dashes).
Proof.
  apply (stats_line_width repr_fixed12 (getrow sample_derived 0) (lit "A")
           (mkfloat 1 (-3)) (mkfloat 6 0)); reflexivity.
Defined.

Lemma export_fit_columns_witness :
  exists df front,
    export_frame sample_derived sample_rankdrop = Ok df
    /\ List.map fst (columns df) = front ++ [lit "p-value"; lit "x2"]
    /\ assoc (lit "p-value") (columns df) = Some (repeat (CNum (mkfloat 1 (-5))) (nrows df))
    /\ assoc (lit "x2") (columns df) = Some (repeat (CNum (mkfloat 13 (-2))) (nrows df)).
Proof.
  apply (export_fit_columns sample_derived sample_rankdrop
           [lit "T"; lit "T"; lit "T"] [lit "A"; lit "B"; lit "C"]
           sample_ws sample_ses sample_zs
           (CNum (mkfloat 1 (-5))) (CNum (mkfloat 13 (-2)))).
  - by split.
  - split; eexists; reflexivity.
Defined.

Lemma all_nan_column_dropped_witness :
  exists df,
    export_frame nan_derived sample_rankdrop = Ok df
    /\ lit "A" ++ sfx_se ∉ List.map fst (columns df).
Proof.
  apply (all_nan_column_dropped nan_derived sample_rankdrop
           [lit "T"; lit "T"] [lit "A"; lit "B"]
           [mkfloat 3 (-2); mkfloat 1 (-2)] [S754_nan; mkfloat 1 (-4)]
           [S754_nan; mkfloat 4 0]
           (CNum (mkfloat 1 (-5))) (CNum (mkfloat 13 (-2)))
           (lit "A") sfx_se [S754_nan; mkfloat 1 (-4)]).
  - by split.
  - split; eexists; reflexivity.
  - right. left.
  - intros [|[|i]] Hi.
    + eexists. split; reflexivity.
    + vm_compute in Hi. discriminate.
    + done.
Defined.

Lemma missing_entry_reported_witness :
  start_analysis repr_fixed12 [10%N] (R_fixed bare_items)
    (mkSession (Some true)) (Some (lit "data/v54")) (lit "T")
    [lit "A"; lit "B"] [lit "X"] empty_world
  = (Ok tt,
     mkWorld
       (rlog empty_world
        ++ analysis_calls (lit "data/v54") (lit "T") [lit "A"; lit "B"] [lit "X"])
       (heap empty_world ++ omap snd bare_items)
       (page empty_world ++ info_lines (lit "T") [lit "A"; lit "B"] [lit "X"]
        ++ [st_error msg_critical; st_exception (KeyError (lit "rankdrop"))])).
Proof.
  apply (missing_entry_reported repr_fixed12 [10%N] (R_fixed bare_items)
           (mkSession (Some true)) (lit "data/v54") (lit "T")
           [lit "A"; lit "B"] [lit "X"] empty_world bare_items (lit "rankdrop"));
    try reflexivity.
  - vm_compute. repeat split; discriminate.
  - right. split; [discriminate|]. split; reflexivity.
Defined.

(** ** Rounding in the fixed-point formats *)

(** 0.125 lies halfway between 0.12 and 0.13 and is printed as 0.12. *)
Example format_tie : format_f 2 (S754_finite false 1 (-3)) = lit "0.12".
Proof. reflexivity. Qed.

(** ** The select box and the look-up of the selected list *)

Lemma assoc_set_keys {V} (k : str) (v : V) (l : list (str * V)) :
  NoDup (List.map fst l) ->
  NoDup (List.map fst (assoc_set k v l))
  /\ forall x, x ∈ List.map fst (assoc_set k v l) <-> x = k \/ x ∈ List.map fst l.
Proof.
  induction l as [|[k' v'] l IH]; cbn [assoc_set List.map fst].
  - intros _. split; [apply NoDup_singleton|].
    intros x. rewrite list_elem_of_singleton, elem_of_nil. tauto.
  - intros [Hk Hl]%NoDup_cons. destruct (decide (k' = k)) as [->|Hne].
    + cbn [List.map fst]. split; [by apply NoDup_cons|].
      intros x. rewrite elem_of_cons. tauto.
    + destruct (IH Hl) as [Hnd Hin]. cbn [List.map fst]. split.
      * apply NoDup_cons. split; [|done]. rewrite Hin. intros [?|?]; congruence.
      * intros x. rewrite !elem_of_cons, Hin. tauto.
Qed.

Lemma assoc_elem {V} (k : str) (l : list (str * V)) :
  k ∈ List.map fst l -> exists v, assoc k l = Some v.
Proof.
  induction l as [|[k' v'] l IH]; cbn [List.map fst assoc]; [by intros ?%elem_of_nil|].
  intros [->|Hin]%elem_of_cons.
  - rewrite decide_True by done. eauto.
  - destruct (decide (k' = k)); eauto.
Qed.

Lemma predefined_dict_agrees (lines : list str) (d : list (str * list str))
    (m : gmap str (list str)) :
  NoDup (List.map fst d) ->
  (forall k, assoc k d = m !! k) ->
  NoDup (List.map fst (fold_left predefined_entry lines d))
  /\ forall k, assoc k (fold_left predefined_entry lines d)
               = fold_left predefined_line lines m !! k.
Proof.
  revert d m. induction lines as [|line lines IH]; intros d m Hnd Hag; [done|].
  cbn [fold_left]. apply IH.
  - unfold predefined_entry.
    destruct (truthy (strip line) && contains colon (strip line)); [|done].
    destruct (split1 colon (strip line)) as [n [pops_str|]]; [|done].
    by apply assoc_set_keys.
  - intros k. unfold predefined_entry, predefined_line.
    destruct (truthy (strip line) && contains colon (strip line)); [|done].
    destruct (split1 colon (strip line)) as [n [pops_str|]]; [|done].
    destruct (decide (k = strip n)) as [->|Hne].
    + by rewrite assoc_set_eq, lookup_insert_eq.
    + rewrite assoc_set_ne by done. by rewrite lookup_insert_ne.
Qed.

(** X11.  The select box offers every list name once, and a name is offered
    exactly when the file defines a list for it, namely the one the last of
    its lines gives; so the look-up of the selected list never raises
    KeyError, whatever the user picks: the column yields what [pops_of]
    computes from the options handed back.  The option to use a predefined
    list is offered, as the first one, exactly when the file defines a
    list. *)
Theorem selected_list_found (file : option (list str)) (g : gesture) :
  let d := predefined_dict file in
  let left_choice :=
    if bool_decide (left_options d !! radio_pick g = Some (lit "Use predefined list"))
    then UsePredefined else EnterManually in
  NoDup (List.map fst d)
  /\ (forall k, assoc k d = load_predefined_lists file !! k)
  /\ column_pops d g
     = Ok (pops_of (load_predefined_lists file)
             (mkSide left_choice (List.map fst d !! select_pick g) (typed g)))
  /\ (left_options d !! 0%nat = Some (lit "Use predefined list") <-> d <> []).
Proof.
  cbv zeta.
  assert (Hd : NoDup (List.map fst (predefined_dict file))
               /\ forall k, assoc k (predefined_dict file)
                            = load_predefined_lists file !! k).
  { destruct file as [lines|]; cbn [predefined_dict load_predefined_lists].
    - apply predefined_dict_agrees; [apply NoDup_nil_2|done].
    - split; [apply NoDup_nil_2|done]. }
  destruct Hd as [Hnd Hag]. split; [done|]. split; [done|]. split.
  - unfold column_pops, pops_of.
    destruct (bool_decide _); cbn [radio selectbox text_area];
      [|by destruct (truthy (typed g))].
    destruct (List.map fst (predefined_dict file) !! select_pick g) as [name|] eqn:Hsel;
      [|done].
    destruct (truthy name); [|done].
    apply list_elem_of_lookup_2, assoc_elem in Hsel as [pops Hpops].
    by rewrite Hpops, <- Hag, Hpops.
  - unfold left_options. destruct (predefined_dict file); cbn; [|done].
    split; [|done]. intros H. vm_compute in H. discriminate.
Qed.

(** ** Row order and the pivot tables *)

(** Two increasing lists with the same elements are the same list. *)
Lemma increasing_ext (l1 l2 : list str) :
  increasing l1 -> increasing l2 -> (forall x, x ∈ l1 <-> x ∈ l2) -> l1 = l2.
Proof.
  revert l2. induction l1 as [|x l1 IH]; intros [|y l2] H1 H2 Hext.
  - done.
  - exfalso. apply (elem_of_nil y). apply Hext. by left.
  - exfalso. apply (elem_of_nil x). apply Hext. by left.
  - cbn [increasing] in H1, H2. destruct H1 as [Hx H1], H2 as [Hy H2].
    rewrite Forall_forall in Hx, Hy.
    assert (Hirr : forall a, str_compare a a <> Lt).
    { intros a. assert (str_compare a a = Eq) as -> by by apply str_compare_eq. done. }
    assert (Hxy : x = y).
    { assert (Hx2 : x ∈ y :: l2) by (apply Hext; by left).
      assert (Hy1 : y ∈ x :: l1) by (apply Hext; by left).
      apply elem_of_cons in Hx2 as [?|Hx2]; [done|].
      apply elem_of_cons in Hy1 as [?|Hy1]; [done|].
      pose proof (Hx y Hy1) as Hlt1. pose proof (Hy x Hx2) as Hlt2.
      rewrite (str_compare_antisym x y), Hlt1 in Hlt2. done. }
    subst y. f_equal. apply IH; [done|done|].
    intros z. split; intros Hz.
    + assert (Hz2 : z ∈ x :: l2) by (apply Hext; by right).
      apply elem_of_cons in Hz2 as [->|?]; [|done].
      by destruct (Hirr x (Hx x Hz)).
    + assert (Hz1 : z ∈ x :: l1) by (apply Hext; by right).
      apply elem_of_cons in Hz1 as [->|?]; [|done].
      by destruct (Hirr x (Hy x Hz)).
Qed.

Lemma sort_uniq_ext (l1 l2 : list str) :
  (forall x, x ∈ l1 <-> x ∈ l2) -> sort_uniq l1 = sort_uniq l2.
Proof.
  intros Hext. apply increasing_ext; [apply increasing_sort_uniq..|].
  intros x. by rewrite !elem_of_sort_uniq.
Qed.

Lemma group_values_permuted (rows rows' : list (str * str * float)) t s :
  rows ≡ₚ rows' -> NoDup (List.map fst rows) ->
  group_values rows' t s = group_values rows t s.
Proof.
  intros Hperm Hnd.
  assert (Hnd' : NoDup (List.map fst rows')).
  { change (NoDup (fst <$> rows')). rewrite <- Hperm. exact Hnd. }
  destruct (group_values rows t s) as [|v l] eqn:Hg.
  - destruct (group_values rows' t s) as [|v' l'] eqn:Hg'; [done|].
    exfalso. assert (Hv : v' ∈ group_values rows' t s) by (rewrite Hg'; by left).
    apply elem_of_group_values in Hv. rewrite <- Hperm in Hv.
    apply elem_of_group_values in Hv. rewrite Hg in Hv. by apply elem_of_nil in Hv.
  - assert (Hv : v ∈ group_values rows t s) by (rewrite Hg; by left).
    apply elem_of_group_values in Hv.
    rewrite <- Hg, (group_values_single rows t s v Hnd Hv).
    apply group_values_single; [done|]. by rewrite <- Hperm.
Qed.

(** X23.  When no (index, column) pair occurs twice, a pivot table does not
    depend on the order of the rows it is made from: the same rows in
    another order give the same table, with its index and its columns in
    increasing order of their labels. *)
Theorem pivot_row_order_irrelevant (w w' : DataFrame) (index cols values : str)
    (rows rows' : list (str * str * float)) :
  key_rows w index cols values = Ok rows ->
  key_rows w' index cols values = Ok rows' ->
  rows ≡ₚ rows' ->
  NoDup (List.map fst rows) ->
  pivot_table w' index cols values = pivot_table w index cols values
  /\ increasing (pivot_index rows) /\ increasing (pivot_labels rows).
Proof.
  intros Hr Hr' Hperm Hnd.
  split; [|split; apply increasing_sort_uniq].
  unfold pivot_table. rewrite Hr, Hr'. cbn [rbind]. f_equal.
  assert (Hcell : forall t s, pivot_cell rows' t s = pivot_cell rows t s).
  { intros t s. unfold pivot_cell. by rewrite (group_values_permuted rows rows'). }
  assert (Hkept : forall r, r ∈ kept_rows rows' <-> r ∈ kept_rows rows).
  { intros r. unfold kept_rows. rewrite !list_elem_of_In, !List.filter_In.
    rewrite <- !list_elem_of_In, Hcell.
    split; intros [Hin Hp]; (split; [|done]).
    - by rewrite Hperm.
    - by rewrite <- Hperm. }
  assert (Hmap : forall (f : str * str * float -> str) x,
            x ∈ List.map f (kept_rows rows') <-> x ∈ List.map f (kept_rows rows)).
  { intros f x. rewrite !list_elem_of_In, !List.in_map_iff.
    split; intros (r & Hf & Hin); exists r; (split; [done|]);
      apply list_elem_of_In, Hkept, list_elem_of_In; done. }
  assert (Hidx : pivot_index rows' = pivot_index rows)
    by (unfold pivot_index; apply sort_uniq_ext, Hmap).
  assert (Hlab : pivot_labels rows' = pivot_labels rows)
    by (unfold pivot_labels; apply sort_uniq_ext, Hmap).
  unfold pivot_of_rows. cbv zeta. rewrite Hidx, Hlab. f_equal.
  apply List.map_ext. intros s. f_equal. apply List.map_ext. intros t. apply Hcell.
Qed.

Lemma pivot_row_order_irrelevant_witness :
  pivot_table sample_reordered (lit "target") (lit "left") (lit "weight")
  = pivot_table sample_derived (lit "target") (lit "left") (lit "weight")
  /\ increasing (pivot_index (triples [lit "T"; lit "T"; lit "T"]
                                [lit "A"; lit "B"; lit "C"] sample_ws))
  /\ increasing (pivot_labels (triples [lit "T"; lit "T"; lit "T"]
                                 [lit "A"; lit "B"; lit "C"] sample_ws)).
Proof.
  apply (pivot_row_order_irrelevant sample_derived sample_reordered
           (lit "target") (lit "left") (lit "weight")
           (triples [lit "T"; lit "T"; lit "T"] [lit "A"; lit "B"; lit "C"] sample_ws)
           (triples [lit "T"; lit "T"; lit "T"] [lit "C"; lit "A"; lit "B"]
              [mkfloat (-1) (-3); mkfloat 3 (-2); mkfloat 1 (-2)])).
  - reflexivity.
  - reflexivity.
  - vm_compute. symmetry. apply (Permutation_cons_append [_; _] _).
  - apply (bool_decide_unpack _). by vm_compute.
Defined.
